(** * json2db: the file server behind the JSON document store

    A shallow embedding of the class [FileServer], the storage engine of
    json2db, together with the host functions it calls: [join] and
    [dirname] of Node's [path], the calls of [fs], [JSON.stringify],
    [JSON.parse] and [EventEmitter.emit].

    - A promise is modelled by how it settles; the methods are functions
      from a world to an outcome and a world, run one after the other as a
      chain of [await]s runs them.
    - The file system is a finite map from locations to files and
      directories, without links or permissions; the system calls fail
      with the error codes POSIX gives them.
    - Every notification and every system call is appended to a trace, so
      that what is emitted or attempted, and in which order, can be stated.
    - The recursive methods [mkdirp] and [rmrdir] take fuel; a call that
      returns [None] for every fuel is a promise that never settles.
    - Listeners are taken not to throw.
    - [rename], whose system call takes two paths, is modelled with the
      further notions at the end of the definitions and leaves no entry in
      the trace.
    - Of index.js the constructor of [Json2Db] and [setIdToDocument] are
      embedded.  The request handlers and the two response gateways are
      not: they act on the request and response objects of a web
      framework, on a [this] and a [qk] that nothing in the sources binds,
      and on the packages [petu] and [uuid]. *)

From Stdlib Require Import ZArith Ascii String List Lia DecimalPos.
From stdpp Require Import gmap strings list fin_maps.

Open Scope string_scope.
Open Scope list_scope.
Open Scope nat_scope.

(** ** Text helpers *)

Definition is_slash (c : ascii) : bool := Ascii.eqb c "/".

Abbreviation chars := list_ascii_of_string.
Abbreviation text := string_of_list_ascii.

(** [s.endsWith(suffix)]: some tail of [s] is [suffix]. *)
Fixpoint endsWith (s suffix : string) : bool :=
  if String.eqb s suffix then true
  else match s with
       | "" => false
       | String _ s' => endsWith s' suffix
       end.

Fixpoint drop_while {A} (f : A → bool) (l : list A) : list A :=
  match l with
  | [] => []
  | x :: l' => if f x then drop_while f l' else l
  end.

(** ** Node's [path] module (POSIX flavour) *)

Module Path.

(** [s.split('/')]: the segments between separators, empty ones kept. *)
Fixpoint split (s : string) : list string :=
  match s with
  | "" => [""]
  | String c s' =>
      if is_slash c then "" :: split s'
      else match split s' with
           | seg :: segs => String c seg :: segs
           | [] => [String c ""]
           end
  end.

Definition isAbsolute (s : string) : bool :=
  match s with
  | String c _ => is_slash c
  | "" => false
  end.

Fixpoint trailingSeparator (s : string) : bool :=
  match s with
  | "" => false
  | String c "" => is_slash c
  | String _ s' => trailingSeparator s'
  end.

(** One segment of [normalizeString].  The segments kept so far are held
    innermost first. *)
Definition norm_step (allowAboveRoot : bool) (res : list string)
    (seg : string) : list string :=
  if decide (seg = "" ∨ seg = ".") then res
  else if decide (seg = "..") then
    match res with
    | last :: res' =>
        if decide (last = "..")
        then (if allowAboveRoot then ".." :: res else res)
        else res'
    | [] => if allowAboveRoot then [".."] else []
    end
  else seg :: res.

Definition normalizeString (path : string) (allowAboveRoot : bool) : string :=
  String.concat "/" (rev (fold_left (norm_step allowAboveRoot) (split path) [])).

Definition normalize (path : string) : string :=
  if decide (path = "") then "."
  else
    let body := normalizeString path (negb (isAbsolute path)) in
    if decide (body = "") then
      (if isAbsolute path then "/"
       else if trailingSeparator path then "./" else ".")
    else
      let body := if trailingSeparator path then body +:+ "/" else body in
      if isAbsolute path then "/" +:+ body else body.

(** [join(a, b)]: the non-empty arguments separated by a slash, normalized. *)
Definition join (a b : string) : string :=
  match filter (λ s, s ≠ "") [a; b] with
  | [] => "."
  | args => normalize (String.concat "/" args)
  end.

(** [dirname(path)]: scan from the end, skip trailing separators, then the
    final segment; what is left before the separator found is the result. *)
Definition dirname (path : string) : string :=
  match path with
  | "" => "."
  | String c0 body =>
      let hasRoot := is_slash c0 in
      let r1 := drop_while is_slash (rev (chars body)) in
      let r2 := drop_while (λ c, negb (is_slash c)) r1 in
      match r2 with
      | [] => if hasRoot then "/" else "."
      | _ :: r3 =>
          match r3 with
          | [] => if hasRoot then "//" else String c0 ""
          | _ => String c0 (text (rev r3))
          end
      end
  end.

End Path.

(** ** JSON values, [JSON.stringify] and [JSON.parse] *)

(** A number written as an integer is [JNum]; it stands for the double
    nearest to it (the integer itself below 2^53).  A number written with a
    fraction or an exponent is kept as its literal, [JReal]: which double it
    denotes is not interpreted.  Strings are held as their UTF-8 bytes.
    The members of an object are held in insertion order. *)
#[local] Unset Elimination Schemes.
Inductive json : Type :=
  | JNull
  | JBool (b : bool)
  | JNum (n : Z)
  | JReal (literal : string)
  | JStr (s : string)
  | JArr (items : list json)
  | JObj (members : list (string * json)).
#[local] Set Elimination Schemes.

Module JSON.

Definition dquote : ascii := "034"%char.
Definition newline : ascii := "010"%char.
Definition space : ascii := " "%char.

(** *** Numbers *)

Fixpoint uint_chars (d : Decimal.uint) : list ascii :=
  match d with
  | Decimal.Nil => []
  | Decimal.D0 d => "0"%char :: uint_chars d
  | Decimal.D1 d => "1"%char :: uint_chars d
  | Decimal.D2 d => "2"%char :: uint_chars d
  | Decimal.D3 d => "3"%char :: uint_chars d
  | Decimal.D4 d => "4"%char :: uint_chars d
  | Decimal.D5 d => "5"%char :: uint_chars d
  | Decimal.D6 d => "6"%char :: uint_chars d
  | Decimal.D7 d => "7"%char :: uint_chars d
  | Decimal.D8 d => "8"%char :: uint_chars d
  | Decimal.D9 d => "9"%char :: uint_chars d
  end.

Definition digit_of (c : ascii) : option (Decimal.uint → Decimal.uint) :=
  match N_of_ascii c with
  | 48%N => Some Decimal.D0 | 49%N => Some Decimal.D1
  | 50%N => Some Decimal.D2 | 51%N => Some Decimal.D3
  | 52%N => Some Decimal.D4 | 53%N => Some Decimal.D5
  | 54%N => Some Decimal.D6 | 55%N => Some Decimal.D7
  | 56%N => Some Decimal.D8 | 57%N => Some Decimal.D9
  | _ => None
  end.

Definition is_digit (c : ascii) : bool :=
  match digit_of c with Some _ => true | None => false end.

Definition number_chars (n : Z) : list ascii :=
  match n with
  | Z0 => ["0"%char]
  | Zpos p => uint_chars (Pos.to_uint p)
  | Zneg p => "-"%char :: uint_chars (Pos.to_uint p)
  end.

(** *** Strings: [QuoteJSONString] *)

Definition hex_char (n : N) : ascii :=
  ascii_of_N (if (n <? 10)%N then 48 + n else 87 + n).

Definition quote_char (c : ascii) : list ascii :=
  let n := N_of_ascii c in
  if Ascii.eqb c dquote then ["\"%char; dquote]
  else if Ascii.eqb c "\"%char then ["\"%char; "\"%char]
  else if (n =? 8)%N then ["\"%char; "b"%char]
  else if (n =? 9)%N then ["\"%char; "t"%char]
  else if (n =? 10)%N then ["\"%char; "n"%char]
  else if (n =? 12)%N then ["\"%char; "f"%char]
  else if (n =? 13)%N then ["\"%char; "r"%char]
  else if (n <? 32)%N then
    ["\"%char; "u"%char; "0"%char; "0"%char; hex_char (n / 16); hex_char (n mod 16)]
  else [c].

Definition quote (s : string) : list ascii :=
  dquote :: flat_map quote_char (chars s) ++ [dquote].

(** *** [JSON.stringify(value, undefined, 2)] *)

Definition indent (level : nat) : list ascii :=
  newline :: repeat space (2 * level).

Fixpoint sep_by {A} (sep : list A) (parts : list (list A)) : list A :=
  match parts with
  | [] => []
  | [p] => p
  | p :: ps => p ++ sep ++ sep_by sep ps
  end.

Fixpoint print (level : nat) (v : json) : list ascii :=
  match v with
  | JNull => chars "null"
  | JBool true => chars "true"
  | JBool false => chars "false"
  | JNum n => number_chars n
  | JReal lit => chars lit
  | JStr s => quote s
  | JArr [] => chars "[]"
  | JArr items =>
      "["%char :: indent (S level)
        ++ sep_by (","%char :: indent (S level)) (map (print (S level)) items)
        ++ indent level ++ ["]"%char]
  | JObj [] => chars "{}"
  | JObj members =>
      "{"%char :: indent (S level)
        ++ sep_by (","%char :: indent (S level))
             (map (λ '(k, x), quote k ++ ":"%char :: space :: print (S level) x)
                  members)
        ++ indent level ++ ["}"%char]
  end.

Definition stringify (v : json) : string := text (print 0 v).

(** *** [JSON.parse] *)

Definition is_ws (c : ascii) : bool :=
  match N_of_ascii c with
  | 32%N | 9%N | 10%N | 13%N => true
  | _ => false
  end.

Definition skip_ws : list ascii → list ascii := drop_while is_ws.

Definition hex_val (c : ascii) : option N :=
  let n := N_of_ascii c in
  if (48 <=? n)%N && (n <=? 57)%N then Some (n - 48)%N
  else if (97 <=? n)%N && (n <=? 102)%N then Some (n - 87)%N
  else if (65 <=? n)%N && (n <=? 70)%N then Some (n - 55)%N
  else None.

Definition hex4 (a b c d : ascii) : option N :=
  match hex_val a, hex_val b, hex_val c, hex_val d with
  | Some x, Some y, Some z, Some w => Some (((x * 16 + y) * 16 + z) * 16 + w)%N
  | _, _, _, _ => None
  end.

(** The UTF-8 bytes of one code unit (surrogate pairs are not combined). *)
Definition code_unit_bytes (u : N) : list ascii :=
  if (u <? 128)%N then [ascii_of_N u]
  else if (u <? 2048)%N then
    [ascii_of_N (192 + u / 64); ascii_of_N (128 + u mod 64)]
  else
    [ascii_of_N (224 + u / 4096); ascii_of_N (128 + (u / 64) mod 64);
     ascii_of_N (128 + u mod 64)].

Definition unescape (c : ascii) : option ascii :=
  if Ascii.eqb c dquote then Some dquote
  else if Ascii.eqb c "\"%char then Some "\"%char
  else if Ascii.eqb c "/"%char then Some "/"%char
  else if Ascii.eqb c "b"%char then Some "008"%char
  else if Ascii.eqb c "f"%char then Some "012"%char
  else if Ascii.eqb c "n"%char then Some "010"%char
  else if Ascii.eqb c "r"%char then Some "013"%char
  else if Ascii.eqb c "t"%char then Some "009"%char
  else None.

(** The characters of a string literal, read after its opening quote. *)
Fixpoint parse_string (l : list ascii) : option (list ascii * list ascii) :=
  match l with
  | [] => None
  | c :: l1 =>
      if Ascii.eqb c dquote then Some ([], l1)
      else if Ascii.eqb c "\"%char then
        match l1 with
        | [] => None
        | e :: l2 =>
            if Ascii.eqb e "u"%char then
              match l2 with
              | h1 :: h2 :: h3 :: h4 :: l3 =>
                  match hex4 h1 h2 h3 h4, parse_string l3 with
                  | Some u, Some (s, r) => Some (code_unit_bytes u ++ s, r)
                  | _, _ => None
                  end
              | _ => None
              end
            else
              match unescape e, parse_string l2 with
              | Some ch, Some (s, r) => Some (ch :: s, r)
              | _, _ => None
              end
        end
      else if (N_of_ascii c <? 32)%N then None
      else
        match parse_string l1 with
        | Some (s, r) => Some (c :: s, r)
        | None => None
        end
  end.

Fixpoint lex_digits (l : list ascii) : Decimal.uint * list ascii :=
  match l with
  | [] => (Decimal.Nil, [])
  | c :: l' =>
      match digit_of c with
      | Some digit => let (d, r) := lex_digits l' in (digit d, r)
      | None => (Decimal.Nil, l)
      end
  end.

Definition leading_zero (d : Decimal.uint) : bool :=
  match d with
  | Decimal.D0 Decimal.Nil => false
  | Decimal.D0 _ => true
  | _ => false
  end.

Definition lex_fraction (l : list ascii) : option (list ascii * list ascii) :=
  match l with
  | c :: l1 =>
      if Ascii.eqb c "."%char then
        match lex_digits l1 with
        | (Decimal.Nil, _) => None
        | (d, r) => Some (c :: uint_chars d, r)
        end
      else Some ([], l)
  | [] => Some ([], l)
  end.

Definition lex_sign (l : list ascii) : list ascii * list ascii :=
  match l with
  | c :: l1 =>
      if Ascii.eqb c "+"%char || Ascii.eqb c "-"%char then ([c], l1) else ([], l)
  | [] => ([], l)
  end.

Definition lex_exponent (l : list ascii) : option (list ascii * list ascii) :=
  match l with
  | c :: l1 =>
      if Ascii.eqb c "e"%char || Ascii.eqb c "E"%char then
        let (sign, l2) := lex_sign l1 in
        match lex_digits l2 with
        | (Decimal.Nil, _) => None
        | (d, r) => Some (c :: sign ++ uint_chars d, r)
        end
      else Some ([], l)
  | [] => Some ([], l)
  end.

Definition parse_number (l : list ascii) : option (json * list ascii) :=
  let (minus, l1) :=
    match l with
    | c :: l' => if Ascii.eqb c "-"%char then (true, l') else (false, l)
    | [] => (false, l)
    end in
  match lex_digits l1 with
  | (Decimal.Nil, _) => None
  | (d, r) =>
      if leading_zero d then None
      else
        match lex_fraction r with
        | None => None
        | Some (frac, r1) =>
            match lex_exponent r1 with
            | None => None
            | Some (ex, r2) =>
                match frac ++ ex with
                | [] =>
                    let n := Z.of_N (N.of_uint d) in
                    Some (JNum (if minus then - n else n)%Z, r2)
                | tail =>
                    Some (JReal (text ((if minus then ["-"%char] else [])
                                       ++ uint_chars d ++ tail)), r2)
                end
            end
        end
  end.

(** The rest of a keyword after its first letter. *)
Fixpoint expect (word l : list ascii) : option (list ascii) :=
  match word, l with
  | [], _ => Some l
  | w :: word', c :: l' => if Ascii.eqb w c then expect word' l' else None
  | _ :: _, [] => None
  end.

(** Defining a property: an existing key keeps its place and takes the new
    value, a new key goes last. *)
Fixpoint obj_set (members : list (string * json)) (k : string) (v : json)
    : list (string * json) :=
  match members with
  | [] => [(k, v)]
  | (k', v') :: ms =>
      if decide (k' = k) then (k, v) :: ms else (k', v') :: obj_set ms k v
  end.

Fixpoint parse_value (fuel : nat) (l : list ascii) {struct fuel}
    : option (json * list ascii) :=
  match fuel with
  | O => None
  | S fuel' =>
      match skip_ws l with
      | [] => None
      | c :: r =>
          if Ascii.eqb c "["%char then
            match skip_ws r with
            | c' :: r' =>
                if Ascii.eqb c' "]"%char then Some (JArr [], r')
                else parse_items fuel' r []
            | [] => None
            end
          else if Ascii.eqb c "{"%char then
            match skip_ws r with
            | c' :: r' =>
                if Ascii.eqb c' "}"%char then Some (JObj [], r')
                else parse_members fuel' r []
            | [] => None
            end
          else if Ascii.eqb c dquote then
            match parse_string r with
            | Some (s, r') => Some (JStr (text s), r')
            | None => None
            end
          else if Ascii.eqb c "n"%char then
            option_map (pair JNull) (expect (chars "ull") r)
          else if Ascii.eqb c "t"%char then
            option_map (pair (JBool true)) (expect (chars "rue") r)
          else if Ascii.eqb c "f"%char then
            option_map (pair (JBool false)) (expect (chars "alse") r)
          else parse_number (c :: r)
      end
  end
with parse_items (fuel : nat) (l : list ascii) (acc : list json) {struct fuel}
    : option (json * list ascii) :=
  match fuel with
  | O => None
  | S fuel' =>
      match parse_value fuel' l with
      | None => None
      | Some (v, r) =>
          match skip_ws r with
          | c :: r' =>
              if Ascii.eqb c ","%char then parse_items fuel' r' (v :: acc)
              else if Ascii.eqb c "]"%char then Some (JArr (rev (v :: acc)), r')
              else None
          | [] => None
          end
      end
  end
with parse_members (fuel : nat) (l : list ascii) (acc : list (string * json))
    {struct fuel} : option (json * list ascii) :=
  match fuel with
  | O => None
  | S fuel' =>
      match skip_ws l with
      | c :: r =>
          if Ascii.eqb c dquote then
            match parse_string r with
            | None => None
            | Some (k, r1) =>
                match skip_ws r1 with
                | c1 :: r2 =>
                    if Ascii.eqb c1 ":"%char then
                      match parse_value fuel' r2 with
                      | None => None
                      | Some (v, r3) =>
                          let acc' := obj_set acc (text k) v in
                          match skip_ws r3 with
                          | c3 :: r4 =>
                              if Ascii.eqb c3 ","%char then parse_members fuel' r4 acc'
                              else if Ascii.eqb c3 "}"%char then Some (JObj acc', r4)
                              else None
                          | [] => None
                          end
                      end
                    else None
                | [] => None
                end
            end
          else None
      | [] => None
      end
  end.

(** [JSON.parse(text)]: one value, white space around it, nothing else;
    [None] stands for the [SyntaxError]. *)
Definition parse (s : string) : option json :=
  match parse_value (S (String.length s)) (chars s) with
  | Some (v, r) => match skip_ws r with [] => Some v | _ => None end
  | None => None
  end.

End JSON.

(** ** The file system and what can be observed of a run *)

Inductive errno : Set := ENOENT | ENOTDIR | EEXIST | EISDIR | ENOTEMPTY | EBUSY.

(** Regular files and directories; no links, devices or sockets. *)
Inductive node : Type :=
  | File (content : string)
  | Dir.

(** A location names an entry from the inside out: its own name first, the
    name of the top-level directory last; [[]] is the root of the tree. *)
Abbreviation loc := (list string).

Inductive res (A : Type) : Type :=
  | Ok (a : A)
  | Err (e : errno).
Arguments Ok {A} a.
Arguments Err {A} e.

Inductive syscall : Type :=
  | SStat | SMkdir | SRmdir | SReaddir | SReadFile | SUnlink
  | SWriteFile (data : string).

(** What subscribers and the operating system see, in order. *)
Inductive action : Type :=
  | Emit (event : string) (path : string) (payload : option json)
  | Call (call : syscall) (path : string).

Record world : Type := World {
  files : gmap loc node;
  cwd : loc;
  trace : list action
}.

Record Stats : Type := { isFile : bool; isDirectory : bool }.

Definition log (a : action) (w : world) : world :=
  World (files w) (cwd w) (trace w ++ [a]).

Definition with_files (fs : gmap loc node) (w : world) : world :=
  World fs (cwd w) (trace w).

Module Os.

Definition step (l : loc) (seg : string) : loc :=
  if decide (seg = "" ∨ seg = ".") then l
  else if decide (seg = "..") then tail l
  else seg :: l.

(** The location a path string names, from the root when it is absolute
    and from the working directory otherwise.  Paths reach the file system
    normalized by [join], so a [..] only occurs at the start of a relative
    path, where going up is all it means. *)
Definition resolve (wd : loc) (path : string) : loc :=
  fold_left step (Path.split path) (if Path.isAbsolute path then [] else wd).

(** Walking to a location: every directory on the way must exist. *)
Fixpoint lookup (fs : gmap loc node) (l : loc) : res node :=
  match l with
  | [] => match fs !! l with Some n => Ok n | None => Err ENOENT end
  | _ :: parent =>
      match lookup fs parent with
      | Ok Dir => match fs !! l with Some n => Ok n | None => Err ENOENT end
      | Ok (File _) => Err ENOTDIR
      | Err e => Err e
      end
  end.

Definition children (fs : gmap loc node) (l : loc) : list string :=
  omap (λ entry, match fst entry with
                 | name :: parent => if decide (parent = l) then Some name else None
                 | [] => None
                 end)
       (map_to_list fs).

Definition target (w : world) (path : string) : loc := resolve (cwd w) path.

Definition stat (path : string) (w : world) : res Stats * world :=
  let w' := log (Call SStat path) w in
  match lookup (files w) (target w path) with
  | Ok (File _) =>
      if Path.trailingSeparator path then (Err ENOTDIR, w')
      else (Ok {| isFile := true; isDirectory := false |}, w')
  | Ok Dir => (Ok {| isFile := false; isDirectory := true |}, w')
  | Err e => (Err e, w')
  end.

Definition mkdir (path : string) (w : world) : res unit * world :=
  let w' := log (Call SMkdir path) w in
  let l := target w path in
  match lookup (files w) l with
  | Ok _ => (Err EEXIST, w')
  | Err ENOENT =>
      match lookup (files w) (tail l) with
      | Ok Dir => (Ok tt, with_files (<[l := Dir]> (files w)) w')
      | _ => (Err ENOENT, w')
      end
  | Err e => (Err e, w')
  end.

(** [open] with [O_WRONLY|O_CREAT|O_TRUNC], then the write. *)
Definition writeFile (path data : string) (w : world) : res unit * world :=
  let w' := log (Call (SWriteFile data) path) w in
  let l := target w path in
  match lookup (files w) l with
  | Ok (File _) =>
      if Path.trailingSeparator path then (Err ENOTDIR, w')
      else (Ok tt, with_files (<[l := File data]> (files w)) w')
  | Ok Dir => (Err EISDIR, w')
  | Err ENOENT =>
      match lookup (files w) (tail l) with
      | Ok Dir =>
          if Path.trailingSeparator path then (Err EISDIR, w')
          else (Ok tt, with_files (<[l := File data]> (files w)) w')
      | _ => (Err ENOENT, w')
      end
  | Err e => (Err e, w')
  end.

Definition readFile (path : string) (w : world) : res string * world :=
  let w' := log (Call SReadFile path) w in
  match lookup (files w) (target w path) with
  | Ok (File content) =>
      if Path.trailingSeparator path then (Err ENOTDIR, w') else (Ok content, w')
  | Ok Dir => (Err EISDIR, w')
  | Err e => (Err e, w')
  end.

Definition unlink (path : string) (w : world) : res unit * world :=
  let w' := log (Call SUnlink path) w in
  let l := target w path in
  match lookup (files w) l with
  | Ok (File _) =>
      if Path.trailingSeparator path then (Err ENOTDIR, w')
      else (Ok tt, with_files (delete l (files w)) w')
  | Ok Dir => (Err EISDIR, w')
  | Err e => (Err e, w')
  end.

Definition rmdir (path : string) (w : world) : res unit * world :=
  let w' := log (Call SRmdir path) w in
  let l := target w path in
  match lookup (files w) l with
  | Ok Dir =>
      match l, children (files w) l with
      | [], _ => (Err EBUSY, w')
      | _, [] => (Ok tt, with_files (delete l (files w)) w')
      | _, _ => (Err ENOTEMPTY, w')
      end
  | Ok (File _) => (Err ENOTDIR, w')
  | Err e => (Err e, w')
  end.

Definition readdir (path : string) (w : world) : res (list string) * world :=
  let w' := log (Call SReaddir path) w in
  match lookup (files w) (target w path) with
  | Ok Dir => (Ok (children (files w) (target w path)), w')
  | Ok (File _) => (Err ENOTDIR, w')
  | Err e => (Err e, w')
  end.

End Os.

(** ** Promises and JavaScript values *)

(** A promise is modelled by how it settles.  A rejection carries the code
    of the [Error] it was rejected with. *)
Inductive outcome (A : Type) : Type :=
  | Fulfilled (a : A)
  | Rejected (e : errno).
Arguments Fulfilled {A} a.
Arguments Rejected {A} e.

(** The values [mkdirp], [writep] and [rmrdir] settle with: [undefined], a
    number, or an [Error] object handed over as an ordinary value. *)
Inductive value : Type :=
  | VUndefined
  | VNumber (n : Z)
  | VError (e : errno).

Definition settle {A} (r : res A) : outcome A :=
  match r with
  | Ok a => Fulfilled a
  | Err e => Rejected e
  end.

Definition as_undefined {A} (o : outcome A) : outcome value :=
  match o with
  | Fulfilled _ => Fulfilled VUndefined
  | Rejected e => Rejected e
  end.

(** ['' + data], which is what [writeFileSync] of the Node versions the
    package was written for does to data that is not a buffer. *)
Fixpoint to_text (data : json) : string :=
  match data with
  | JNull => "null"
  | JBool true => "true"
  | JBool false => "false"
  | JNum n => text (JSON.number_chars n)
  | JReal lit => lit
  | JStr s => s
  | JArr items =>
      String.concat ","
        (map (λ item, match item with JNull => "" | _ => to_text item end) items)
  | JObj _ => "[object Object]"
  end.

(** [Promise.all] over calls started in order: every call runs, the result
    is the first rejection if there is one. *)
Fixpoint promise_all {A} (calls : list (world → option (outcome A * world)))
    (w : world) : option (outcome (list A) * world) :=
  match calls with
  | [] => Some (Fulfilled [], w)
  | call :: calls' =>
      match call w with
      | None => None
      | Some (o, w1) =>
          match promise_all calls' w1 with
          | None => None
          | Some (os, w2) =>
              Some (match o, os with
                    | Rejected e, _ => Rejected e
                    | Fulfilled _, Rejected e => Rejected e
                    | Fulfilled a, Fulfilled l => Fulfilled (a :: l)
                    end, w2)
          end
      end
  end.

(** ** The class [FileServer] *)

(** The constructor throws unless [dirpath] is a non-empty string. *)
Record FileServer : Type := {
  dirpath : string;
  dirpath_given : dirpath ≠ ""
}.

Definition new_FileServer (dirpath : string) : option FileServer :=
  match decide (dirpath ≠ "") with
  | left given => Some {| dirpath := dirpath; dirpath_given := given |}
  | right _ => None
  end.

(** [this.emit(event, path, payload)] *)
Definition emit (event path : string) (payload : option json) (w : world) : world :=
  log (Emit event path payload) w.

(** The method [list]; the name is taken by the type of lists. *)
Definition list_ (this : FileServer) (dpath : string) (w : world)
    : outcome (list string) * world :=
  match Os.readdir (Path.join (dirpath this) dpath) w with
  | (Err e, w1) => (Rejected e, w1)
  | (Ok names, w1) =>
      (Fulfilled
         (filter (λ a, negb (String.prefix "." a)
                       && (endsWith a ".json" || endsWith a ".js") = true)
                 names), w1)
  end.

Definition listdir (this : FileServer) (dpath : string) (w : world)
    : outcome (list string) * world :=
  match Os.readdir (Path.join (dirpath this) dpath) w with
  | (Err e, w1) => (Rejected e, w1)
  | (Ok names, w1) =>
      (Fulfilled
         (filter (λ a, forallb (λ c, negb (Ascii.eqb c "."%char)) (chars a) = true)
                 names), w1)
  end.

Definition read (this : FileServer) (fpath : string) (w : world)
    : outcome json * world :=
  match Os.readFile (Path.join (dirpath this) fpath) w with
  | (Err e, w1) => (Rejected e, w1)
  | (Ok content, w1) =>
      let filejson :=
        match JSON.parse content with
        | Some parsed => parsed
        | None => JStr content
        end in
      (Fulfilled filejson, emit "read" fpath (Some filejson) w1)
  end.

Definition write (this : FileServer) (fpath : string) (data : json) (w : world)
    : outcome unit * world :=
  let w1 := emit "write" fpath (Some data) w in
  let '(written, w2) :=
    Os.writeFile (Path.join (dirpath this) fpath)
      (if endsWith fpath ".json" then JSON.stringify data else to_text data) w1 in
  (settle written, w2).

Definition del (this : FileServer) (fpath : string) (w : world)
    : outcome unit * world :=
  let w1 := emit "delete" fpath None w in
  let '(r, w2) := Os.unlink (Path.join (dirpath this) fpath) w1 in
  (settle r, w2).

Definition stat (this : FileServer) (fdpath : string) (w : world)
    : outcome Stats * world :=
  let '(r, w1) := Os.stat (Path.join (dirpath this) fdpath) w in
  (settle r, w1).

Definition mkdir (this : FileServer) (dpath : string) (w : world)
    : outcome unit * world :=
  let '(r, w1) := Os.mkdir (Path.join (dirpath this) dpath) w in
  (settle r, w1).

Definition rmdir (this : FileServer) (dpath : string) (w : world)
    : outcome unit * world :=
  let '(r, w1) := Os.rmdir (Path.join (dirpath this) dpath) w in
  (settle r, w1).

(** The recursion of [mkdirp] and [rmrdir] is bounded by [fuel]; [None]
    means that the promise has not settled within it. *)
Fixpoint mkdirp (fuel : nat) (this : FileServer) (dpath : string) (w : world)
    : option (outcome value * world) :=
  match fuel with
  | O => None
  | S fuel' =>
      match mkdir this dpath w with
      | (Fulfilled _, w1) => Some (Fulfilled (VNumber 1), w1)
      | (Rejected er, w1) =>
          match er with
          | ENOENT =>
              match mkdirp fuel' this (Path.dirname dpath) w1 with
              | None => None
              | Some (Rejected ert, w2) => Some (Fulfilled (VError ert), w2)
              | Some (Fulfilled _, w2) => mkdirp fuel' this dpath w2
              end
          | _ =>
              match stat this dpath w1 with
              | (Fulfilled stt, w2) =>
                  Some (Fulfilled (if isDirectory stt then VNumber 1 else VError er), w2)
              | (Rejected er2, w2) => Some (Fulfilled (VError er2), w2)
              end
          end
      end
  end.

Definition writep (fuel : nat) (this : FileServer) (fpath : string)
    (data : option json) (w : world) : option (outcome value * world) :=
  let data := default (JObj []) data in
  match mkdirp fuel this (Path.dirname fpath) w with
  | None => None
  | Some (Rejected e, w1) => Some (Rejected e, w1)
  | Some (Fulfilled _, w1) =>
      match stat this fpath w1 with
      | (Rejected er, w2) =>
          match er with
          | ENOENT =>
              let '(o, w3) := write this fpath data w2 in Some (as_undefined o, w3)
          | _ => Some (Fulfilled (VError er), w2)
          end
      | (Fulfilled st, w2) =>
          if isFile st then Some (Fulfilled (VNumber 1), w2)
          else let '(o, w3) := write this fpath data w2 in Some (as_undefined o, w3)
      end
  end.

Fixpoint rmrdir (fuel : nat) (this : FileServer) (dpath : string) (w : world)
    : option (outcome value * world) :=
  match fuel with
  | O => None
  | S fuel' =>
      match stat this dpath w with
      | (Rejected e, w1) => Some (Rejected e, w1)
      | (Fulfilled stats, w1) =>
          if isFile stats then
            let '(o, w2) := del this dpath w1 in Some (as_undefined o, w2)
          else if isDirectory stats then
            match Os.readdir (Path.join (dirpath this) dpath) w1 with
            | (Err e, w2) => Some (Rejected e, w2)
            | (Ok names, w2) =>
                match promise_all
                        (map (λ dpth, rmrdir fuel' this (Path.join dpath dpth)) names)
                        w2 with
                | None => None
                | Some (Rejected e, w3) => Some (Rejected e, w3)
                | Some (Fulfilled _, w3) =>
                    let '(o, w4) := rmdir this dpath w3 in Some (as_undefined o, w4)
                end
            end
          else Some (Fulfilled (VNumber 1), w1)
      end
  end.

(** ** Notions used in the statements *)

(** No separator inside. *)
Definition slash_free (s : string) : Prop :=
  Forall (λ c, is_slash c = false) (chars s).

(** A proper name: a segment that names an entry. *)
Definition proper (seg : string) : Prop := seg ≠ "" ∧ seg ≠ "." ∧ seg ≠ "..".

(** The stack of [normalizeString]: proper names above, [".."] below. *)
Fixpoint shape (st : list string) : Prop :=
  match st with
  | [] => True
  | s :: st' =>
      s ≠ "" ∧ s ≠ "." ∧ (s = ".." → Forall (λ x, x = "..") st') ∧ shape st'
  end.

(** No parent-traversal segment. *)
Definition no_up (path : string) : Prop := ".." ∉ Path.split path.

(** The location of the store root and of a path handed to the store. *)
Definition root_site (this : FileServer) (w : world) : loc :=
  Os.target w (dirpath this).

Definition site (this : FileServer) (w : world) (path : string) : loc :=
  Os.target w (Path.join (dirpath this) path).

(** The path string a call of the store hands to the file system. *)
Definition full (this : FileServer) (path : string) : string :=
  Path.join (dirpath this) path.

(** The store root is an existing directory. *)
Definition root_ok (this : FileServer) (w : world) : Prop :=
  Os.lookup (files w) (root_site this w) = Ok Dir.

(** Every entry sits in a directory. *)
Definition tree_ok (fs : gmap loc node) : Prop :=
  ∀ name parent n, fs !! (name :: parent) = Some n → fs !! parent = Some Dir.

(** What [write] hands to the file system for a document. *)
Definition document_text (fpath : string) (data : json) : string :=
  if endsWith fpath ".json" then JSON.stringify data else to_text data.

(** What [read] makes of the content of a file. *)
Definition decoded (content : string) : json :=
  match JSON.parse content with
  | Some parsed => parsed
  | None => JStr content
  end.

(** The values [JSON.stringify] and [JSON.parse] carry back and forth
    unchanged: an integer is one that a double holds exactly, any other
    number is given by a literal of the JSON grammar, and the keys of an
    object are distinct. *)
Fixpoint json_wf (v : json) : Prop :=
  match v with
  | JNull | JBool _ | JStr _ => True
  | JNum n => (- 2 ^ 53 < n < 2 ^ 53)%Z
  | JReal lit => JSON.parse_number (chars lit) = Some (JReal lit, [])
  | JArr items =>
      (fix all (l : list json) : Prop :=
         match l with
         | [] => True
         | x :: l' => json_wf x ∧ all l'
         end) items
  | JObj members =>
      NoDup (map fst members)
      ∧ (fix all (l : list (string * json)) : Prop :=
           match l with
           | [] => True
           | m :: l' => json_wf (snd m) ∧ all l'
           end) members
  end.

(** The number of calls [JSON.parse] needs for a value. *)
Fixpoint json_size (v : json) : nat :=
  match v with
  | JArr items =>
      S ((fix sum (l : list json) : nat :=
            match l with
            | [] => 0
            | x :: l' => S (json_size x) + sum l'
            end) items)
  | JObj members =>
      S ((fix sum (l : list (string * json)) : nat :=
            match l with
            | [] => 0
            | m :: l' => S (json_size (snd m)) + sum l'
            end) members)
  | _ => 1
  end.

Fixpoint items_size (items : list json) : nat :=
  match items with
  | [] => 0
  | x :: items' => S (json_size x) + items_size items'
  end.

Fixpoint members_size (members : list (string * json)) : nat :=
  match members with
  | [] => 0
  | m :: members' => S (json_size (snd m)) + members_size members'
  end.

(** How [JSON.stringify] writes one member of an object. *)
Definition print_member (level : nat) (m : string * json) : list ascii :=
  JSON.quote (fst m) ++ ":"%char :: JSON.space :: JSON.print level (snd m).

(** What may follow a value inside the output of [JSON.stringify]. *)
Definition follows (rest : list ascii) : bool :=
  match rest with
  | [] => true
  | c :: _ => Ascii.eqb c ","%char || Ascii.eqb c JSON.newline
  end.

(** The characters a value may start with. *)
Definition value_start (c : ascii) : bool :=
  JSON.is_digit c || Ascii.eqb c "-"%char || Ascii.eqb c "["%char
  || Ascii.eqb c "{"%char || Ascii.eqb c JSON.dquote || Ascii.eqb c "n"%char
  || Ascii.eqb c "t"%char || Ascii.eqb c "f"%char.

(** A value that is read back from what [JSON.stringify] writes for it. *)
Definition parses (v : json) : Prop :=
  ∀ fuel level rest,
    json_size v < fuel → follows rest = true →
    JSON.parse_value fuel (JSON.print level v ++ rest) = Some (v, rest).

(** ** Stores and trees used in the examples *)

(** A store rooted at [/data]. *)
Definition store : FileServer :=
  {| dirpath := "/data"; dirpath_given := ltac:(discriminate) |}.

(** A store rooted at [/srv/db]. *)
Definition remote : FileServer :=
  {| dirpath := "/srv/db"; dirpath_given := ltac:(discriminate) |}.

Definition tree (entries : list (loc * node)) : world :=
  World (list_to_map entries) [] [].

(** Nothing but the root directory. *)
Definition bare : world := tree [([], Dir)].

(** [/data] is there and empty. *)
Definition fresh : world := tree [([], Dir); (["data"], Dir)].

(** A directory sits at [/data/doc.json]. *)
Definition occupied : world :=
  tree [([], Dir); (["data"], Dir); (["doc.json"; "data"], Dir)].

(** [/data/a] is a file. *)
Definition blocked : world :=
  tree [([], Dir); (["data"], Dir); (["a"; "data"], File "x")].

(** A file outside the store. *)
Definition exposed : world :=
  tree [([], Dir); (["data"], Dir); (["etc"], Dir);
        (["passwd"; "etc"], File "root:x:0:0")].


(** ** Further notions used in the statements *)


(** The two conditions as tests that can be run on a given tree. *)
Definition tree_okb (fs : gmap loc node) : bool :=
  forallb (λ entry : loc * node,
             match fst entry with
             | [] => true
             | _ :: parent =>
                 match fs !! parent with Some Dir => true | _ => false end
             end)
          (map_to_list fs).

Definition properb (seg : string) : bool :=
  negb (String.eqb seg "") && negb (String.eqb seg ".") && negb (String.eqb seg "..").

Definition slash_freeb (s : string) : bool :=
  forallb (λ c, negb (is_slash c)) (chars s).


(** What is left of a tree when the entry at a location and everything
    below it is taken away. *)
Definition without (l : loc) (fs : gmap loc node) : gmap loc node :=
  filter (λ entry, ¬ l `suffix_of` fst entry) fs.

(** A path whose last segment is a given name. *)
Definition ends_in (n s : string) : Prop := ∃ segs, Path.split s = segs ++ [n].

(** The system calls of [mkdirp]. *)
Definition provisioning_call (a : action) : Prop :=
  ∃ path, a = Call SMkdir path ∨ a = Call SStat path.

(** A name without a dot. *)
Definition dotless (a : string) : Prop := "."%char ∉ chars a.

(** The entries of the directory at a location. *)
Definition entry_of (fs : gmap loc node) (l : loc) (a : string) : Prop :=
  is_Some (fs !! (a :: l)).

(** A document and a directory in the store at [/data]. *)
Definition stocked : world :=
  tree [([], Dir); (["data"], Dir);
        (["users"; "data"], Dir);
        (["ann.json"; "users"; "data"], File "{}");
        (["bob.json"; "users"; "data"], File "[1]");
        (["hooks.js"; "users"; "data"], File "x");
        ([".cache.json"; "users"; "data"], File "y");
        (["notes.txt"; "users"; "data"], File "z");
        (["README"; "users"; "data"], File "r");
        (["v1.2"; "users"; "data"], Dir);
        (["archive"; "users"; "data"], Dir);
        (["old.json"; "archive"; "users"; "data"], File "{}")].

(** ** [rename]

    The system call takes two paths; the trace, whose entries are calls on
    one path, does not record it.  It is Linux's [rename(2)]: both parent
    directories are walked to first, a path whose last component is not a
    name is refused with EBUSY, a file is not named with a trailing
    separator, neither entry may lie above the other, and then the kinds
    of the two entries are compared. *)

Inductive renamed : Type :=
  | Moved
  | Refused (e : errno)
  | Invalid.    (* EINVAL: a directory into itself *)

(** The last component of a path is a name: not [.], not [..], and the
    path is not the root. *)
Definition last_norm (path : string) : bool :=
  match drop_while (λ s, String.eqb s "") (rev (Path.split path)) with
  | seg :: _ => negb (String.eqb seg ".") && negb (String.eqb seg "..")
  | [] => false
  end.

(** The directory that holds the last component. *)
Definition holder (path : string) (l : loc) : loc :=
  if last_norm path then tail l else l.

(** The entries at and below [from], with [from] replaced by [to]. *)
Definition rebase (from to k : loc) : loc :=
  take (length k - length from) k ++ to.

Definition moved_tree (from to : loc) (fs : gmap loc node) : gmap loc node :=
  list_to_map
    (omap (λ entry : loc * node,
             if decide (from `suffix_of` fst entry)
             then Some (rebase from to (fst entry), snd entry) else None)
          (map_to_list fs)).

Definition pmRename (oldPath newPath : string) (w : world) : renamed * world :=
  let fs := files w in
  let lo := Os.target w oldPath in
  let ln := Os.target w newPath in
  match Os.lookup fs (holder oldPath lo) with
  | Err e => (Refused e, w)
  | Ok (File _) => (Refused ENOTDIR, w)
  | Ok Dir =>
      match Os.lookup fs (holder newPath ln) with
      | Err e => (Refused e, w)
      | Ok (File _) => (Refused ENOTDIR, w)
      | Ok Dir =>
          if negb (last_norm oldPath && last_norm newPath) then (Refused EBUSY, w)
          else
            match fs !! lo with
            | None => (Refused ENOENT, w)
            | Some old =>
                if match old with
                   | File _ =>
                       Path.trailingSeparator oldPath || Path.trailingSeparator newPath
                   | Dir => false
                   end
                then (Refused ENOTDIR, w)
                else if decide (lo = ln) then (Moved, w)
                else if decide (lo `suffix_of` ln) then (Invalid, w)
                else if decide (ln `suffix_of` lo) then (Refused ENOTEMPTY, w)
                else
                  match old, fs !! ln with
                  | File _, Some Dir => (Refused EISDIR, w)
                  | File c, _ =>
                      (Moved, with_files (<[ln := File c]> (delete lo fs)) w)
                  | Dir, Some (File _) => (Refused ENOTDIR, w)
                  | Dir, Some Dir =>
                      match Os.children fs ln with
                      | [] => (Moved, with_files (moved_tree lo ln fs ∪ without lo fs) w)
                      | _ :: _ => (Refused ENOTEMPTY, w)
                      end
                  | Dir, None =>
                      (Moved, with_files (moved_tree lo ln fs ∪ without lo fs) w)
                  end
            end
      end
  end.

(** The method [rename]. *)
Definition rename (this : FileServer) (fpath newpath : string) (w : world)
    : renamed * world :=
  pmRename (Path.join (dirpath this) fpath) (Path.join (dirpath this) newpath) w.

(** ** The class [Json2Db] and [setIdToDocument] (index.js) *)

Record Json2Db : Type := { fs : FileServer }.

(** The constructor.  [dirpath] is [Some s] for a string and [None] for
    any other value; [process_cwd] is what [process.cwd()] answers.  The
    result is [None] when the constructor of [FileServer] throws. *)
Definition new_Json2Db (dirpath : option string) (process_cwd : string)
    : option Json2Db :=
  let directoryPath :=
    match dirpath with
    | Some s => if decide (s = "") then Path.join process_cwd "json2db" else s
    | None => Path.join process_cwd "json2db"
    end in
  match new_FileServer directoryPath with
  | Some server => Some {| fs := server |}
  | None => None
  end.

(** [s.split(sep)] for a separator of one character. *)
Fixpoint split_on (sep : ascii) (s : string) : list string :=
  match s with
  | "" => [""]
  | String c s' =>
      if Ascii.eqb c sep then "" :: split_on sep s'
      else match split_on sep s' with
           | seg :: segs => String c seg :: segs
           | [] => [String c ""]
           end
  end.

(** [dt.id], for a document given by its members. *)
Fixpoint obj_get (members : list (string * json)) (k : string) : option json :=
  match members with
  | [] => None
  | (k', v) :: ms => if decide (k' = k) then Some v else obj_get ms k
  end.

(** [found[ind].split('/').pop().split('.')[0]] *)
Definition id_of_path (path : string) : string :=
  hd "" (split_on "." (List.last (split_on "/" path) "")).

(** [setIdToDocument(found, dt, ind)] for a document [dt] that is an
    object, given by its members; [None] when it throws, which it does
    when [found[ind]] is needed and not there. *)
Definition setIdToDocument (found : list string) (dt : list (string * json))
    (ind : nat) : option (list (string * json)) :=
  let usable :=
    match obj_get dt "id" with
    | Some (JStr s) => negb (String.eqb s "")
    | _ => false
    end in
  if usable then Some dt
  else match found !! ind with
       | Some path => Some (JSON.obj_set dt "id" (JStr (id_of_path path)))
       | None => None
       end.
Example join_plain : Path.join "/data" "a/b/doc.json" = "/data/a/b/doc.json".
Proof. reflexivity. Qed.
Example join_dotdot : Path.join "/data" "../etc/passwd" = "/etc/passwd".
Proof. reflexivity. Qed.
Example join_rel : Path.join "db" "../../x/" = "../x/".
Proof. reflexivity. Qed.
Example join_dot : Path.join "/data/" "." = "/data".
Proof. reflexivity. Qed.
Example dirname_1 : Path.dirname "a/b/doc.json" = "a/b".
Proof. reflexivity. Qed.
Example dirname_2 : Path.dirname "doc.json" = ".".
Proof. reflexivity. Qed.
Example dirname_3 : Path.dirname "a//b/" = "a/".
Proof. reflexivity. Qed.
Example dirname_4 : Path.dirname "//a" = "//".
Proof. reflexivity. Qed.
Example dirname_5 : Path.dirname "/a" = "/".
Proof. reflexivity. Qed.
Example dirname_6 : Path.dirname "." = ".".
Proof. reflexivity. Qed.

(** The scenario of the specification: [writep] creates the directories
    and the document, [list] shows it, [rmrdir] removes the tree. *)
Example scenario :
  match writep 3 store "a/b/doc.json" (Some (JObj [("x", JNum 1)])) fresh with
  | Some (created, w1) =>
      let '(listed, w2) := list_ store "a/b" w1 in
      match rmrdir 4 store "a" w2 with
      | Some (removed, w3) =>
          (created, Os.lookup (files w1) ["doc.json"; "b"; "a"; "data"],
           listed, removed, Os.lookup (files w3) ["a"; "data"])
          = (Fulfilled VUndefined, Ok (File (JSON.stringify (JObj [("x", JNum 1)]))),
             Fulfilled ["doc.json"], Fulfilled VUndefined, Err ENOENT)
      | None => False
      end
  | None => False
  end.
Proof. by vm_compute. Qed.

Example stringify_sample :
  JSON.print 0 (JObj [("x", JNum 1); ("tags", JArr [JBool true; JNull])])
  = chars "{" ++ JSON.newline :: chars "  " ++ JSON.quote "x" ++ chars ": 1,"
      ++ JSON.newline :: chars "  " ++ JSON.quote "tags" ++ chars ": ["
      ++ JSON.newline :: chars "    true,"
      ++ JSON.newline :: chars "    null"
      ++ JSON.newline :: chars "  ]"
      ++ JSON.newline :: chars "}".
Proof. reflexivity. Qed.

Example parse_samples :
  JSON.parse " [1, 2.50e+3, -0] " = Some (JArr [JNum 1; JReal "2.50e+3"; JNum 0])
  ∧ JSON.parse "01" = None
  ∧ JSON.parse "{}x" = None
  ∧ JSON.parse "hello" = None.
Proof. by vm_compute. Qed.

(** * Properties *)

(** ** Text *)

Lemma append_cons (c : ascii) (a b : string) :
  String c a +:+ b = String c (a +:+ b).
Proof. reflexivity. Qed.

Lemma append_nil (b : string) : "" +:+ b = b.
Proof. reflexivity. Qed.

Lemma chars_app (a b : string) : chars (a +:+ b) = chars a ++ chars b.
Proof. induction a as [|c a' IH]; rewrite ?append_cons, ?append_nil; simpl; rewrite ?append_cons; congruence. Qed.

Lemma text_app (a b : list ascii) : text (a ++ b) = text a +:+ text b.
Proof. induction a as [|c a' IH]; rewrite ?append_cons, ?append_nil; simpl; rewrite ?append_cons; congruence. Qed.

Lemma text_chars (s : string) : text (chars s) = s.
Proof. apply string_of_list_ascii_of_string. Qed.

Lemma chars_text (l : list ascii) : chars (text l) = l.
Proof. apply list_ascii_of_string_of_list_ascii. Qed.

Lemma string_app_nil_r (s : string) : s +:+ "" = s.
Proof. induction s as [|c s' IH]; rewrite ?append_cons, ?append_nil; simpl; rewrite ?append_cons; congruence. Qed.

Lemma string_app_assoc (a b c : string) : (a +:+ b) +:+ c = a +:+ (b +:+ c).
Proof. induction a as [|x a' IH]; rewrite ?append_cons, ?append_nil; simpl; rewrite ?append_cons; congruence. Qed.

Lemma string_app_length (a b : string) :
  String.length (a +:+ b) = String.length a + String.length b.
Proof. induction a as [|x a' IH]; rewrite ?append_cons, ?append_nil; simpl; rewrite ?append_cons; congruence. Qed.

Lemma text_length (l : list ascii) : String.length (text l) = length l.
Proof. induction l as [|c l' IH]; rewrite ?append_cons, ?append_nil; simpl; rewrite ?append_cons; congruence. Qed.

Lemma drop_while_split {A} (f : A → bool) (l : list A) :
  ∃ pre, l = pre ++ drop_while f l ∧ Forall (λ x, f x = true) pre.
Proof.
  induction l as [|x l (pre & Hl & Hpre)]; simpl.
  - by exists [].
  - destruct (f x) eqn:Hx.
    + exists (x :: pre). split; [by rewrite Hl at 1 | by constructor].
    + by exists [].
Qed.

Lemma drop_while_head {A} (f : A → bool) (l : list A) x r :
  drop_while f l = x :: r → f x = false.
Proof.
  induction l as [|y l IH]; simpl; [done|].
  destruct (f y) eqn:Hy; [done|]. by intros [= <- _].
Qed.

(** ** Paths *)

Lemma split_nonempty (s : string) : ∃ seg segs, Path.split s = seg :: segs.
Proof.
  induction s as [|c s (seg & segs & IH)]; simpl; [by eauto|].
  destruct (is_slash c); [by eauto|]. rewrite IH. by eauto.
Qed.

Lemma split_slash_free (s : string) : Forall slash_free (Path.split s).
Proof.
  induction s as [|c s IH]; simpl.
  - repeat constructor.
  - destruct (is_slash c) eqn:Hc.
    + constructor; [constructor | done].
    + destruct (Path.split s) as [|seg segs]; [repeat constructor; done|].
      inversion IH; subst. constructor; [by constructor | done].
Qed.

Lemma split_app (a b : string) :
  Path.split (a +:+ String "/" b) = Path.split a ++ Path.split b.
Proof.
  induction a as [|c a IH]; rewrite ?append_cons, ?append_nil; simpl; [done|].
  destruct (is_slash c); [by rewrite IH|].
  rewrite IH. by destruct (split_nonempty a) as (seg & segs & ->).
Qed.

Lemma split_of_slash_free (s : string) : slash_free s → Path.split s = [s].
Proof.
  induction s as [|c s IH]; [done|]. intros H. inversion H as [|?? Hc Hs]; subst.
  simpl. rewrite Hc, IH; done.
Qed.

Lemma split_concat (segs : list string) :
  segs ≠ [] → Forall slash_free segs → Path.split (String.concat "/" segs) = segs.
Proof.
  induction segs as [|seg segs IH]; [done|]. intros _ H.
  inversion H as [|?? Hseg Hsegs]; subst.
  destruct segs as [|seg' segs].
  - by apply split_of_slash_free.
  - change (String.concat "/" (seg :: seg' :: segs))
      with (seg +:+ String "/" (String.concat "/" (seg' :: segs))).
    rewrite split_app, split_of_slash_free by done.
    simpl. f_equal. by apply IH.
Qed.


Lemma fold_step_empties (n : nat) (l : loc) :
  fold_left Os.step (repeat "" n) l = l.
Proof. induction n; simpl; done. Qed.


Lemma step_skip (l : loc) (seg : string) : seg = "" ∨ seg = "." → Os.step l seg = l.
Proof. intros H. unfold Os.step. by rewrite decide_True. Qed.

Lemma step_up (l : loc) : Os.step l ".." = tail l.
Proof. done. Qed.

Lemma step_push (l : loc) (seg : string) : proper seg → Os.step l seg = seg :: l.
Proof.
  intros (H1 & H2 & H3). unfold Os.step.
  rewrite decide_False by (intros [|]; done). by rewrite decide_False.
Qed.

Lemma norm_step_shape allow st seg : shape st → shape (Path.norm_step allow st seg).
Proof.
  intros Hst. unfold Path.norm_step.
  destruct (decide (seg = "" ∨ seg = ".")) as [|Hne]; [done|].
  destruct (decide (seg = "..")) as [->|Hup].
  - destruct st as [|last st']; [by destruct allow|].
    destruct Hst as (H1 & H2 & H3 & H4).
    destruct (decide (last = "..")) as [->|]; [|done].
    destruct allow; [|done]. simpl. repeat split; try done.
    intros _. constructor; [done | by apply H3].
  - simpl. repeat split; try done; intros ?; apply Hne; auto.
Qed.

Lemma norm_step_no_up st seg :
  ".." ∉ st → ".." ∉ Path.norm_step false st seg.
Proof.
  intros Hst. unfold Path.norm_step.
  destruct (decide (seg = "" ∨ seg = ".")); [done|].
  destruct (decide (seg = "..")) as [->|Hup].
  - destruct st as [|last st']; [done|].
    destruct (decide (last = "..")); [done|].
    intros ?. apply Hst. by right.
  - intros [Heq|?]%elem_of_cons; [by apply Hup | by apply Hst].
Qed.

Lemma norm_step_slash_free allow st seg :
  slash_free seg → Forall slash_free st → Forall slash_free (Path.norm_step allow st seg).
Proof.
  intros Hseg Hst. unfold Path.norm_step.
  destruct (decide (seg = "" ∨ seg = ".")); [done|].
  destruct (decide (seg = "..")) as [->|Hup]; [|by constructor].
  destruct st as [|last st'].
  - destruct allow; [by constructor | done].
  - destruct (decide (last = "..")).
    + destruct allow; [by constructor | done].
    + by inversion Hst.
Qed.

Lemma norm_step_sound allow st seg base :
  shape st → (allow = false → base = [] ∧ ".." ∉ st) →
  fold_left Os.step (rev (Path.norm_step allow st seg)) base
  = Os.step (fold_left Os.step (rev st) base) seg.
Proof.
  intros Hst Hroot. unfold Path.norm_step.
  destruct (decide (seg = "" ∨ seg = ".")) as [Hskip|Hne].
  { by rewrite step_skip. }
  destruct (decide (seg = "..")) as [->|Hup].
  - destruct st as [|last st'].
    + destruct allow; [done|]. destruct Hroot as [-> _]; done.
    + destruct Hst as (H1 & H2 & H3 & H4).
      destruct (decide (last = "..")) as [->|Hlast].
      * destruct allow.
        -- simpl. by rewrite !fold_left_app.
        -- destruct Hroot as [_ []]; [done | by left].
      * simpl. rewrite fold_left_app. simpl.
        by rewrite (step_push _ last).
  - simpl. by rewrite fold_left_app.
Qed.

Lemma norm_fold_sound allow segs : ∀ st base,
  shape st → (allow = false → base = [] ∧ ".." ∉ st) →
  fold_left Os.step (rev (fold_left (Path.norm_step allow) segs st)) base
  = fold_left Os.step segs (fold_left Os.step (rev st) base).
Proof.
  induction segs as [|seg segs IH]; intros st base Hst Hroot; simpl; [done|].
  rewrite IH.
  - by rewrite norm_step_sound.
  - by apply norm_step_shape.
  - intros ->. destruct (Hroot eq_refl) as [-> ?]. split; [done|].
    by apply norm_step_no_up.
Qed.

Lemma norm_fold_slash_free allow segs : ∀ st,
  Forall slash_free segs → Forall slash_free st →
  Forall slash_free (fold_left (Path.norm_step allow) segs st).
Proof.
  induction segs as [|seg segs IH]; intros st Hsegs Hst; simpl; [done|].
  inversion Hsegs; subst. apply IH; [done|]. by apply norm_step_slash_free.
Qed.

Lemma norm_fold_shape allow segs : ∀ st,
  shape st → shape (fold_left (Path.norm_step allow) segs st).
Proof.
  induction segs as [|seg segs IH]; intros st Hst; simpl; [done|].
  apply IH. by apply norm_step_shape.
Qed.


Lemma shape_nonempty st : shape st → Forall (λ s, s ≠ "") st.
Proof.
  induction st as [|s st IH]; [done|]. intros (H1 & _ & _ & H4).
  constructor; [done | by apply IH].
Qed.

Lemma concat_cons_first (c : ascii) (s : string) (segs : list string) :
  ∃ rest, String.concat "/" (String c s :: segs) = String c rest.
Proof. destruct segs; simpl; eauto. Qed.

Lemma is_absolute_relative_body (segs : list string) (suffix : string) :
  segs ≠ [] → Forall slash_free segs → Forall (λ s, s ≠ "") segs →
  Path.isAbsolute (String.concat "/" segs +:+ suffix) = false.
Proof.
  destruct segs as [|[|c s] segs]; [done | |]; intros _ Hfree Hne.
  - by inversion Hne.
  - destruct (concat_cons_first c s segs) as [rest ->].
    inversion Hfree as [|?? Hc _]; subst. by inversion Hc.
Qed.

Lemma resolve_absolute (wd : loc) (s : string) :
  Os.resolve wd (String "/" s) = fold_left Os.step (Path.split s) [].
Proof. done. Qed.

Lemma fold_step_split_trailing (s : string) (l : loc) :
  fold_left Os.step (Path.split (s +:+ "/")) l = fold_left Os.step (Path.split s) l.
Proof. rewrite split_app, fold_left_app. done. Qed.

(** What [normalize] returns names the same location as its argument. *)
Lemma resolve_normalize (wd : loc) (x : string) :
  x ≠ "" → Os.resolve wd (Path.normalize x) = Os.resolve wd x.
Proof.
  intros Hx. unfold Path.normalize, Path.normalizeString.
  rewrite decide_False by done.
  set (abs := Path.isAbsolute x).
  set (st := fold_left (Path.norm_step (negb abs)) (Path.split x) []).
  set (base := if abs then [] else wd).
  assert (Hshape : shape st) by (by apply norm_fold_shape).
  assert (Hfree : Forall slash_free st).
  { apply norm_fold_slash_free; [apply split_slash_free | done]. }
  assert (Hsound : fold_left Os.step (rev st) base = Os.resolve wd x).
  { unfold st. rewrite norm_fold_sound; [done | done |].
    unfold base. destruct abs; simpl; [|done].
    intros _. split; [done | apply not_elem_of_nil]. }
  apply shape_nonempty in Hshape.
  assert (Forall slash_free (rev st)) as Hfree' by (by apply List.Forall_rev).
  assert (Forall (λ s, s ≠ "") (rev st)) as Hne' by (by apply List.Forall_rev).
  destruct (decide (String.concat "/" (rev st) = "")) as [Hbody|Hbody].
  - assert (st = []) as Hnil.
    { destruct (rev st) as [|s segs] eqn:Hrev.
      - by apply (f_equal (@rev string)) in Hrev; rewrite rev_involutive in Hrev.
      - inversion Hne'; subst. destruct s as [|c s]; [done|].
        destruct (concat_cons_first c s segs) as [rest Hr]. congruence. }
    rewrite Hnil in Hsound. simpl in Hsound. rewrite <- Hsound. unfold base.
    destruct abs; [done|]. by destruct (Path.trailingSeparator x).
  - assert (rev st ≠ []) as Hne by (by intros Hnil; rewrite Hnil in Hbody).
    rewrite <- Hsound. unfold base.
    destruct abs, (Path.trailingSeparator x).
    + rewrite append_cons, append_nil, resolve_absolute, fold_step_split_trailing.
      by rewrite split_concat.
    + rewrite append_cons, append_nil, resolve_absolute. by rewrite split_concat.
    + unfold Os.resolve. rewrite is_absolute_relative_body by done.
      rewrite fold_step_split_trailing. by rewrite split_concat.
    + unfold Os.resolve.
      rewrite <- (string_app_nil_r (String.concat "/" (rev st))) at 2.
      rewrite is_absolute_relative_body by done. by rewrite split_concat.
Qed.

Lemma is_absolute_app (a b : string) :
  a ≠ "" → Path.isAbsolute (a +:+ b) = Path.isAbsolute a.
Proof. by destruct a. Qed.

Lemma join_unfold (root p : string) :
  root ≠ "" →
  Path.join root p
  = Path.normalize (if decide (p = "") then root else root +:+ String "/" p).
Proof.
  intros Hroot. unfold Path.join. rewrite filter_cons_True by done.
  destruct (decide (p = "")) as [->|Hp].
  - rewrite filter_cons_False by (by intros []). done.
  - rewrite filter_cons_True by done. done.
Qed.

(** The location [join(root, p)] names: walk the segments of [p] from the
    location of the root. *)
Lemma resolve_join (wd : loc) (root p : string) :
  root ≠ "" →
  Os.resolve wd (Path.join root p)
  = fold_left Os.step (Path.split p) (Os.resolve wd root).
Proof.
  intros Hroot. rewrite join_unfold by done.
  destruct (decide (p = "")) as [->|Hp].
  - by rewrite resolve_normalize.
  - rewrite resolve_normalize by (by destruct root).
    unfold Os.resolve. rewrite is_absolute_app, split_app, fold_left_app; done.
Qed.


Lemma is_slash_eq (c : ascii) : is_slash c = true → c = "/"%char.
Proof. unfold is_slash. by intros ?%Ascii.eqb_eq. Qed.

Lemma split_slashes (t : list ascii) :
  Forall (λ c, is_slash c = true) t →
  Path.split (text t) = "" :: repeat "" (length t).
Proof.
  induction t as [|c t IH]; [done|]. intros H. inversion H as [|?? Hc Ht]; subst.
  simpl. rewrite Hc, IH; done.
Qed.

(** A run without separators followed by separators only: one segment. *)
Lemma split_run (w t : list ascii) :
  Forall (λ c, is_slash c = false) w → Forall (λ c, is_slash c = true) t →
  Path.split (text (w ++ t)) = text w :: repeat "" (length t).
Proof.
  intros Hw Ht. induction w as [|c w IH]; simpl.
  - by apply split_slashes.
  - inversion Hw as [|?? Hc Hw']; subst. rewrite Hc, IH; done.
Qed.

Lemma fold_step_run (w t : list ascii) (l : loc) :
  Forall (λ c, is_slash c = false) w → Forall (λ c, is_slash c = true) t →
  fold_left Os.step (Path.split (text (w ++ t))) l = Os.step l (text w).
Proof.
  intros Hw Ht. rewrite split_run by done. simpl. apply fold_step_empties.
Qed.

Lemma slash_free_text (w : list ascii) :
  Forall (λ c, is_slash c = false) w → slash_free (text w).
Proof. intros H. unfold slash_free. by rewrite chars_text. Qed.

(** [dirname] drops the last segment.  The segments of a path are those
    kept by [dirname] (as far as walking goes), then the last segment, then
    empty ones; unless nothing is left to drop, the result is shorter. *)
Lemma dirname_split (d : string) :
  ∃ pre seg n,
    Path.split d = pre ++ seg :: repeat "" n
    ∧ slash_free seg
    ∧ (∀ l, fold_left Os.step (Path.split (Path.dirname d)) l = fold_left Os.step pre l)
    ∧ (∀ s, s ∈ Path.split (Path.dirname d) → s ∈ pre ∨ s = "" ∨ s = ".")
    ∧ (String.length (Path.dirname d) < String.length d
       ∨ ∀ l, fold_left Os.step pre l = l).
Proof.
  destruct d as [|c0 body].
  { exists [], "", 0. split_and!; [done | constructor | done | | by right].
    intros s Hs. apply list_elem_of_singleton in Hs. auto. }
  unfold Path.dirname.
  destruct (drop_while_split is_slash (rev (chars body))) as (tr & Hrb & Htr).
  set (r1 := drop_while is_slash (rev (chars body))) in *.
  destruct (drop_while_split (λ c, negb (is_slash c)) r1) as (sg & Hr1 & Hsg).
  set (r2 := drop_while (λ c, negb (is_slash c)) r1) in *.
  assert (Hsg' : Forall (λ c, is_slash c = false) (rev sg)).
  { apply List.Forall_rev. eapply Forall_impl; [exact Hsg|].
    intros c Hc. simpl in Hc. by destruct (is_slash c). }
  assert (Htr' : Forall (λ c, is_slash c = true) (rev tr)) by (by apply List.Forall_rev).
  assert (Hbody : body = text (rev r2 ++ rev sg ++ rev tr)).
  { rewrite <- (text_chars body), <- (rev_involutive (chars body)), Hrb, Hr1.
    by rewrite !rev_app_distr, app_assoc. }
  destruct r2 as [|x r3] eqn:Hr2.
  - (* no separator before the last segment *)
    simpl in Hbody.
    destruct (is_slash c0) eqn:Hc0.
    + exists [""], (text (rev sg)), (length (rev tr)).
      split_and!; [| by apply slash_free_text | done | | by right].
      * simpl. rewrite Hc0. by rewrite Hbody, split_run.
      * intros s Hs. apply list_elem_of_In in Hs. simpl in Hs. intuition (subst; auto).
    + exists [], (String c0 (text (rev sg))), (length (rev tr)).
      split_and!; [| | done | | by right].
      * rewrite Hbody.
        change (String c0 (text (rev sg ++ rev tr)))
          with (text ((c0 :: rev sg) ++ rev tr)).
        by rewrite split_run by first [done | by constructor].
      * apply (slash_free_text (c0 :: rev sg)). by constructor.
      * intros s Hs. apply list_elem_of_In in Hs. simpl in Hs. intuition (subst; auto).
  - assert (is_slash x = true) as Hx.
    { apply drop_while_head in Hr2. by destruct (is_slash x). }
    apply is_slash_eq in Hx. subst x.
    assert (sg ≠ []) as Hsgne.
    { intros ->. simpl in Hr1. unfold r1 in Hr1.
      by apply drop_while_head in Hr1. }
    assert (Hd : String c0 body
                 = String c0 (text (rev r3)) +:+ String "/" (text (rev sg ++ rev tr))).
    { rewrite Hbody. simpl. rewrite <- app_assoc, text_app. done. }
    assert (Hlen : length (rev sg) ≠ 0).
    { rewrite length_rev. by destruct sg. }
    exists (Path.split (String c0 (text (rev r3)))), (text (rev sg)), (length (rev tr)).
    split; [by rewrite Hd, split_app, split_run|].
    split; [by apply slash_free_text|].
    destruct r3 as [|y r3].
    + destruct (is_slash c0) eqn:Hc0.
      * apply is_slash_eq in Hc0. subst c0. split_and!; [done | |].
        -- intros s Hs. apply list_elem_of_In in Hs. simpl in Hs. intuition (subst; auto).
        -- left. rewrite Hbody. simpl.
           rewrite text_length, length_app. lia.
      * split_and!; [done | by left |].
        left. rewrite Hbody. simpl. lia.
    + split_and!; [done | by left |].
      left. rewrite Hd, string_app_length. simpl. lia.
Qed.

Lemma dirname_spec (d : string) :
  ∃ seg, slash_free seg
    ∧ (∀ l, fold_left Os.step (Path.split d) l
            = Os.step (fold_left Os.step (Path.split (Path.dirname d)) l) seg)
    ∧ (String.length (Path.dirname d) < String.length d
       ∨ ∀ l, fold_left Os.step (Path.split (Path.dirname d)) l = l)
    ∧ (no_up d → seg ≠ ".." ∧ no_up (Path.dirname d)).
Proof.
  destruct (dirname_split d) as (pre & seg & n & Hd & Hfree & Hfold & Hin & Hlen).
  exists seg. split_and!; [done | | |].
  - intros l. rewrite Hd, fold_left_app, Hfold. simpl. apply fold_step_empties.
  - destruct Hlen as [|Hfix]; [by left|]. right. intros l. by rewrite Hfold.
  - unfold no_up. rewrite Hd. intros Hup. split.
    + intros ->. apply Hup, elem_of_app. right. by left.
    + intros [Hs|[|]]%Hin; [|done..]. apply Hup, elem_of_app. by left.
Qed.


(** ** Paths of the form [dir/name] *)

Lemma drop_while_run {A} (f : A → bool) (pre : list A) (y : A) (rest : list A) :
  Forall (λ x, f x = true) pre → f y = false →
  drop_while f (pre ++ y :: rest) = y :: rest.
Proof.
  intros Hpre Hy. induction Hpre as [|x pre Hx _ IH]; simpl.
  - by rewrite Hy.
  - by rewrite Hx.
Qed.

Lemma dirname_file (dir name : string) :
  dir ≠ "" → name ≠ "" → slash_free name →
  Path.dirname (dir +:+ String "/" name) = if decide (dir = "/") then "//" else dir.
Proof.
  intros Hdir Hname Hfree. destruct dir as [|c0 dbody]; [done|].
  rewrite append_cons. unfold Path.dirname.
  rewrite chars_app. simpl. rewrite rev_app_distr. simpl. rewrite <- app_assoc. simpl.
  assert (Forall (λ c, is_slash c = false) (rev (chars name))) as Hrev.
  { by apply List.Forall_rev. }
  destruct (rev (chars name)) as [|x xs] eqn:Hx.
  { apply (f_equal (@rev ascii)) in Hx. rewrite rev_involutive in Hx. simpl in Hx.
    destruct name; done. }
  inversion Hrev as [|?? Hx1 Hxs]; subst. simpl. rewrite Hx1.
  change (x :: xs ++ "/"%char :: rev (chars dbody))
    with ((x :: xs) ++ "/"%char :: rev (chars dbody)).
  rewrite (drop_while_run (λ c, negb (is_slash c))); [| |done].
  2: { eapply Forall_impl; [exact Hrev|]. intros c Hc. simpl. by rewrite Hc. }
  destruct (rev (chars dbody)) as [|y ys] eqn:Hy.
  - apply (f_equal (@rev ascii)) in Hy. rewrite rev_involutive in Hy. simpl in Hy.
    assert (dbody = "") as -> by (by destruct dbody).
    destruct (is_slash c0) eqn:Hc0.
    + apply is_slash_eq in Hc0. by subst.
    + rewrite decide_False; [done|]. intros [= ->]. done.
  - rewrite <- Hy, rev_involutive, text_chars.
    rewrite decide_False; [done|]. intros [= -> ->]. done.
Qed.

Lemma trailing_app (a b : string) :
  b ≠ "" → Path.trailingSeparator (a +:+ b) = Path.trailingSeparator b.
Proof.
  intros Hb. induction a as [|c a IH]; [done|].
  rewrite append_cons. simpl. rewrite IH.
  destruct (a +:+ b) eqn:Hab; [|done]. by destruct a, b.
Qed.

Lemma trailing_slash_free (s : string) :
  slash_free s → Path.trailingSeparator s = false.
Proof.
  induction s as [|c s IH]; [done|]. intros H. inversion H as [|?? Hc Hs]; subst.
  simpl. destruct s; [done|]. by apply IH.
Qed.

Lemma concat_snoc (xs : list string) (y : string) :
  xs ≠ [] → String.concat "/" (xs ++ [y]) = String.concat "/" xs +:+ String "/" y.
Proof.
  induction xs as [|x xs IH]; [done|]. intros _.
  destruct xs as [|x' xs]; [done|].
  change (String.concat "/" ((x :: x' :: xs) ++ [y]))
    with (x +:+ String "/" (String.concat "/" ((x' :: xs) ++ [y]))).
  rewrite IH by done.
  change (String.concat "/" (x :: x' :: xs))
    with (x +:+ String "/" (String.concat "/" (x' :: xs))).
  by rewrite string_app_assoc.
Qed.

Lemma trailing_concat_snoc (xs : list string) (y : string) :
  y ≠ "" → slash_free y → Path.trailingSeparator (String.concat "/" (xs ++ [y])) = false.
Proof.
  intros Hy Hfree. destruct xs as [|x xs].
  - by apply trailing_slash_free.
  - rewrite concat_snoc by done.
    rewrite trailing_app by done. simpl. destruct y; [done|].
    by apply trailing_slash_free.
Qed.

Lemma norm_step_proper allow st seg :
  proper seg → Path.norm_step allow st seg = seg :: st.
Proof.
  intros (H1 & H2 & H3). unfold Path.norm_step.
  rewrite decide_False by (intros [|]; done). by rewrite decide_False.
Qed.

(** The full path of [dir/name] does not end in a separator. *)
Lemma trailing_join_file (root dir name : string) :
  root ≠ "" → proper name → slash_free name →
  Path.trailingSeparator (Path.join root (dir +:+ String "/" name)) = false.
Proof.
  intros Hroot Hname Hfree. rewrite join_unfold by done.
  rewrite decide_False by (by destruct dir).
  set (x := root +:+ String "/" (dir +:+ String "/" name)).
  assert (x = (root +:+ String "/" dir) +:+ String "/" name) as Hx.
  { unfold x. by rewrite string_app_assoc. }
  assert (Path.trailingSeparator x = false) as Htr.
  { rewrite Hx, trailing_app by done. simpl. destruct name; [by destruct Hname|].
    by apply trailing_slash_free. }
  unfold Path.normalize, Path.normalizeString.
  rewrite decide_False by (unfold x; by destruct root).
  rewrite Htr.
  assert (∃ st, fold_left (Path.norm_step (negb (Path.isAbsolute x))) (Path.split x) []
                = name :: st) as [st ->].
  { rewrite Hx, split_app, fold_left_app, split_of_slash_free by done. simpl.
    rewrite norm_step_proper by done. eauto. }
  simpl. assert (name ≠ "") as Hne by (by destruct Hname).
  pose proof (trailing_concat_snoc (rev st) name Hne Hfree) as Hc.
  assert (String.concat "/" (rev st ++ [name]) ≠ "") as Hbody.
  { destruct (rev st) as [|s l]; [done|].
    rewrite concat_snoc by done. by destruct (String.concat "/" (s :: l)). }
  rewrite decide_False by done.
  destruct (Path.isAbsolute x); [|done].
  by rewrite trailing_app.
Qed.


(** ** Walking the tree *)

Lemma lookup_errors fs l e : Os.lookup fs l = Err e → e = ENOENT ∨ e = ENOTDIR.
Proof.
  revert e. induction l as [|c p IH]; intros e; simpl.
  - destruct (fs !! []); [done|]. intros [= <-]. by left.
  - destruct (Os.lookup fs p) as [[]|e'] eqn:Hp.
    + intros [= <-]. by right.
    + destruct (fs !! (c :: p)); [done|]. intros [= <-]. by left.
    + intros [= <-]. by apply IH.
Qed.

Lemma lookup_parent fs c p n : Os.lookup fs (c :: p) = Ok n → Os.lookup fs p = Ok Dir.
Proof. simpl. by destruct (Os.lookup fs p) as [[]|]. Qed.

Lemma lookup_tail fs l n : Os.lookup fs l = Ok n → Os.lookup fs (tail l) = Ok Dir ∨ l = [].
Proof. destruct l; [by right|]. left. by eapply lookup_parent. Qed.

Lemma lookup_entry fs l n : Os.lookup fs l = Ok n → fs !! l = Some n.
Proof.
  destruct l as [|c p]; simpl.
  - by destruct (fs !! []); intros [= ->].
  - destruct (Os.lookup fs p) as [[]|]; [done | | done].
    by destruct (fs !! (c :: p)); intros [= ->].
Qed.

Lemma lookup_below fs c p :
  Os.lookup fs p = Ok Dir →
  Os.lookup fs (c :: p)
  = match fs !! (c :: p) with Some n => Ok n | None => Err ENOENT end.
Proof. simpl. by intros ->. Qed.

(** Results other than "no such entry" survive when entries are added. *)
Lemma lookup_stable fs fs' l r :
  fs ⊆ fs' → Os.lookup fs l = r → r ≠ Err ENOENT → Os.lookup fs' l = r.
Proof.
  intros Hsub. revert r. induction l as [|c p IH]; intros r; simpl.
  - destruct (fs !! []) as [n|] eqn:Hn; [|by intros <-].
    by rewrite (lookup_weaken _ _ _ _ Hn Hsub).
  - destruct (Os.lookup fs p) as [[]|e] eqn:Hp.
    + rewrite (IH _ eq_refl) by done. done.
    + rewrite (IH _ eq_refl) by done.
      destruct (fs !! (c :: p)) as [n|] eqn:Hn; [|by intros <-].
      by rewrite (lookup_weaken _ _ _ _ Hn Hsub).
    + intros <- He. by rewrite (IH _ eq_refl).
Qed.

Lemma lookup_insert_shorter fs l n k :
  length k < length l → Os.lookup (<[l := n]> fs) k = Os.lookup fs k.
Proof.
  induction k as [|c p IH]; intros Hlen; simpl.
  - rewrite lookup_insert_ne; [done|]. intros ->. simpl in Hlen. lia.
  - simpl in Hlen. rewrite IH by lia.
    rewrite lookup_insert_ne; [done|]. intros ->. simpl in Hlen. lia.
Qed.

Lemma lookup_insert_at fs l n :
  l = [] ∨ Os.lookup fs (tail l) = Ok Dir → Os.lookup (<[l := n]> fs) l = Ok n.
Proof.
  destruct l as [|c p]; simpl.
  - intros _. by rewrite lookup_insert_eq.
  - intros [|Hp]; [done|].
    rewrite lookup_insert_shorter by (simpl; lia).
    by rewrite Hp, lookup_insert_eq.
Qed.

(** In a well-formed tree an entry is found by walking to it. *)
Lemma tree_lookup fs l n : tree_ok fs → fs !! l = Some n → Os.lookup fs l = Ok n.
Proof.
  intros Hok. revert n. induction l as [|c p IH]; intros n Hn; simpl.
  - by rewrite Hn.
  - rewrite (IH Dir) by (by eapply Hok). by rewrite Hn.
Qed.

Lemma tree_ok_insert fs l n :
  tree_ok fs → l = [] ∨ fs !! tail l = Some Dir →
  (∀ c, fs !! (c :: l) = None ∨ n = Dir) →
  tree_ok (<[l := n]> fs).
Proof.
  intros Hok Hparent Hleaf name parent m.
  destruct (decide (name :: parent = l)) as [<-|Hne].
  - intros _. destruct Hparent as [|Hp]; [done|]. simpl in Hp.
    rewrite lookup_insert_ne; [done|]. intros Heq.
    apply (f_equal length) in Heq. simpl in Heq. lia.
  - rewrite lookup_insert_ne by done. intros Hm.
    destruct (decide (parent = l)) as [->|Hne'].
    + rewrite lookup_insert_eq. destruct (Hleaf name) as [Hnone| ->]; [congruence | done].
    + rewrite lookup_insert_ne by done. by eapply Hok.
Qed.

(** ** The calls of [FileServer] in terms of the tree *)

Section calls.
Context (this : FileServer).

Lemma site_step (w : world) (path : string) :
  site this w path = fold_left Os.step (Path.split path) (root_site this w).
Proof. unfold site, root_site, Os.target. apply resolve_join, dirpath_given. Qed.

Lemma mkdir_exists w d n :
  Os.lookup (files w) (site this w d) = Ok n →
  mkdir this d w = (Rejected EEXIST, log (Call SMkdir (full this d)) w).
Proof. unfold mkdir, Os.mkdir, site. by intros ->. Qed.

Lemma mkdir_blocked w d :
  Os.lookup (files w) (site this w d) = Err ENOTDIR →
  mkdir this d w = (Rejected ENOTDIR, log (Call SMkdir (full this d)) w).
Proof. unfold mkdir, Os.mkdir, site. by intros ->. Qed.

Lemma mkdir_creates w d :
  Os.lookup (files w) (site this w d) = Err ENOENT →
  Os.lookup (files w) (tail (site this w d)) = Ok Dir →
  mkdir this d w
  = (Fulfilled tt,
     with_files (<[site this w d := Dir]> (files w)) (log (Call SMkdir (full this d)) w)).
Proof. unfold mkdir, Os.mkdir, site. by intros -> ->. Qed.

Lemma mkdir_missing w d :
  Os.lookup (files w) (site this w d) = Err ENOENT →
  Os.lookup (files w) (tail (site this w d)) ≠ Ok Dir →
  mkdir this d w = (Rejected ENOENT, log (Call SMkdir (full this d)) w).
Proof.
  unfold mkdir, Os.mkdir, site. intros -> Hp.
  by destruct (Os.lookup _ (tail _)) as [[]|].
Qed.

Lemma stat_dir w d :
  Os.lookup (files w) (site this w d) = Ok Dir →
  stat this d w
  = (Fulfilled {| isFile := false; isDirectory := true |}, log (Call SStat (full this d)) w).
Proof. unfold stat, Os.stat, site. by intros ->. Qed.

Lemma stat_file w d c :
  Os.lookup (files w) (site this w d) = Ok (File c) →
  stat this d w
  = (if Path.trailingSeparator (full this d) then Rejected ENOTDIR
     else Fulfilled {| isFile := true; isDirectory := false |},
     log (Call SStat (full this d)) w).
Proof. unfold stat, Os.stat, site. intros ->. by destruct Path.trailingSeparator. Qed.

Lemma stat_error w d e :
  Os.lookup (files w) (site this w d) = Err e →
  stat this d w = (Rejected e, log (Call SStat (full this d)) w).
Proof. unfold stat, Os.stat, site. by intros ->. Qed.

Lemma site_cwd w w' d : cwd w' = cwd w → site this w' d = site this w d.
Proof. unfold site, Os.target. by intros ->. Qed.

Lemma site_log a w d : site this (log a w) d = site this w d.
Proof. done. Qed.

Lemma files_log a w : files (log a w) = files w.
Proof. done. Qed.

Lemma files_with_files fs w : files (with_files fs w) = fs.
Proof. done. Qed.

Lemma mkdir_cases w d :
  let l := site this w d in
  let w' := log (Call SMkdir (full this d)) w in
  (∃ n, Os.lookup (files w) l = Ok n ∧ mkdir this d w = (Rejected EEXIST, w'))
  ∨ (Os.lookup (files w) l = Err ENOTDIR ∧ mkdir this d w = (Rejected ENOTDIR, w'))
  ∨ (Os.lookup (files w) l = Err ENOENT ∧ Os.lookup (files w) (tail l) = Ok Dir
     ∧ mkdir this d w = (Fulfilled tt, with_files (<[l := Dir]> (files w)) w'))
  ∨ (Os.lookup (files w) l = Err ENOENT ∧ Os.lookup (files w) (tail l) ≠ Ok Dir
     ∧ mkdir this d w = (Rejected ENOENT, w')).
Proof.
  intros l w'. destruct (Os.lookup (files w) l) as [n|e] eqn:Hl.
  { left. exists n. split; [done | by eapply mkdir_exists]. }
  right. destruct (lookup_errors _ _ _ Hl) as [-> | ->].
  - right. destruct (Os.lookup (files w) (tail l)) as [[c|]|e] eqn:Hp.
    + right. split_and!; [done | done |]. apply mkdir_missing; [done|]. fold l. by rewrite Hp.
    + left. split_and!; [done | done |]. by apply mkdir_creates.
    + right. split_and!; [done | done |]. apply mkdir_missing; [done|]. fold l. by rewrite Hp.
  - left. split; [done | by apply mkdir_blocked].
Qed.

Lemma stat_cases w d :
  let l := site this w d in
  let w' := log (Call SStat (full this d)) w in
  (Os.lookup (files w) l = Ok Dir
   ∧ stat this d w = (Fulfilled {| isFile := false; isDirectory := true |}, w'))
  ∨ (∃ c, Os.lookup (files w) l = Ok (File c)
     ∧ Path.trailingSeparator (full this d) = false
     ∧ stat this d w = (Fulfilled {| isFile := true; isDirectory := false |}, w'))
  ∨ (∃ e, stat this d w = (Rejected e, w')
     ∧ (Os.lookup (files w) l = Err e
        ∨ e = ENOTDIR ∧ ∃ c, Os.lookup (files w) l = Ok (File c))).
Proof.
  intros l w'. destruct (Os.lookup (files w) l) as [[c|]|e] eqn:Hl.
  - destruct (Path.trailingSeparator (full this d)) eqn:Htr.
    + right. right. exists ENOTDIR. split; [|right; eauto].
      rewrite (stat_file _ _ _ Hl). by rewrite Htr.
    + right. left. exists c. split_and!; [done | done |].
      rewrite (stat_file _ _ _ Hl). by rewrite Htr.
  - left. split; [done | by apply stat_dir].
  - right. right. exists e. split; [by apply stat_error | by left].
Qed.

End calls.


(** ** [mkdirp] *)

Section mkdirp.
Context (this : FileServer).

Lemma mkdirp_unfold fuel d w :
  mkdirp (S fuel) this d w
  = match mkdir this d w with
    | (Fulfilled _, w1) => Some (Fulfilled (VNumber 1), w1)
    | (Rejected er, w1) =>
        match er with
        | ENOENT =>
            match mkdirp fuel this (Path.dirname d) w1 with
            | None => None
            | Some (Rejected ert, w2) => Some (Fulfilled (VError ert), w2)
            | Some (Fulfilled _, w2) => mkdirp fuel this d w2
            end
        | _ =>
            match stat this d w1 with
            | (Fulfilled stt, w2) =>
                Some (Fulfilled (if isDirectory stt then VNumber 1 else VError er), w2)
            | (Rejected er2, w2) => Some (Fulfilled (VError er2), w2)
            end
        end
    end.
Proof. done. Qed.

(** A directory that is there already: the creation fails, the stat
    finds the directory, the call answers 1 and changes nothing. *)
Lemma mkdirp_existing fuel d w :
  Os.lookup (files w) (site this w d) = Ok Dir →
  mkdirp (S fuel) this d w
  = Some (Fulfilled (VNumber 1),
          log (Call SStat (full this d)) (log (Call SMkdir (full this d)) w)).
Proof.
  intros Hl. rewrite mkdirp_unfold, (mkdir_exists _ _ _ _ Hl).
  by rewrite stat_dir.
Qed.

(** What holds whenever a call has settled. *)
Lemma mkdirp_settled fuel : ∀ d w o w',
  mkdirp fuel this d w = Some (o, w') →
  (∃ v, o = Fulfilled v)
  ∧ cwd w' = cwd w
  ∧ files w ⊆ files w'
  ∧ (tree_ok (files w) → tree_ok (files w'))
  ∧ Os.lookup (files w') (site this w d) ≠ Err ENOENT
  ∧ (o = Fulfilled (VNumber 1) → Os.lookup (files w') (site this w d) = Ok Dir).
Proof.
  induction fuel as [|fuel IH]; intros d w o w'; [done|].
  rewrite mkdirp_unfold.
  destruct (mkdir_cases this w d) as
    [(n & Hl & ->) | [(Hl & ->) | [(Hl & Hp & ->) | (Hl & Hp & ->)]]].
  - destruct (stat_cases this (log (Call SMkdir (full this d)) w) d) as
      [(Hs & ->) | [(c & Hs & _ & ->) | (e & -> & Hs)]];
      intros [= <- <-]; simpl in *; split_and!; eauto; try done;
      try (rewrite Hl; done).
  - destruct (stat_cases this (log (Call SMkdir (full this d)) w) d) as
      [(Hs & ->) | [(c & Hs & _ & ->) | (e & -> & Hs)]];
      intros [= <- <-]; simpl in *; split_and!; eauto; try done;
      try (rewrite Hl; done).
  - intros [= <- <-]. simpl.
    assert (site this w d ≠ []) as Hne.
    { intros Heq. rewrite Heq in Hl, Hp. cbn [tail] in Hp. congruence. }
    destruct (site this w d) as [|c p] eqn:Hsite; [done|]. simpl in Hp.
    assert (files w !! (c :: p) = None) as Hnone.
    { rewrite (lookup_below _ _ _ Hp) in Hl. by destruct (files w !! (c :: p)). }
    split_and!; eauto.
    + by apply insert_subseteq.
    + intros Hok. apply tree_ok_insert; [done | | by right].
      right. by apply lookup_entry.
    + rewrite lookup_insert_at; [done | by right].
    + intros _. apply lookup_insert_at. by right.
  - destruct (mkdirp fuel this (Path.dirname d) _) as [[o1 w2]|] eqn:H1; [|done].
    destruct (IH _ _ _ _ H1) as ((v1 & ->) & Hcwd1 & Hsub1 & Hok1 & _).
    intros H2. destruct (IH _ _ _ _ H2) as (Hv & Hcwd2 & Hsub2 & Hok2 & Hq & Hd).
    simpl in *.
    assert (site this w2 d = site this w d) as Hsite.
    { apply site_cwd. by rewrite Hcwd1. }
    rewrite Hsite in *.
    split_and!; eauto.
    + congruence.
    + by etrans.
Qed.

(** More fuel does not change how a call settles. *)
Lemma mkdirp_fuel fuel : ∀ fuel' d w r,
  mkdirp fuel this d w = Some r → (fuel ≤ fuel')%nat → mkdirp fuel' this d w = Some r.
Proof.
  induction fuel as [|fuel IH]; intros fuel' d w r; [done|].
  destruct fuel' as [|fuel']; [lia|]. intros H Hle.
  rewrite mkdirp_unfold in *.
  destruct (mkdir this d w) as [[|[]] w1]; try done.
  destruct (mkdirp fuel this (Path.dirname d) w1) as [[o1 w2]|] eqn:H1; [|done].
  rewrite (IH fuel' _ _ _ H1) by lia.
  destruct o1; [|done]. apply IH; [done | lia].
Qed.

(** One step below, at or above an entry that is not missing, [mkdir]
    does not answer "no such entry". *)
Lemma step_not_missing fs (r : loc) (seg : string) :
  Os.lookup fs r ≠ Err ENOENT →
  ¬ (Os.lookup fs (Os.step r seg) = Err ENOENT
     ∧ Os.lookup fs (tail (Os.step r seg)) ≠ Ok Dir).
Proof.
  intros Hr [Hl Hp]. unfold Os.step in *.
  destruct (decide (seg = "" ∨ seg = ".")); [done|].
  destruct (decide (seg = "..")).
  - destruct r as [|c p]; [done|]. simpl in *.
    rewrite Hl in Hr. done.
  - simpl in *. destruct (Os.lookup fs r) as [[]|e]; congruence.
Qed.

Lemma mkdirp_direct w d :
  ¬ (Os.lookup (files w) (site this w d) = Err ENOENT
     ∧ Os.lookup (files w) (tail (site this w d)) ≠ Ok Dir) →
  ∃ o w', mkdirp 1 this d w = Some (o, w').
Proof.
  intros Hnot. rewrite mkdirp_unfold.
  destruct (mkdir_cases this w d) as
    [(n & Hl & ->) | [(Hl & ->) | [(Hl & Hp & ->) | (Hl & Hp & ->)]]].
  - destruct (stat this d _) as [[] ?]; eauto.
  - destruct (stat this d _) as [[] ?]; eauto.
  - eauto.
  - by destruct Hnot.
Qed.

Lemma site_dirname w d :
  ∃ seg, site this w d = Os.step (site this w (Path.dirname d)) seg
    ∧ (String.length (Path.dirname d) < String.length d
       ∨ site this w (Path.dirname d) = root_site this w)
    ∧ (no_up d → seg ≠ ".." ∧ no_up (Path.dirname d)).
Proof.
  destruct (dirname_spec d) as (seg & _ & Hstep & Hlen & Hup).
  exists seg. rewrite !site_step. split_and!; [done | | done].
  destruct Hlen as [|Hfix]; [by left | by right].
Qed.

(** With the store root in place every call settles. *)
Lemma mkdirp_settles_within (n : nat) : ∀ d w,
  String.length d < n → root_ok this w →
  ∃ fuel o w', mkdirp fuel this d w = Some (o, w').
Proof.
  induction n as [|n IH]; intros d w Hlen Hroot; [lia|].
  destruct (mkdir_cases this w d) as
    [(m & Hl & Hmk) | [(Hl & Hmk) | [(Hl & Hp & Hmk) | (Hl & Hp & Hmk)]]].
  1-3: destruct (mkdirp_direct w d) as (o & w' & H);
         [intros [? ?]; congruence | by exists 1, o, w'].
  set (w1 := log (Call SMkdir (full this d)) w) in *.
  destruct (site_dirname w d) as (seg & Hsite & Hshort & _).
  destruct Hshort as [Hshort|Hfix].
  2: { exfalso. apply (step_not_missing (files w) (root_site this w) seg).
       - unfold root_ok in Hroot. by rewrite Hroot.
       - rewrite <- Hfix, <- Hsite. done. }
  destruct (IH (Path.dirname d) w1) as (fuel1 & o1 & w2 & H1); [lia | done |].
  destruct (mkdirp_settled _ _ _ _ _ H1) as ((v1 & ->) & Hcwd & Hsub & _ & Hq & _).
  assert (site this w2 d = site this w d) as Hsite2 by (by apply site_cwd).
  destruct (mkdirp_direct w2 d) as (o & w' & H2).
  { rewrite Hsite2, Hsite. by apply step_not_missing. }
  exists (S (max fuel1 1)), o, w'.
  rewrite mkdirp_unfold, Hmk. fold w1.
  rewrite (mkdirp_fuel _ _ _ _ _ H1) by lia.
  apply (mkdirp_fuel _ _ _ _ _ H2). lia.
Qed.

Lemma mkdirp_settles d w :
  root_ok this w → ∃ fuel v w', mkdirp fuel this d w = Some (Fulfilled v, w').
Proof.
  intros Hroot.
  destruct (mkdirp_settles_within (S (String.length d)) d w) as (fuel & o & w' & H);
    [lia | done |].
  destruct (mkdirp_settled _ _ _ _ _ H) as ((v & ->) & _). eauto.
Qed.

(** With the store root missing and its parent too, [mkdirp] of ["."]
    calls itself on ["."] without end. *)
Lemma mkdirp_dot_never_settles fuel : ∀ w,
  Os.lookup (files w) (site this w ".") = Err ENOENT →
  Os.lookup (files w) (tail (site this w ".")) ≠ Ok Dir →
  mkdirp fuel this "." w = None.
Proof.
  induction fuel as [|fuel IH]; intros w Hl Hp; [done|].
  rewrite mkdirp_unfold, mkdir_missing by done.
  change (Path.dirname ".") with ".". by rewrite IH.
Qed.

Lemma tree_missing fs l :
  tree_ok fs → Os.lookup fs l = Err ENOENT → fs !! l = None.
Proof.
  intros Hok Hl. destruct (fs !! l) as [n|] eqn:Hn; [|done].
  rewrite (tree_lookup _ _ _ Hok Hn) in Hl. done.
Qed.

(** With the store root in place, in a well-formed tree, for a path
    without parent-traversal segments whose place is free or holds a
    directory: the call answers 1, and the entries it adds are the place
    itself and directories above it. *)
Lemma mkdirp_provisions_within (n : nat) : ∀ d w,
  String.length d < n → no_up d → tree_ok (files w) → root_ok this w →
  Os.lookup (files w) (site this w d) = Ok Dir
    ∨ Os.lookup (files w) (site this w d) = Err ENOENT →
  ∃ fuel w',
    mkdirp fuel this d w = Some (Fulfilled (VNumber 1), w')
    ∧ (∀ k, files w !! k = None → is_Some (files w' !! k) →
            k `suffix_of` site this w d).
Proof.
  induction n as [|n IH]; intros d w Hlen Hup Hok Hroot Hfree; [lia|].
  destruct (mkdir_cases this w d) as
    [(m & Hl & Hmk) | [(Hl & Hmk) | [(Hl & Hp & Hmk) | (Hl & Hp & Hmk)]]].
  - (* already there *)
    destruct Hfree as [Hdir|]; [|congruence].
    exists 1, (log (Call SStat (full this d)) (log (Call SMkdir (full this d)) w)).
    split; [by apply mkdirp_existing|].
    simpl. intros k Hk [x Hx]. congruence.
  - destruct Hfree; congruence.
  - (* the parent is there: one [mkdir] *)
    exists 1. eexists. rewrite mkdirp_unfold, Hmk. split; [done|].
    simpl. intros k Hk [x Hx].
    destruct (decide (k = site this w d)) as [->|Hne]; [done|].
    rewrite lookup_insert_ne in Hx by done. congruence.
  - (* the parent is missing: provision it, then try again *)
    set (w1 := log (Call SMkdir (full this d)) w) in *.
    destruct (site_dirname w d) as (seg & Hsite & Hshort & Hseg).
    destruct (Hseg Hup) as [Hseg' Hup'].
    destruct Hshort as [Hshort|Hfix].
    2: { exfalso. apply (step_not_missing (files w) (root_site this w) seg).
         - unfold root_ok in Hroot. by rewrite Hroot.
         - rewrite <- Hfix, <- Hsite. done. }
    set (r := site this w (Path.dirname d)) in *.
    assert (Os.lookup (files w) r = Err ENOENT) as Hr.
    { rewrite Hsite in Hl, Hp. unfold Os.step in Hl, Hp.
      destruct (decide (seg = "" ∨ seg = ".")); [done|].
      rewrite decide_False in Hl, Hp by done. simpl in Hl, Hp.
      destruct (Os.lookup (files w) r) as [[]|e]; congruence. }
    destruct (IH (Path.dirname d) w1) as (fuel1 & w2 & H1 & Hnew1);
      [lia | done | done | done | by right |].
    destruct (mkdirp_settled _ _ _ _ _ H1) as (_ & Hcwd & Hsub & Hok2 & _ & Hdir).
    specialize (Hok2 Hok). specialize (Hdir eq_refl).
    change (site this w1 (Path.dirname d)) with r in Hdir, Hnew1.
    change (files w1) with (files w) in Hnew1, Hsub.
    assert (site this w2 d = site this w d) as Hsite2 by (by apply site_cwd).
    assert (∃ w',
      mkdirp 1 this d w2 = Some (Fulfilled (VNumber 1), w')
      ∧ (∀ k, files w !! k = None → is_Some (files w' !! k) →
              k `suffix_of` site this w d)) as (w' & H2 & Hnew2).
    { rewrite Hsite. unfold Os.step.
      destruct (decide (seg = "" ∨ seg = ".")) as [|Hskip].
      - eexists. split.
        + apply mkdirp_existing. by rewrite Hsite2, Hsite, step_skip.
        + simpl. done.
      - rewrite decide_False by done.
        assert (files w2 !! (seg :: r) = None) as Hnone.
        { destruct (files w2 !! (seg :: r)) as [x|] eqn:Hx; [|done].
          exfalso. assert (seg :: r `suffix_of` r) as Hsuf.
          { apply Hnew1; [|by eauto]. apply tree_missing; [done|].
            rewrite Hsite in Hl. unfold Os.step in Hl.
            by rewrite !decide_False in Hl by done. }
          apply suffix_length in Hsuf. simpl in Hsuf. lia. }
        assert (site this w2 d = seg :: r) as Hsite3.
        { rewrite Hsite2, Hsite. unfold Os.step. by rewrite !decide_False by done. }
        eexists. rewrite mkdirp_unfold, mkdir_creates.
        + split; [done|]. simpl. rewrite Hsite3. intros k Hk [x Hx].
          destruct (decide (k = seg :: r)) as [->|Hne]; [done|].
          rewrite lookup_insert_ne in Hx by done.
          apply suffix_cons_r, Hnew1; eauto.
        + rewrite Hsite3, (lookup_below _ _ _ Hdir). by rewrite Hnone.
        + by rewrite Hsite3. }
    exists (S (max fuel1 1)), w'. split; [|done].
    rewrite mkdirp_unfold, Hmk. fold w1.
    rewrite (mkdirp_fuel _ _ _ _ _ H1) by lia.
    apply (mkdirp_fuel _ _ _ _ _ H2). lia.
Qed.

End mkdirp.


(** ** [write], [read] and [writep] *)

Section documents.
Context (this : FileServer).

(** The notification first, then the system call, whatever comes of it. *)
Lemma write_trace fpath data w :
  trace (snd (write this fpath data w))
  = trace w ++ [Emit "write" fpath (Some data);
                Call (SWriteFile (document_text fpath data)) (full this fpath)].
Proof.
  unfold write, Os.writeFile, document_text, full. simpl.
  destruct (Os.lookup _ _) as [[]|[]]; simpl;
    repeat (destruct (Path.trailingSeparator _) || destruct (Os.lookup _ _) as [[]|]);
    simpl; by rewrite <- app_assoc.
Qed.

Lemma write_cwd fpath data w : cwd (snd (write this fpath data w)) = cwd w.
Proof.
  unfold write, Os.writeFile. simpl.
  destruct (Os.lookup _ _) as [[]|[]]; simpl;
    repeat (destruct (Path.trailingSeparator _) || destruct (Os.lookup _ _) as [[]|]);
    done.
Qed.

(** A write that succeeds: the path does not end in a separator, the
    place was free in an existing directory or held a file, and it now
    holds the text. *)
Lemma write_fulfilled fpath data w w' :
  write this fpath data w = (Fulfilled tt, w') →
  let l := site this w fpath in
  Path.trailingSeparator (full this fpath) = false
  ∧ files w' = <[l := File (document_text fpath data)]> (files w)
  ∧ (Os.lookup (files w) l = Err ENOENT ∧ Os.lookup (files w) (tail l) = Ok Dir
     ∨ ∃ c, Os.lookup (files w) l = Ok (File c)).
Proof.
  unfold write, Os.writeFile, document_text, full, site, Os.target. simpl.
  destruct (Os.lookup (files w) _) as [[c|]|[]] eqn:Hl; simpl; try done.
  - destruct (Path.trailingSeparator _); [done|]. intros [= <-]. simpl. eauto.
  - destruct (Os.lookup (files w) (tail _)) as [[]|] eqn:Hp; simpl; try done.
    destruct (Path.trailingSeparator _); [done|]. intros [= <-]. simpl. eauto.
Qed.

Lemma write_rejected_missing fpath data w :
  Os.lookup (files w) (tail (site this w fpath)) = Err ENOENT →
  write this fpath data w
  = (Rejected ENOENT,
     log (Call (SWriteFile (document_text fpath data)) (full this fpath))
       (emit "write" fpath (Some data) w)).
Proof.
  intros Hp. unfold write, Os.writeFile, document_text, full. simpl.
  change (Os.target (emit "write" fpath (Some data) w) (Path.join (dirpath this) fpath))
    with (site this w fpath).
  destruct (site this w fpath) as [|c p] eqn:Hsite; simpl in *.
  - by rewrite Hp.
  - by rewrite Hp.
Qed.

Lemma write_rejected_directory fpath data w :
  Os.lookup (files w) (site this w fpath) = Ok Dir →
  write this fpath data w
  = (Rejected EISDIR,
     log (Call (SWriteFile (document_text fpath data)) (full this fpath))
       (emit "write" fpath (Some data) w)).
Proof.
  intros Hl. unfold write, Os.writeFile, document_text, full. simpl.
  change (Os.target (emit "write" fpath (Some data) w) (Path.join (dirpath this) fpath))
    with (site this w fpath).
  by rewrite Hl.
Qed.

Lemma write_creates fpath data w :
  Os.lookup (files w) (site this w fpath) = Err ENOENT →
  Os.lookup (files w) (tail (site this w fpath)) = Ok Dir →
  Path.trailingSeparator (full this fpath) = false →
  write this fpath data w
  = (Fulfilled tt,
     with_files (<[site this w fpath := File (document_text fpath data)]> (files w))
       (log (Call (SWriteFile (document_text fpath data)) (full this fpath))
          (emit "write" fpath (Some data) w))).
Proof.
  intros Hl Hp Htr. unfold write, Os.writeFile, document_text, full in *. simpl.
  change (Os.target (emit "write" fpath (Some data) w) (Path.join (dirpath this) fpath))
    with (site this w fpath).
  by rewrite Hl, Hp, Htr.
Qed.

(** Reading a place that holds a file. *)
Lemma read_file fpath w content :
  Os.lookup (files w) (site this w fpath) = Ok (File content) →
  Path.trailingSeparator (full this fpath) = false →
  read this fpath w
  = (Fulfilled (decoded content),
     emit "read" fpath (Some (decoded content))
       (log (Call SReadFile (full this fpath)) w)).
Proof.
  intros Hl Htr. unfold read, Os.readFile, decoded, full, site in *.
  by rewrite Hl, Htr.
Qed.

(** What was written is what is read back and decoded. *)
Lemma read_after_write fpath data w w' :
  write this fpath data w = (Fulfilled tt, w') →
  fst (read this fpath w') = Fulfilled (decoded (document_text fpath data)).
Proof.
  intros Hw. pose proof (write_cwd fpath data w) as Hcwd. rewrite Hw in Hcwd.
  destruct (write_fulfilled _ _ _ _ Hw) as (Htr & Hfiles & Hwas).
  rewrite (read_file fpath w' (document_text fpath data)); [done | | done].
  rewrite (site_cwd _ _ _ _ Hcwd), Hfiles. apply lookup_insert_at.
  destruct Hwas as [[_ Hp]|[c Hc]]; [by right|].
  apply lookup_tail in Hc. destruct Hc; auto.
Qed.

End documents.


Section provisioning.
Context (this : FileServer).

(** Once a call has settled, a later call on the same path, in a tree
    that has kept every entry, settles at once and changes nothing. *)
Lemma mkdirp_replay fuel d w o w1 w2 :
  mkdirp fuel this d w = Some (o, w1) →
  files w1 ⊆ files w2 → cwd w2 = cwd w1 →
  ∃ v, mkdirp 1 this d w2
       = Some (Fulfilled v,
               log (Call SStat (full this d)) (log (Call SMkdir (full this d)) w2)).
Proof.
  intros H Hsub Hcwd.
  destruct (mkdirp_settled _ _ _ _ _ _ H) as (_ & Hcwd1 & _ & _ & Hq & _).
  assert (site this w2 d = site this w d) as Hsite.
  { apply site_cwd. congruence. }
  assert (Os.lookup (files w2) (site this w2 d) ≠ Err ENOENT) as Hq2.
  { rewrite Hsite. by rewrite (lookup_stable _ _ _ _ Hsub eq_refl Hq). }
  rewrite mkdirp_unfold.
  destruct (mkdir_cases this w2 d) as
    [(n & Hl & ->) | [(Hl & ->) | [(Hl & Hp & ->) | (Hl & Hp & ->)]]];
    try done.
  - destruct (stat_cases this (log (Call SMkdir (full this d)) w2) d) as
      [(Hs & ->) | [(c & Hs & _ & ->) | (e & -> & Hs)]]; eauto.
  - destruct (stat_cases this (log (Call SMkdir (full this d)) w2) d) as
      [(Hs & ->) | [(c & Hs & _ & ->) | (e & -> & Hs)]]; eauto.
Qed.

Lemma step_keeps_root (r l : loc) (seg : string) :
  seg ≠ ".." → r `suffix_of` l → r `suffix_of` Os.step l seg.
Proof.
  intros Hseg Hsuf. unfold Os.step.
  destruct (decide (seg = "" ∨ seg = ".")); [done|].
  rewrite decide_False by done. by apply suffix_cons_r.
Qed.

Lemma fold_step_keeps_root (r : loc) (segs : list string) : ∀ l,
  ".." ∉ segs → r `suffix_of` l → r `suffix_of` fold_left Os.step segs l.
Proof.
  induction segs as [|seg segs IH]; intros l Hup Hsuf; simpl; [done|].
  apply IH.
  - intros ?. apply Hup. by right.
  - apply step_keeps_root; [|done]. intros ->. apply Hup. by left.
Qed.

(** The place of [dir/name] is [name] in the place of [dir]. *)
Lemma site_file w dir name :
  proper name → slash_free name →
  site this w (dir +:+ String "/" name) = name :: site this w dir.
Proof.
  intros Hname Hfree. rewrite !site_step, split_app, fold_left_app.
  rewrite split_of_slash_free by done. simpl. by apply step_push.
Qed.

End provisioning.


Section writep.
Context (this : FileServer).

Lemma site_dirname_file w dir name :
  dir ≠ "" → name ≠ "" → slash_free name →
  site this w (Path.dirname (dir +:+ String "/" name)) = site this w dir.
Proof.
  intros Hdir Hname Hfree. rewrite dirname_file by done.
  destruct (decide (dir = "/")) as [->|]; [|done]. by rewrite !site_step.
Qed.

Lemma no_up_dirname_file dir name :
  dir ≠ "" → name ≠ "" → slash_free name → no_up dir →
  no_up (Path.dirname (dir +:+ String "/" name)).
Proof.
  intros Hdir Hname Hfree Hup. rewrite dirname_file by done.
  destruct (decide (dir = "/")) as [->|]; [|done].
  unfold no_up. simpl. intros H. apply list_elem_of_In in H. simpl in H.
  intuition discriminate.
Qed.

(** The document [dir/name], in a well-formed tree with the store root in
    place, [dir] missing and free of parent-traversal segments: [write]
    is rejected with ENOENT, [writep] provisions [dir] and writes. *)
Theorem writep_provisions_parent dir name data w :
  proper name → slash_free name → dir ≠ "" → no_up dir →
  tree_ok (files w) → root_ok this w →
  Os.lookup (files w) (site this w dir) = Err ENOENT →
  let fpath := dir +:+ String "/" name in
  fst (write this fpath data w) = Rejected ENOENT
  ∧ ∃ fuel w',
      writep fuel this fpath (Some data) w = Some (Fulfilled VUndefined, w')
      ∧ Os.lookup (files w') (site this w dir) = Ok Dir
      ∧ Os.lookup (files w') (site this w fpath) = Ok (File (document_text fpath data)).
Proof.
  intros Hname Hfree Hdir Hup Hok Hroot Hmissing fpath.
  assert (name ≠ "") as Hne by (by destruct Hname).
  assert (site this w fpath = name :: site this w dir) as Hsite.
  { by apply site_file. }
  split.
  { rewrite write_rejected_missing; [done|]. by rewrite Hsite. }
  set (d := Path.dirname fpath).
  assert (site this w d = site this w dir) as Hd by (by apply site_dirname_file).
  destruct (mkdirp_provisions_within this (S (String.length d)) d w)
    as (fuel & w1 & H1 & Hnew); [lia | by apply no_up_dirname_file | done | done | |].
  { right. by rewrite Hd. }
  destruct (mkdirp_settled _ _ _ _ _ _ H1) as (_ & Hcwd & Hsub & _ & _ & Hthere).
  specialize (Hthere eq_refl). rewrite Hd in Hthere, Hnew.
  assert (site this w1 fpath = name :: site this w dir) as Hsite1.
  { by rewrite (site_cwd _ _ _ _ Hcwd). }
  assert (Os.lookup (files w1) (site this w1 fpath) = Err ENOENT) as Hfree1.
  { rewrite Hsite1, (lookup_below _ _ _ Hthere).
    destruct (files w1 !! (name :: site this w dir)) as [n|] eqn:Hn; [|done].
    exfalso. assert (name :: site this w dir `suffix_of` site this w dir) as Hsuf.
    { apply Hnew; [|by eauto]. apply tree_missing; [done|].
      simpl. by rewrite Hmissing. }
    apply suffix_length in Hsuf. simpl in Hsuf. lia. }
  exists fuel. eexists. unfold writep. fold d. rewrite H1. simpl.
  rewrite (stat_error _ _ _ _ Hfree1).
  rewrite write_creates.
  - simpl. split; [done|]. rewrite ?site_log, ?files_log, Hsite1, <- Hsite. split.
    + rewrite files_with_files, lookup_insert_shorter; [done|].
      rewrite Hsite. simpl. lia.
    + rewrite files_with_files. apply lookup_insert_at. right. by rewrite Hsite.
  - by rewrite ?site_log, ?files_log.
  - by rewrite ?site_log, ?files_log, Hsite1.
  - apply trailing_join_file; [apply dirpath_given | done..].
Qed.

End writep.


(** ** [JSON.parse] after [JSON.stringify] *)

Lemma skip_ws_idem (l : list ascii) : JSON.skip_ws (JSON.skip_ws l) = JSON.skip_ws l.
Proof.
  unfold JSON.skip_ws. induction l as [|c l IH]; simpl; [done|].
  destruct (JSON.is_ws c) eqn:Hc; [done|]. simpl. by rewrite Hc.
Qed.

Lemma skip_ws_start (c : ascii) (l : list ascii) :
  JSON.is_ws c = false → JSON.skip_ws (c :: l) = c :: l.
Proof. unfold JSON.skip_ws. simpl. by intros ->. Qed.

Lemma skip_ws_spaces (n : nat) (l : list ascii) :
  JSON.skip_ws (repeat JSON.space n ++ l) = JSON.skip_ws l.
Proof. induction n as [|n IH]; [done|]. exact IH. Qed.

Lemma skip_ws_indent (level : nat) (l : list ascii) :
  JSON.skip_ws (JSON.indent level ++ l) = JSON.skip_ws l.
Proof. unfold JSON.indent. simpl. apply skip_ws_spaces. Qed.

Lemma parse_value_skip fuel l :
  JSON.parse_value fuel (JSON.skip_ws l) = JSON.parse_value fuel l.
Proof. destruct fuel; [done|]. simpl. by rewrite skip_ws_idem. Qed.

(** What the first character of a value decides. *)
Lemma value_start_facts (c : ascii) :
  value_start c = true →
  JSON.is_ws c = false ∧ Ascii.eqb c "]"%char = false ∧ Ascii.eqb c "}"%char = false
  ∧ Ascii.eqb c ","%char = false.
Proof. destruct c as [[] [] [] [] [] [] [] []]; vm_compute; intros; by split_and!. Qed.

Lemma number_start_facts (c : ascii) :
  JSON.is_digit c = true ∨ c = "-"%char →
  value_start c = true
  ∧ Ascii.eqb c "["%char = false ∧ Ascii.eqb c "{"%char = false
  ∧ Ascii.eqb c JSON.dquote = false ∧ Ascii.eqb c "n"%char = false
  ∧ Ascii.eqb c "t"%char = false ∧ Ascii.eqb c "f"%char = false.
Proof.
  intros [H| ->]; [|by vm_compute].
  revert H. destruct c as [[] [] [] [] [] [] [] []]; vm_compute; intros; by split_and!.
Qed.

Lemma follows_facts (rest : list ascii) :
  follows rest = true →
  match rest with
  | [] => True
  | c :: _ =>
      JSON.is_digit c = false ∧ Ascii.eqb c "."%char = false
      ∧ Ascii.eqb c "e"%char = false ∧ Ascii.eqb c "E"%char = false
  end.
Proof.
  destruct rest as [|c rest]; [done|]. unfold follows.
  intros [H|H]%orb_true_iff; apply Ascii.eqb_eq in H; subst; by vm_compute.
Qed.

(** *** Numbers *)

Lemma lex_digits_chars (d : Decimal.uint) (rest : list ascii) :
  match rest with [] => True | c :: _ => JSON.is_digit c = false end →
  JSON.lex_digits (JSON.uint_chars d ++ rest) = (d, rest).
Proof.
  intros Hrest. induction d; simpl; try (by rewrite IHd).
  destruct rest as [|c rest]; [done|]. simpl. unfold JSON.is_digit in Hrest.
  by destruct (JSON.digit_of c).
Qed.

Lemma uint_chars_head (d : Decimal.uint) :
  d ≠ Decimal.Nil → ∃ c l, JSON.uint_chars d = c :: l ∧ JSON.is_digit c = true.
Proof. destruct d; [done|..]; intros _; simpl; eauto. Qed.

Lemma nzhead_no_leading_zero (d : Decimal.uint) :
  JSON.leading_zero (Decimal.unorm d) = false.
Proof.
  unfold Decimal.unorm.
  assert (∀ d, match Decimal.nzhead d with Decimal.D0 _ => False | _ => True end) as H.
  { clear. induction d; simpl; done. }
  specialize (H d). by destruct (Decimal.nzhead d).
Qed.

Lemma pos_to_uint_normal (p : positive) :
  JSON.leading_zero (Pos.to_uint p) = false ∧ Pos.to_uint p ≠ Decimal.Nil.
Proof.
  split; [|apply DecimalPos.Unsigned.to_uint_nonnil].
  pose proof (DecimalPos.Unsigned.to_of (Pos.to_uint p)) as H.
  rewrite DecimalPos.Unsigned.of_to in H. simpl in H.
  rewrite H. apply nzhead_no_leading_zero.
Qed.


Lemma lex_fraction_none (rest : list ascii) :
  match rest with [] => True | c :: _ => Ascii.eqb c "."%char = false end →
  JSON.lex_fraction rest = Some ([], rest).
Proof. destruct rest as [|c rest]; [done|]. simpl. by intros ->. Qed.

Lemma lex_exponent_none (rest : list ascii) :
  match rest with
  | [] => True
  | c :: _ => Ascii.eqb c "e"%char = false ∧ Ascii.eqb c "E"%char = false
  end →
  JSON.lex_exponent rest = Some ([], rest).
Proof. destruct rest as [|c rest]; [done|]. simpl. by intros [-> ->]. Qed.

(** The digits of a positive number, read back. *)
Lemma parse_digits (minus : bool) (p : positive) (rest : list ascii) :
  follows rest = true →
  match JSON.lex_digits (JSON.uint_chars (Pos.to_uint p) ++ rest) with
  | (Decimal.Nil, _) => None
  | (d, r) =>
      if JSON.leading_zero d then None
      else
        match JSON.lex_fraction r with
        | None => None
        | Some (frac, r1) =>
            match JSON.lex_exponent r1 with
            | None => None
            | Some (ex, r2) =>
                match frac ++ ex with
                | [] =>
                    let n := Z.of_N (N.of_uint d) in
                    Some (JNum (if minus then - n else n)%Z, r2)
                | tail =>
                    Some (JReal (text ((if minus then ["-"%char] else [])
                                       ++ JSON.uint_chars d ++ tail)), r2)
                end
            end
        end
  end
  = Some (JNum (if minus then Zneg p else Zpos p), rest).
Proof.
  intros Hrest. apply follows_facts in Hrest.
  destruct (pos_to_uint_normal p) as [Hzero Hnil].
  rewrite lex_digits_chars by (destruct rest; [done | by destruct Hrest]).
  rewrite Hzero.
  rewrite lex_fraction_none by (destruct rest; [done | by destruct Hrest as (_ & ? & _)]).
  rewrite lex_exponent_none by (destruct rest; [done | by destruct Hrest as (_ & _ & ? & ?)]).
  simpl. unfold N.of_uint. rewrite DecimalPos.Unsigned.of_to.
  destruct (Pos.to_uint p); [done|..]; by destruct minus.
Qed.

Lemma parse_number_chars (n : Z) (rest : list ascii) :
  follows rest = true →
  JSON.parse_number (JSON.number_chars n ++ rest) = Some (JNum n, rest).
Proof.
  intros Hrest. destruct n as [|p|p]; simpl.
  - apply follows_facts in Hrest. unfold JSON.parse_number.
    change (Ascii.eqb "0"%char "-"%char) with false. cbv iota beta.
    change ("0"%char :: rest)
      with (JSON.uint_chars (Decimal.D0 Decimal.Nil) ++ rest).
    rewrite lex_digits_chars by (destruct rest; [done | by destruct Hrest]).
    rewrite lex_fraction_none by (destruct rest; [done | by destruct Hrest as (_ & ? & _)]).
    rewrite lex_exponent_none by (destruct rest; [done | by destruct Hrest as (_ & _ & ? & ?)]).
    done.
  - unfold JSON.parse_number.
    destruct (uint_chars_head (Pos.to_uint p)) as (c & l & Hc & Hdigit).
    { apply pos_to_uint_normal. }
    assert (Ascii.eqb c "-"%char = false) as Hminus.
    { revert Hdigit. clear.
      destruct c as [[] [] [] [] [] [] [] []]; vm_compute; done. }
    rewrite Hc. change ((c :: l) ++ rest) with (c :: (l ++ rest)).
    cbv beta iota. rewrite Hminus.
    change (c :: (l ++ rest)) with ((c :: l) ++ rest). rewrite <- Hc.
    by apply (parse_digits false).
  - unfold JSON.parse_number. simpl. by apply (parse_digits true).
Qed.

Lemma number_chars_head (n : Z) :
  ∃ c l, JSON.number_chars n = c :: l ∧ (JSON.is_digit c = true ∨ c = "-"%char).
Proof.
  destruct n as [|p|p]; simpl.
  - eexists _, _. split; [done|]. by left.
  - destruct (uint_chars_head (Pos.to_uint p)) as (c & l & Hc & Hdigit).
    { apply pos_to_uint_normal. }
    eauto.
  - eexists _, _. split; [done|]. by right.
Qed.

(** *** Strings *)

Lemma parse_string_char (c : ascii) (l : list ascii) :
  JSON.parse_string (JSON.quote_char c ++ l)
  = match JSON.parse_string l with
    | Some (s, r) => Some (c :: s, r)
    | None => None
    end.
Proof. destruct c as [[] [] [] [] [] [] [] []]; reflexivity. Qed.

Lemma parse_string_quoted (s rest : list ascii) :
  JSON.parse_string (flat_map JSON.quote_char s ++ JSON.dquote :: rest)
  = Some (s, rest).
Proof.
  induction s as [|c s IH]; [done|]. simpl.
  rewrite <- app_assoc, parse_string_char. by rewrite IH.
Qed.

(** *** Number literals, with more text after them *)

Lemma lex_digits_extend (l : list ascii) : ∀ d r rest,
  JSON.lex_digits l = (d, r) → follows rest = true →
  JSON.lex_digits (l ++ rest) = (d, r ++ rest).
Proof.
  induction l as [|c l IH]; intros d r rest Hl Hrest.
  - simpl in Hl. inversion Hl; subst. simpl.
    apply follows_facts in Hrest. destruct rest as [|c rest]; [done|].
    destruct Hrest as [Hd _]. simpl. unfold JSON.is_digit in Hd.
    by destruct (JSON.digit_of c).
  - simpl in *. destruct (JSON.digit_of c) as [digit|].
    + destruct (JSON.lex_digits l) as [d' r'] eqn:Hl'. inversion Hl; subst.
      by rewrite (IH _ _ _ eq_refl Hrest).
    + by inversion Hl; subst.
Qed.

Lemma lex_fraction_extend (l frac r rest : list ascii) :
  JSON.lex_fraction l = Some (frac, r) → follows rest = true →
  JSON.lex_fraction (l ++ rest) = Some (frac, r ++ rest).
Proof.
  intros Hl Hrest. destruct l as [|c l].
  - inversion Hl; subst. apply lex_fraction_none.
    apply follows_facts in Hrest. destruct rest; [done | by destruct Hrest as (_ & ? & _)].
  - simpl in *. destruct (Ascii.eqb c "."%char); [|by inversion Hl; subst].
    destruct (JSON.lex_digits l) as [d r'] eqn:Hd.
    rewrite (lex_digits_extend _ _ _ _ Hd Hrest).
    destruct d; by inversion Hl; subst.
Qed.

Lemma lex_exponent_extend (l ex r rest : list ascii) :
  JSON.lex_exponent l = Some (ex, r) → follows rest = true →
  JSON.lex_exponent (l ++ rest) = Some (ex, r ++ rest).
Proof.
  intros Hl Hrest. destruct l as [|c l].
  - inversion Hl; subst. apply lex_exponent_none.
    apply follows_facts in Hrest.
    destruct rest; [done | by destruct Hrest as (_ & _ & ? & ?)].
  - simpl in *.
    destruct (Ascii.eqb c "e"%char || Ascii.eqb c "E"%char); [|by inversion Hl; subst].
    destruct l as [|s l]; [done|]. simpl in *.
    destruct (Ascii.eqb s "+"%char || Ascii.eqb s "-"%char).
    + destruct (JSON.lex_digits l) as [d r'] eqn:Hd.
      rewrite (lex_digits_extend _ _ _ _ Hd Hrest).
      destruct d; by inversion Hl; subst.
    + destruct (JSON.lex_digits (s :: l)) as [d r'] eqn:Hd.
      change (s :: l ++ rest) with ((s :: l) ++ rest).
      rewrite (lex_digits_extend _ _ _ _ Hd Hrest).
      destruct d; by inversion Hl; subst.
Qed.

(** A number that has been read is read the same with more text after
    it, as long as that text cannot continue the number. *)
Lemma parse_number_extend (l : list ascii) (v : json) (r rest : list ascii) :
  JSON.parse_number l = Some (v, r) → follows rest = true →
  JSON.parse_number (l ++ rest) = Some (v, r ++ rest).
Proof.
  unfold JSON.parse_number. intros Hl Hrest.
  assert (∀ (minus : bool) l1,
    match JSON.lex_digits l1 with
    | (Decimal.Nil, _) => None
    | (d, r) =>
        if JSON.leading_zero d then None
        else
          match JSON.lex_fraction r with
          | None => None
          | Some (frac, r1) =>
              match JSON.lex_exponent r1 with
              | None => None
              | Some (ex, r2) =>
                  match frac ++ ex with
                  | [] =>
                      let n := Z.of_N (N.of_uint d) in
                      Some (JNum (if minus then - n else n)%Z, r2)
                  | tail =>
                      Some (JReal (text ((if minus then ["-"%char] else [])
                                         ++ JSON.uint_chars d ++ tail)), r2)
                  end
              end
          end
    end = Some (v, r) →
    match JSON.lex_digits (l1 ++ rest) with
    | (Decimal.Nil, _) => None
    | (d, r) =>
        if JSON.leading_zero d then None
        else
          match JSON.lex_fraction r with
          | None => None
          | Some (frac, r1) =>
              match JSON.lex_exponent r1 with
              | None => None
              | Some (ex, r2) =>
                  match frac ++ ex with
                  | [] =>
                      let n := Z.of_N (N.of_uint d) in
                      Some (JNum (if minus then - n else n)%Z, r2)
                  | tail =>
                      Some (JReal (text ((if minus then ["-"%char] else [])
                                         ++ JSON.uint_chars d ++ tail)), r2)
                  end
              end
          end
    end = Some (v, r ++ rest)) as Hbody.
  { intros minus l1 H.
    destruct (JSON.lex_digits l1) as [d r0] eqn:Hd.
    rewrite (lex_digits_extend _ _ _ _ Hd Hrest).
    assert (d ≠ Decimal.Nil) as Hnil by (by intros ->).
    destruct (JSON.leading_zero d); [by destruct d|].
    destruct (JSON.lex_fraction r0) as [[frac r1]|] eqn:Hf; [|by destruct d].
    rewrite (lex_fraction_extend _ _ _ _ Hf Hrest).
    destruct (JSON.lex_exponent r1) as [[ex r2]|] eqn:He; [|by destruct d].
    rewrite (lex_exponent_extend _ _ _ _ He Hrest).
    destruct d; try done; destruct (frac ++ ex); by inversion H; subst. }
  destruct l as [|c l].
  - by specialize (Hbody false [] Hl).
  - rewrite <- app_comm_cons. destruct (Ascii.eqb c "-"%char).
    + by apply (Hbody true l).
    + by apply (Hbody false (c :: l)).
Qed.

Lemma parse_number_head (l : list ascii) (v : json) (r : list ascii) :
  JSON.parse_number l = Some (v, r) →
  ∃ c l', l = c :: l' ∧ (JSON.is_digit c = true ∨ c = "-"%char).
Proof.
  unfold JSON.parse_number. destruct l as [|c l]; [done|].
  destruct (Ascii.eqb c "-"%char) eqn:Hc.
  - apply Ascii.eqb_eq in Hc. eauto.
  - intros H. exists c, l. split; [done|]. left. unfold JSON.is_digit.
    simpl in H. by destruct (JSON.digit_of c).
Qed.


(** *** Values *)

Lemma json_induction (P : json → Prop) :
  P JNull → (∀ b, P (JBool b)) → (∀ n, P (JNum n)) → (∀ lit, P (JReal lit)) →
  (∀ s, P (JStr s)) →
  (∀ items, Forall P items → P (JArr items)) →
  (∀ members, Forall (λ m, P (snd m)) members → P (JObj members)) →
  ∀ v, P v.
Proof.
  intros Hnull Hbool Hnum Hreal Hstr Harr Hobj.
  fix IH 1. intros [| b | n | lit | s | items | members].
  - exact Hnull.
  - apply Hbool.
  - apply Hnum.
  - apply Hreal.
  - apply Hstr.
  - apply Harr. induction items as [|x items IHitems]; constructor; [apply IH | exact IHitems].
  - apply Hobj. induction members as [|[k x] members IHmembers]; constructor;
      [apply IH | exact IHmembers].
Qed.

Lemma json_size_arr items : json_size (JArr items) = S (items_size items).
Proof. simpl. f_equal; induction items as [|x items IH]; simpl; congruence. Qed.

Lemma json_size_obj members : json_size (JObj members) = S (members_size members).
Proof. simpl. f_equal; induction members as [|m members IH]; simpl; congruence. Qed.

Lemma json_wf_arr items : json_wf (JArr items) ↔ Forall json_wf items.
Proof.
  simpl. induction items as [|x items IH]; [by split|].
  rewrite Forall_cons, <- IH. done.
Qed.

Lemma json_wf_obj members :
  json_wf (JObj members)
  ↔ NoDup (map fst members) ∧ Forall (λ m, json_wf (snd m)) members.
Proof.
  simpl. apply and_iff_compat_l.
  induction members as [|m members IH]; [by split|].
  rewrite Forall_cons, <- IH. done.
Qed.

Lemma print_arr level x items :
  JSON.print level (JArr (x :: items))
  = "["%char :: JSON.indent (S level)
      ++ JSON.sep_by (","%char :: JSON.indent (S level))
           (map (JSON.print (S level)) (x :: items))
      ++ JSON.indent level ++ ["]"%char].
Proof. done. Qed.

Lemma print_obj level m members :
  JSON.print level (JObj (m :: members))
  = "{"%char :: JSON.indent (S level)
      ++ JSON.sep_by (","%char :: JSON.indent (S level))
           (map (print_member (S level)) (m :: members))
      ++ JSON.indent level ++ ["}"%char].
Proof.
  replace (map (print_member (S level)) (m :: members))
    with (map (λ '(k, x), JSON.quote k ++ ":"%char :: JSON.space :: JSON.print (S level) x)
              (m :: members)); [done|].
  apply map_ext. by intros [k x].
Qed.

Lemma sep_by_cons {A} (sep p : list A) (ps : list (list A)) :
  JSON.sep_by sep (p :: ps)
  = p ++ match ps with [] => [] | _ => sep ++ JSON.sep_by sep ps end.
Proof. destruct ps; simpl; [by rewrite app_nil_r | done]. Qed.

Lemma print_head level v :
  json_wf v → ∃ c l, JSON.print level v = c :: l ∧ value_start c = true.
Proof.
  destruct v as [| [] | n | lit | s | [|x items] | [|m members]]; intros Hwf.
  - by eexists _, _.
  - by eexists _, _.
  - by eexists _, _.
  - destruct (number_chars_head n) as (c & l & Hc & Hstart).
    exists c, l. split; [done|]. by apply number_start_facts.
  - destruct (parse_number_head _ _ _ Hwf) as (c & l & Hc & Hstart).
    exists c, l. split; [done|]. by apply number_start_facts.
  - by eexists _, _.
  - by eexists _, _.
  - rewrite print_arr. by eexists _, _.
  - by eexists _, _.
  - rewrite print_obj. by eexists _, _.
Qed.

Lemma parse_value_indent fuel level l :
  JSON.parse_value fuel (JSON.indent level ++ l) = JSON.parse_value fuel l.
Proof.
  rewrite <- parse_value_skip, skip_ws_indent. apply parse_value_skip.
Qed.

Lemma follows_indent level l : follows (JSON.indent level ++ l) = true.
Proof. done. Qed.

Lemma obj_set_fresh members k v :
  k ∉ map fst members → JSON.obj_set members k v = members ++ [(k, v)].
Proof.
  induction members as [|[k' v'] members IH]; [done|]. simpl. intros Hk.
  rewrite decide_False by (intros ->; apply Hk; by left).
  rewrite IH; [done|]. intros ?. apply Hk. by right.
Qed.

Lemma parse_value_unfold fuel l :
  JSON.parse_value (S fuel) l
  = match JSON.skip_ws l with
    | [] => None
    | c :: r =>
        if Ascii.eqb c "["%char then
          match JSON.skip_ws r with
          | c' :: r' =>
              if Ascii.eqb c' "]"%char then Some (JArr [], r')
              else JSON.parse_items fuel r []
          | [] => None
          end
        else if Ascii.eqb c "{"%char then
          match JSON.skip_ws r with
          | c' :: r' =>
              if Ascii.eqb c' "}"%char then Some (JObj [], r')
              else JSON.parse_members fuel r []
          | [] => None
          end
        else if Ascii.eqb c JSON.dquote then
          match JSON.parse_string r with
          | Some (s, r') => Some (JStr (text s), r')
          | None => None
          end
        else if Ascii.eqb c "n"%char then
          option_map (pair JNull) (JSON.expect (chars "ull") r)
        else if Ascii.eqb c "t"%char then
          option_map (pair (JBool true)) (JSON.expect (chars "rue") r)
        else if Ascii.eqb c "f"%char then
          option_map (pair (JBool false)) (JSON.expect (chars "alse") r)
        else JSON.parse_number (c :: r)
    end.
Proof. done. Qed.

Lemma parse_items_unfold fuel l acc :
  JSON.parse_items (S fuel) l acc
  = match JSON.parse_value fuel l with
    | None => None
    | Some (v, r) =>
        match JSON.skip_ws r with
        | c :: r' =>
            if Ascii.eqb c ","%char then JSON.parse_items fuel r' (v :: acc)
            else if Ascii.eqb c "]"%char then Some (JArr (rev (v :: acc)), r')
            else None
        | [] => None
        end
    end.
Proof. done. Qed.

Lemma parse_members_unfold fuel l acc :
  JSON.parse_members (S fuel) l acc
  = match JSON.skip_ws l with
    | c :: r =>
        if Ascii.eqb c JSON.dquote then
          match JSON.parse_string r with
          | None => None
          | Some (k, r1) =>
              match JSON.skip_ws r1 with
              | c1 :: r2 =>
                  if Ascii.eqb c1 ":"%char then
                    match JSON.parse_value fuel r2 with
                    | None => None
                    | Some (v, r3) =>
                        let acc' := JSON.obj_set acc (text k) v in
                        match JSON.skip_ws r3 with
                        | c3 :: r4 =>
                            if Ascii.eqb c3 ","%char then JSON.parse_members fuel r4 acc'
                            else if Ascii.eqb c3 "}"%char then Some (JObj acc', r4)
                            else None
                        | [] => None
                        end
                    end
                  else None
              | [] => None
              end
          end
        else None
    | [] => None
    end.
Proof. done. Qed.

Lemma parse_items_printed items : ∀ acc fuel level rest,
  Forall parses items → items ≠ [] → items_size items < fuel →
  JSON.parse_items fuel
    (JSON.indent (S level)
       ++ JSON.sep_by (","%char :: JSON.indent (S level))
            (map (JSON.print (S level)) items)
       ++ JSON.indent level ++ "]"%char :: rest) acc
  = Some (JArr (rev acc ++ items), rest).
Proof.
  induction items as [|x items IH]; intros acc fuel level rest Hall Hne Hfuel; [done|].
  inversion Hall as [|?? Hx Hitems]; subst.
  destruct fuel as [|fuel]; [simpl in Hfuel; lia|]. simpl in Hfuel.
  rewrite parse_items_unfold, parse_value_indent.
  rewrite map_cons, sep_by_cons, <- app_assoc.
  destruct items as [|y items].
  - rewrite app_nil_l.
    rewrite (Hx fuel (S level) (JSON.indent level ++ "]"%char :: rest))
      by (lia || apply follows_indent).
    rewrite skip_ws_indent, skip_ws_start by done.
    change (Ascii.eqb "]" ",")%char with false.
    change (Ascii.eqb "]" "]")%char with true. cbv iota.
    done.
  - cbn [map]. rewrite <- app_assoc, <- app_comm_cons.
    rewrite (Hx fuel (S level)) by (lia || done).
    rewrite skip_ws_start by done.
    change (Ascii.eqb "," ",")%char with true. cbv iota.
    rewrite (IH (x :: acc)) by (done || lia).
    simpl rev. by rewrite <- app_assoc.
Qed.


Lemma parse_members_printed members : ∀ acc fuel level rest,
  Forall (λ m, parses (snd m)) members → members ≠ [] →
  NoDup (map fst (acc ++ members)) → members_size members < fuel →
  JSON.parse_members fuel
    (JSON.indent (S level)
       ++ JSON.sep_by (","%char :: JSON.indent (S level))
            (map (print_member (S level)) members)
       ++ JSON.indent level ++ "}"%char :: rest) acc
  = Some (JObj (acc ++ members), rest).
Proof.
  induction members as [|[k x] members IH];
    intros acc fuel level rest Hall Hne Hdup Hfuel; [done|].
  inversion Hall as [|?? Hx Hmembers]; subst. simpl in Hx.
  destruct fuel as [|fuel]; [simpl in Hfuel; lia|]. simpl in Hfuel.
  assert (k ∉ map fst acc) as Hfresh.
  { rewrite map_app in Hdup. simpl in Hdup.
    apply NoDup_app in Hdup as (_ & Hdisj & _).
    intros Hin. apply (Hdisj k Hin). by left. }
  assert (NoDup (map fst ((acc ++ [(k, x)]) ++ members))) as Hdup'.
  { by rewrite <- app_assoc. }
  rewrite parse_members_unfold, skip_ws_indent.
  rewrite map_cons, sep_by_cons, <- app_assoc.
  unfold print_member at 1. cbn [fst snd]. unfold JSON.quote.
  rewrite <- !app_assoc, <- !app_comm_cons.
  rewrite skip_ws_start by done.
  change (Ascii.eqb JSON.dquote JSON.dquote) with true. cbv iota.
  rewrite <- app_assoc.
  change ([JSON.dquote] ++ ?t) with (JSON.dquote :: t).
  rewrite parse_string_quoted.
  rewrite skip_ws_start by done.
  change (Ascii.eqb ":" ":")%char with true. cbv iota.
  rewrite <- (parse_value_skip fuel (JSON.space :: _)).
  change (JSON.skip_ws (JSON.space :: ?l)) with (JSON.skip_ws l).
  rewrite text_chars.
  destruct members as [|m members].
  - rewrite app_nil_l, parse_value_skip.
    rewrite (Hx fuel (S level) (JSON.indent level ++ "}"%char :: rest))
      by (lia || apply follows_indent).
    cbv zeta. rewrite skip_ws_indent, skip_ws_start by done.
    change (Ascii.eqb "}" ",")%char with false.
    change (Ascii.eqb "}" "}")%char with true. cbv iota.
    by rewrite obj_set_fresh.
  - cbn [map]. rewrite <- app_comm_cons, <- app_assoc, parse_value_skip.
    rewrite (Hx fuel (S level)) by (lia || done).
    cbv zeta. rewrite skip_ws_start by done.
    change (Ascii.eqb "," ",")%char with true. cbv iota.
    rewrite obj_set_fresh by done.
    rewrite (IH (acc ++ [(k, x)])) by (done || lia).
    by rewrite <- app_assoc.
Qed.

Lemma print_arr_rest level x items rest :
  JSON.print level (JArr (x :: items)) ++ rest
  = "["%char
    :: (JSON.indent (S level)
          ++ JSON.sep_by (","%char :: JSON.indent (S level))
               (map (JSON.print (S level)) (x :: items))
          ++ JSON.indent level ++ "]"%char :: rest).
Proof.
  rewrite print_arr, <- app_comm_cons. f_equal.
  rewrite <- !app_assoc. done.
Qed.

Lemma print_obj_rest level m members rest :
  JSON.print level (JObj (m :: members)) ++ rest
  = "{"%char
    :: (JSON.indent (S level)
          ++ JSON.sep_by (","%char :: JSON.indent (S level))
               (map (print_member (S level)) (m :: members))
          ++ JSON.indent level ++ "}"%char :: rest).
Proof.
  rewrite print_obj, <- app_comm_cons. f_equal.
  rewrite <- !app_assoc. done.
Qed.

(** Every well-formed value is read back from what is written for it. *)
Lemma json_parses (v : json) : json_wf v → parses v.
Proof.
  induction v as [| b | n | lit | s | items IH | members IH] using json_induction;
    intros Hwf fuel level rest Hfuel Hrest;
    (destruct fuel as [|fuel]; [simpl in Hfuel; lia|]).
  - done.
  - by destruct b.
  - destruct (number_chars_head n) as (c & l & Hc & Hstart).
    destruct (number_start_facts c Hstart) as (Hv & H1 & H2 & H3 & H4 & H5 & H6).
    destruct (value_start_facts c Hv) as (Hws & _).
    rewrite parse_value_unfold. cbn [JSON.print]. rewrite Hc, <- app_comm_cons.
    rewrite skip_ws_start by done. rewrite H1, H2, H3, H4, H5, H6.
    rewrite app_comm_cons, <- Hc.
    by apply parse_number_chars.
  - destruct (parse_number_head _ _ _ Hwf) as (c & l & Hc & Hstart).
    destruct (number_start_facts c Hstart) as (Hv & H1 & H2 & H3 & H4 & H5 & H6).
    destruct (value_start_facts c Hv) as (Hws & _).
    rewrite parse_value_unfold. cbn [JSON.print]. rewrite Hc, <- app_comm_cons.
    rewrite skip_ws_start by done. rewrite H1, H2, H3, H4, H5, H6.
    rewrite app_comm_cons, <- Hc.
    by apply (parse_number_extend _ _ [] rest Hwf).
  - rewrite parse_value_unfold. cbn [JSON.print]. unfold JSON.quote.
    rewrite <- app_comm_cons, skip_ws_start by done.
    change (Ascii.eqb JSON.dquote "[")%char with false.
    change (Ascii.eqb JSON.dquote "{")%char with false.
    change (Ascii.eqb JSON.dquote JSON.dquote) with true. cbv iota.
    rewrite <- app_assoc.
    change ([JSON.dquote] ++ ?t) with (JSON.dquote :: t).
    rewrite parse_string_quoted. by rewrite text_chars.
  - destruct items as [|x items]; [done|].
    rewrite json_size_arr in Hfuel. apply json_wf_arr in Hwf.
    assert (Forall parses (x :: items)) as Hall.
    { apply Forall_forall. intros y Hy. rewrite Forall_forall in IH, Hwf. auto. }
    inversion Hwf as [|?? Hwfx _]; subst.
    destruct (print_head (S level) x Hwfx) as (c & l & Hc & Hstart).
    destruct (value_start_facts c Hstart) as (Hws & Hclose & _).
    rewrite parse_value_unfold, print_arr_rest.
    rewrite skip_ws_start by done.
    change (Ascii.eqb "[" "[")%char with true. cbv iota.
    set (r := JSON.indent (S level) ++ _).
    assert (∃ r', JSON.skip_ws r = c :: r') as [r' ->].
    { unfold r. rewrite skip_ws_indent, map_cons, sep_by_cons, Hc.
      rewrite <- !app_assoc, <- app_comm_cons, skip_ws_start by done. eauto. }
    rewrite Hclose. unfold r.
    rewrite (parse_items_printed (x :: items) []); [done | done | done | lia].
  - destruct members as [|m members]; [done|].
    rewrite json_size_obj in Hfuel. apply json_wf_obj in Hwf as [Hdup Hwf].
    assert (Forall (λ m, parses (snd m)) (m :: members)) as Hall.
    { apply Forall_forall. intros y Hy. rewrite Forall_forall in IH, Hwf. auto. }
    rewrite parse_value_unfold, print_obj_rest.
    rewrite skip_ws_start by done.
    change (Ascii.eqb "{" "[")%char with false.
    change (Ascii.eqb "{" "{")%char with true. cbv iota.
    set (r := JSON.indent (S level) ++ _).
    assert (∃ r', JSON.skip_ws r = JSON.dquote :: r') as [r' ->].
    { unfold r. rewrite skip_ws_indent, map_cons, sep_by_cons.
      unfold print_member at 1. unfold JSON.quote.
      rewrite <- !app_assoc, <- !app_comm_cons, skip_ws_start by done. eauto. }
    change (Ascii.eqb JSON.dquote "}")%char with false. cbv iota. unfold r.
    rewrite (parse_members_printed (m :: members) [] fuel level rest);
      [done | done | done | done | lia].
Qed.


(** *** The fuel [JSON.parse] starts with is enough *)

Lemma sep_by_items_length (level : nat) (sep : list ascii) (items : list json) :
  sep ≠ [] →
  Forall (λ x, json_size x ≤ length (JSON.print level x)) items →
  items_size items ≤ length (JSON.sep_by sep (map (JSON.print level) items)) + 1.
Proof.
  intros Hsep Hall. induction Hall as [|x items Hx _ IH]; [simpl; lia|].
  rewrite map_cons, sep_by_cons, length_app. simpl items_size.
  destruct items as [|y items]; [simpl; lia|].
  cbn [map]. rewrite length_app. cbn [map] in IH.
  assert (1 ≤ length sep) by (destruct sep; [done | simpl; lia]). lia.
Qed.

Lemma sep_by_members_length (level : nat) (sep : list ascii)
    (members : list (string * json)) :
  sep ≠ [] →
  Forall (λ m, json_size (snd m) ≤ length (JSON.print level (snd m))) members →
  members_size members
  ≤ length (JSON.sep_by sep (map (print_member level) members)) + 1.
Proof.
  intros Hsep Hall. induction Hall as [|m members Hm _ IH]; [simpl; lia|].
  rewrite map_cons, sep_by_cons, length_app. simpl members_size.
  assert (json_size (snd m) ≤ length (print_member level m)) as Hm'.
  { unfold print_member. rewrite length_app. simpl. lia. }
  destruct members as [|m' members]; [cbn [map members_size length]; lia|].
  cbn [map]. rewrite length_app. cbn [map] in IH.
  assert (1 ≤ length sep) by (destruct sep; [done | simpl; lia]). lia.
Qed.

Lemma json_size_printed (v : json) :
  json_wf v → ∀ level, json_size v ≤ length (JSON.print level v).
Proof.
  induction v as [| b | n | lit | s | items IH | members IH] using json_induction;
    intros Hwf level.
  - simpl. lia.
  - destruct b; simpl; lia.
  - destruct (number_chars_head n) as (c & l & Hc & _).
    cbn [JSON.print json_size]. rewrite Hc. simpl. lia.
  - destruct (parse_number_head _ _ _ Hwf) as (c & l & Hc & _).
    cbn [JSON.print json_size]. rewrite Hc. simpl. lia.
  - simpl. lia.
  - destruct items as [|x items]; [simpl; lia|].
    rewrite json_size_arr, print_arr. apply json_wf_arr in Hwf.
    assert (Forall (λ x, json_size x ≤ length (JSON.print (S level) x)) (x :: items))
      as Hall.
    { apply Forall_forall. intros y Hy. rewrite Forall_forall in IH, Hwf. auto. }
    pose proof (sep_by_items_length (S level) (","%char :: JSON.indent (S level))
                  (x :: items) ltac:(done) Hall) as Hlen.
    cbn [length]. rewrite !length_app. cbn [length]. lia.
  - destruct members as [|m members]; [simpl; lia|].
    rewrite json_size_obj, print_obj. apply json_wf_obj in Hwf as [_ Hwf].
    assert (Forall (λ m, json_size (snd m) ≤ length (JSON.print (S level) (snd m)))
              (m :: members)) as Hall.
    { apply Forall_forall. intros y Hy. rewrite Forall_forall in IH, Hwf. auto. }
    pose proof (sep_by_members_length (S level) (","%char :: JSON.indent (S level))
                  (m :: members) ltac:(done) Hall) as Hlen.
    cbn [length]. rewrite !length_app. cbn [length]. lia.
Qed.

(** [JSON.parse(JSON.stringify(v, undefined, 2))] is [v]. *)
Lemma parse_stringify (v : json) :
  json_wf v → JSON.parse (JSON.stringify v) = Some v.
Proof.
  intros Hwf. unfold JSON.parse, JSON.stringify.
  rewrite chars_text, text_length.
  rewrite <- (app_nil_r (JSON.print 0 v)) at 2.
  rewrite (json_parses v Hwf); [done | | done].
  pose proof (json_size_printed v Hwf 0). lia.
Qed.


(** * The claims *)

(** ** C1: [writep] on a path held by a directory *)

(** C1, counterexample.  A directory sits at the document's path: [writep]
    does not answer 1; it emits the write notification and calls
    [writeFileSync] on the path, and the promise is rejected with EISDIR. *)
Lemma writep_directory_counterexample :
  writep 1 store "doc.json" (Some (JObj [])) occupied
  = Some (Rejected EISDIR,
          World (files occupied) []
            [Call SMkdir "/data"; Call SStat "/data"; Call SStat "/data/doc.json";
             Emit "write" "doc.json" (Some (JObj []));
             Call (SWriteFile "{}") "/data/doc.json"]).
Proof. vm_compute. reflexivity. Qed.

(** C1, as amended.  When a directory occupies the path, [writep] provisions
    the parent (which settles at once), stats the path, and since the entry
    is not a file goes on to [write]: the notification is emitted, the write
    is attempted and fails, and the promise is rejected with EISDIR.  No
    entry of the tree is changed by the attempt. *)
Theorem writep_directory_occupant (this : FileServer) (fpath : string)
    (data : option json) (w : world) :
  Os.lookup (files w) (site this w fpath) = Ok Dir →
  ∃ v w1,
    mkdirp 1 this (Path.dirname fpath) w = Some (Fulfilled v, w1)
    ∧ writep 1 this fpath data w
      = Some (Rejected EISDIR,
              World (files w1) (cwd w1)
                (trace w1 ++
                 [Call SStat (full this fpath);
                  Emit "write" fpath (Some (default (JObj []) data));
                  Call (SWriteFile (document_text fpath (default (JObj []) data)))
                    (full this fpath)])).
Proof.
  intros Hl.
  destruct (site_dirname this w fpath) as (seg & Hsite & _ & _).
  destruct (mkdirp_direct this w (Path.dirname fpath)) as (o & w1 & H1).
  { intros [Hr Hp]. rewrite Hsite in Hl. unfold Os.step in Hl.
    destruct (decide (seg = "" ∨ seg = ".")); [congruence|].
    destruct (decide (seg = "..")); [congruence|].
    apply lookup_parent in Hl. congruence. }
  destruct (mkdirp_settled _ _ _ _ _ _ H1) as ((v & ->) & Hcwd & Hsub & _).
  exists v, w1. split; [done|].
  assert (Os.lookup (files w1) (site this w1 fpath) = Ok Dir) as Hl1.
  { rewrite (site_cwd _ _ _ _ Hcwd). by eapply lookup_stable. }
  unfold writep. rewrite H1, (stat_dir _ _ _ Hl1). simpl.
  rewrite write_rejected_directory by done. simpl.
  unfold log, emit, log. simpl. by rewrite <- !app_assoc.
Qed.

(** An instance: the directory at [/data/doc.json], no value given. *)
Lemma writep_directory_occupant_witness :
  ∃ v w1,
    mkdirp 1 store (Path.dirname "doc.json") occupied = Some (Fulfilled v, w1)
    ∧ writep 1 store "doc.json" None occupied
      = Some (Rejected EISDIR,
              World (files w1) (cwd w1)
                (trace w1 ++
                 [Call SStat (full store "doc.json");
                  Emit "write" "doc.json" (Some (default (JObj []) None));
                  Call (SWriteFile (document_text "doc.json" (default (JObj []) None)))
                    (full store "doc.json")])).
Proof. apply (writep_directory_occupant store "doc.json" None occupied). vm_compute. reflexivity. Defined.

(** ** C2: [rmrdir] on a path that is not there *)

(** C2, counterexample.  Nothing is at [/data/ghost]: the promise of
    [rmrdir] is rejected with ENOENT, whatever the fuel. *)
Lemma rmrdir_absent_counterexample :
  ¬ ∃ fuel v w', rmrdir fuel store "ghost" fresh = Some (Fulfilled v, w').
Proof. intros (fuel & v & w' & H). destruct fuel as [|fuel]; vm_compute in H; discriminate. Qed.

(** C2, as amended.  On a path that does not exist [rmrdir] is rejected
    with the ENOENT of its [stat]; nothing else is called and nothing is
    changed. *)
Theorem rmrdir_absent_rejects (this : FileServer) (fuel : nat) (dpath : string)
    (w : world) :
  Os.lookup (files w) (site this w dpath) = Err ENOENT →
  rmrdir (S fuel) this dpath w
  = Some (Rejected ENOENT, log (Call SStat (full this dpath)) w).
Proof. intros Hl. simpl. by rewrite (stat_error _ _ _ _ Hl). Qed.

(** An instance: [ghost] in the empty store. *)
Lemma rmrdir_absent_rejects_witness :
  rmrdir 1 store "ghost" fresh
  = Some (Rejected ENOENT, log (Call SStat (full store "ghost")) fresh).
Proof. apply (rmrdir_absent_rejects store 0 "ghost" fresh). vm_compute. reflexivity. Defined.


(** ** C3: reading a file that is not a [.json] file *)

(** C3, counterexample.  [read] does not look at the extension: the text
    written to [note.txt] is decoded, and what comes back is an array, not
    the text. *)
Lemma read_plain_path_counterexample :
  endsWith "note.txt" ".json" = false
  ∧ fst (write store "note.txt" (JStr "[1, 2]") fresh) = Fulfilled tt
  ∧ fst (read store "note.txt" (snd (write store "note.txt" (JStr "[1, 2]") fresh)))
    = Fulfilled (JArr [JNum 1; JNum 2]).
Proof. by vm_compute. Qed.

(** C3, as amended.  Whatever the extension, [read] tries [JSON.parse] on
    the content: after a text has been written to a path that does not end
    in [.json], [read] returns the decoded value when the text is JSON and
    exactly the text when it is not. *)
Theorem read_decodes_plain_path (this : FileServer) (fpath s : string) (w w1 : world) :
  endsWith fpath ".json" = false →
  write this fpath (JStr s) w = (Fulfilled tt, w1) →
  fst (read this fpath w1) = Fulfilled (decoded s)
  ∧ (JSON.parse s = None → fst (read this fpath w1) = Fulfilled (JStr s)).
Proof.
  intros Hext Hw.
  assert (fst (read this fpath w1) = Fulfilled (decoded s)) as Hread.
  { rewrite (read_after_write _ _ _ _ _ Hw). unfold document_text. by rewrite Hext. }
  split; [done|]. intros Hnone. rewrite Hread. unfold decoded. by rewrite Hnone.
Qed.

(** An instance: a text that is not JSON comes back as written. *)
Lemma read_decodes_plain_path_witness :
  fst (read store "note.txt" (snd (write store "note.txt" (JStr "to do: [1, 2]") fresh)))
  = Fulfilled (decoded "to do: [1, 2]")
  ∧ (JSON.parse "to do: [1, 2]" = None →
     fst (read store "note.txt" (snd (write store "note.txt" (JStr "to do: [1, 2]") fresh)))
     = Fulfilled (JStr "to do: [1, 2]")).
Proof.
  apply (read_decodes_plain_path store "note.txt" "to do: [1, 2]" fresh).
  - reflexivity.
  - by vm_compute.
Defined.

(** ** C4: writing and reading a [.json] document *)

(** C4.  After a value has been written to a path that ends in [.json],
    [read] returns that value. *)
Theorem write_read_json (this : FileServer) (fpath : string) (v : json) (w w1 : world) :
  endsWith fpath ".json" = true → json_wf v →
  write this fpath v w = (Fulfilled tt, w1) →
  fst (read this fpath w1) = Fulfilled v.
Proof.
  intros Hext Hwf Hw. rewrite (read_after_write _ _ _ _ _ Hw).
  unfold document_text, decoded. by rewrite Hext, parse_stringify.
Qed.

(** An instance: an object with numbers, strings, a boolean and [null]. *)
Lemma write_read_json_witness :
  fst (read store "doc.json"
         (snd (write store "doc.json"
                 (JObj [("x", JNum 1); ("ratio", JReal "0.25");
                        ("tags", JArr [JStr "a"; JBool true; JNull])])
                 fresh)))
  = Fulfilled (JObj [("x", JNum 1); ("ratio", JReal "0.25");
                     ("tags", JArr [JStr "a"; JBool true; JNull])]).
Proof.
  apply (write_read_json store "doc.json" _ fresh).
  - reflexivity.
  - simpl. split_and!; try done; try lia.
    repeat (apply NoDup_cons; split;
            [intros H; apply list_elem_of_In in H; simpl in H; intuition discriminate|]).
    apply NoDup_nil_2.
  - by vm_compute.
Defined.


(** ** C5: [writep] twice *)

(** C5.  After a [writep] that wrote the document (its promise fulfilled
    with the [undefined] of [write]), a second [writep] on the same path
    answers 1 without writing: it calls [mkdir] and [stat] for the parent
    and [stat] for the path, nothing else, the tree is left as it was, and
    the document still holds the serialization of the first value. *)
Theorem writep_twice_keeps_first (this : FileServer) (fuel : nat) (fpath : string)
    (v1 v2 : option json) (w w1 : world) :
  writep fuel this fpath v1 w = Some (Fulfilled VUndefined, w1) →
  writep 1 this fpath v2 w1
  = Some (Fulfilled (VNumber 1),
          World (files w1) (cwd w1)
            (trace w1 ++ [Call SMkdir (full this (Path.dirname fpath));
                          Call SStat (full this (Path.dirname fpath));
                          Call SStat (full this fpath)]))
  ∧ files w1 !! site this w fpath
    = Some (File (document_text fpath (default (JObj []) v1))).
Proof.
  unfold writep at 1.
  destruct (mkdirp fuel this (Path.dirname fpath) w) as [[o wa]|] eqn:H1; [|done].
  destruct (mkdirp_settled _ _ _ _ _ _ H1) as ((v & ->) & Hcwda & _).
  destruct (stat_cases this wa fpath) as
    [(Hs & ->) | [(c & Hs & _ & ->) | (e & -> & Hs)]]; simpl.
  - rewrite write_rejected_directory by done. done.
  - done.
  - destruct e; try done.
    destruct (write this fpath _ _) as [o' w'] eqn:Hwrote. intros Heq.
    assert (o' = Fulfilled tt ∧ w' = w1) as [-> ->].
    { destruct o' as [[]|]; by inversion Heq. }
    clear Heq.
    pose proof (write_cwd this fpath (default (JObj []) v1)
                  (log (Call SStat (full this fpath)) wa)) as Hcwd1.
    rewrite Hwrote in Hcwd1. simpl in Hcwd1.
    destruct (write_fulfilled _ _ _ _ _ Hwrote) as (Htr & Hfiles & Hwas).
    rewrite site_log, files_log in Hfiles, Hwas.
    assert (site this wa fpath = site this w fpath) as Hsite by (by apply site_cwd).
    rewrite Hsite in *.
    destruct Hs as [Hs | [[=] _]].
    destruct Hwas as [[_ Hp]|[c Hc]]; [|congruence].
    assert (files wa !! site this w fpath = None) as Hnone.
    { destruct (site this w fpath) as [|n p]; [simpl in *; congruence|].
      simpl in Hp. rewrite (lookup_below _ _ _ Hp) in Hs.
      by destruct (files wa !! (n :: p)). }
    assert (files wa ⊆ files w1) as Hsub.
    { rewrite Hfiles. by apply insert_subseteq. }
    destruct (mkdirp_replay this _ _ _ _ _ w1 H1 Hsub) as [v' H2]; [congruence|].
    assert (Os.lookup (files w1) (site this w fpath)
            = Ok (File (document_text fpath (default (JObj []) v1)))) as Hfile.
    { rewrite Hfiles. apply lookup_insert_at. by right. }
    split; [|by apply lookup_entry].
    unfold writep. rewrite H2.
    rewrite (stat_file _ _ _ (document_text fpath (default (JObj []) v1))).
    + rewrite Htr. simpl. unfold log. simpl. by rewrite <- !app_assoc.
    + rewrite !site_log, !files_log.
      rewrite (site_cwd this w w1) by congruence. done.
Qed.

(** An instance: the document [a/b/doc.json] in the empty store, first
    with [x] set to 1, then with [x] set to 2. *)
Lemma writep_twice_keeps_first_witness :
  ∃ w1,
    writep 3 store "a/b/doc.json" (Some (JObj [("x", JNum 1)])) fresh
    = Some (Fulfilled VUndefined, w1)
    ∧ writep 1 store "a/b/doc.json" (Some (JObj [("x", JNum 2)])) w1
      = Some (Fulfilled (VNumber 1),
              World (files w1) (cwd w1)
                (trace w1 ++ [Call SMkdir (full store (Path.dirname "a/b/doc.json"));
                              Call SStat (full store (Path.dirname "a/b/doc.json"));
                              Call SStat (full store "a/b/doc.json")]))
    ∧ files w1 !! site store fresh "a/b/doc.json"
      = Some (File (document_text "a/b/doc.json"
                      (default (JObj []) (Some (JObj [("x", JNum 1)]))))).
Proof.
  destruct (writep 3 store "a/b/doc.json" (Some (JObj [("x", JNum 1)])) fresh)
    as [[o w1]|] eqn:H; [|by vm_compute in H].
  assert (o = Fulfilled VUndefined) as ->.
  { apply (f_equal (option_map fst)) in H. vm_compute in H. congruence. }
  exists w1. split; [done|].
  apply (writep_twice_keeps_first store 3 "a/b/doc.json" _ _ fresh w1 H).
Defined.


(** ** C6: [mkdirp] twice *)

(** C6.  If [mkdirp] answered 1, a second call on the same path answers 1
    as well: its [mkdir] fails, the [stat] that follows finds the
    directory, and the tree is left as it was.  If the [stat] finds
    something that is not a directory, the promise is fulfilled with the
    error of the [mkdir], EEXIST. *)
Theorem mkdirp_idempotent (this : FileServer) (dpath : string) (w : world) :
  (∀ fuel w1,
     mkdirp fuel this dpath w = Some (Fulfilled (VNumber 1), w1) →
     mkdirp 1 this dpath w1
     = Some (Fulfilled (VNumber 1),
             World (files w1) (cwd w1)
               (trace w1 ++ [Call SMkdir (full this dpath);
                             Call SStat (full this dpath)])))
  ∧ (∀ fuel stt w',
       stat this dpath w = (Fulfilled stt, w') → isDirectory stt = false →
       mkdirp (S fuel) this dpath w
       = Some (Fulfilled (VError EEXIST),
               World (files w) (cwd w)
                 (trace w ++ [Call SMkdir (full this dpath);
                              Call SStat (full this dpath)]))).
Proof.
  split.
  - intros fuel w1 H.
    destruct (mkdirp_settled _ _ _ _ _ _ H) as (_ & Hcwd & _ & _ & _ & Hdir).
    specialize (Hdir eq_refl). rewrite <- (site_cwd this w w1) in Hdir by done.
    rewrite (mkdirp_existing _ _ _ _ Hdir). unfold log. simpl.
    by rewrite <- app_assoc.
  - intros fuel stt w' Hstat Hnot.
    destruct (stat_cases this w dpath) as
      [(Hs & Heq) | [(c & Hs & Htr & Heq) | (e & Heq & Hs)]];
      rewrite Heq in Hstat; inversion Hstat; subst; [done|].
    rewrite mkdirp_unfold, (mkdir_exists _ _ _ _ Hs).
    rewrite (stat_file _ _ _ c) by done. rewrite Htr. simpl.
    unfold log. simpl. by rewrite <- app_assoc.
Qed.

(** Instances: [a/b] provisioned twice in the empty store, and [a] where a
    file has that name. *)
Lemma mkdirp_idempotent_witness :
  (∃ w1, mkdirp 3 store "a/b" fresh = Some (Fulfilled (VNumber 1), w1)
         ∧ mkdirp 1 store "a/b" w1
           = Some (Fulfilled (VNumber 1),
                   World (files w1) (cwd w1)
                     (trace w1 ++ [Call SMkdir (full store "a/b");
                                   Call SStat (full store "a/b")])))
  ∧ mkdirp 1 store "a" blocked
    = Some (Fulfilled (VError EEXIST),
            World (files blocked) (cwd blocked)
              (trace blocked ++ [Call SMkdir (full store "a");
                                 Call SStat (full store "a")])).
Proof.
  split.
  - destruct (mkdirp 3 store "a/b" fresh) as [[o w1]|] eqn:H; [|by vm_compute in H].
    assert (o = Fulfilled (VNumber 1)) as ->.
    { apply (f_equal (option_map fst)) in H. vm_compute in H. congruence. }
    exists w1. split; [done|].
    apply (proj1 (mkdirp_idempotent store "a/b" fresh) 3 w1 H).
  - apply (proj2 (mkdirp_idempotent store "a" blocked) 0
             {| isFile := true; isDirectory := false |}
             (log (Call SStat (full store "a")) blocked)).
    + vm_compute. reflexivity.
    + reflexivity.
Defined.

(** ** C7: [write] and [writep] when the parent directory is missing *)

(** C7, at the failing input.  The store is rooted at [/srv/db] and nothing
    but [/] exists.  The parent of [doc.json] is missing and [write] is
    rejected with ENOENT, as claimed; but [writep] never settles: [mkdirp]
    of ["."] fails with ENOENT on [/srv/db] and calls itself on
    [dirname(".")], which is ["."] again. *)
Theorem writep_missing_root_never_settles :
  fst (write remote "doc.json" (JObj []) bare) = Rejected ENOENT
  ∧ ∀ fuel, writep fuel remote "doc.json" (Some (JObj [])) bare = None.
Proof.
  split; [by vm_compute|].
  intros fuel. unfold writep. change (Path.dirname "doc.json") with ".".
  rewrite mkdirp_dot_never_settles; [done | by vm_compute | by vm_compute].
Qed.

(** ** C8: the write notification comes first *)

(** C8.  Whatever comes of it, [write] appends to the trace the [write]
    notification, with the path and the value as given, and then the call
    of [writeFileSync]; in particular the notification is there when the
    promise is rejected. *)
Theorem write_notifies_before_writing (this : FileServer) (fpath : string)
    (data : json) (w : world) :
  trace (snd (write this fpath data w))
  = trace w ++ [Emit "write" fpath (Some data);
                Call (SWriteFile (document_text fpath data)) (full this fpath)]
  ∧ ∀ e, fst (write this fpath data w) = Rejected e →
         Emit "write" fpath (Some data) ∈ trace (snd (write this fpath data w)).
Proof.
  split; [apply write_trace|].
  intros e _. rewrite write_trace. apply elem_of_app. right. by left.
Qed.

(** An instance: the parent of [a/doc.json] is missing, the write is
    rejected, the notification has been emitted. *)
Lemma write_notifies_before_writing_witness :
  fst (write store "a/doc.json" JNull fresh) = Rejected ENOENT
  ∧ Emit "write" "a/doc.json" (Some JNull)
      ∈ trace (snd (write store "a/doc.json" JNull fresh)).
Proof.
  split; [by vm_compute|].
  apply (proj2 (write_notifies_before_writing store "a/doc.json" JNull fresh) ENOENT).
  by vm_compute.
Defined.

(** ** C9: paths and the store root *)

(** C9, counterexample.  With a parent-traversal segment the resolved path
    leaves the root: the store rooted at [/data] reads [/etc/passwd]. *)
Lemma join_escapes_root_counterexample :
  Path.join (dirpath store) "../etc/passwd" = "/etc/passwd"
  ∧ ¬ (root_site store exposed `suffix_of` site store exposed "../etc/passwd")
  ∧ fst (read store "../etc/passwd" exposed) = Fulfilled (JStr "root:x:0:0").
Proof.
  split_and!; [by vm_compute | | by vm_compute].
  intros [k Hk]. vm_compute in Hk.
  apply (f_equal (@rev string)) in Hk. rewrite rev_app_distr in Hk. simpl in Hk.
  discriminate.
Qed.

(** C9, as amended.  For a path without parent-traversal segments the
    resolved path is at or below the store root. *)
Theorem join_stays_under_root (this : FileServer) (w : world) (path : string) :
  no_up path → root_site this w `suffix_of` site this w path.
Proof. intros Hup. rewrite site_step. by apply fold_step_keeps_root. Qed.

(** An instance: empty and [.] segments are harmless. *)
Lemma join_stays_under_root_witness :
  root_site store fresh `suffix_of` site store fresh "a/./b//doc.json".
Proof.
  apply (join_stays_under_root store fresh "a/./b//doc.json").
  unfold no_up. vm_compute. intros H. apply list_elem_of_In in H. simpl in H.
  intuition discriminate.
Defined.

(** ** C10: how the promise of [mkdirp] settles *)

(** C10, at the failing input.  With the store rooted at [/srv/db] and
    nothing but [/] there, the promise of [mkdirp] is neither fulfilled nor
    rejected: on ["."] the call fails with ENOENT and calls itself on
    [dirname(".")], which is ["."] again. *)
Theorem mkdirp_missing_root_never_settles :
  ∀ fuel, mkdirp fuel remote "reports" bare = None.
Proof.
  intros [|fuel]; [done|].
  rewrite mkdirp_unfold, (mkdir_missing remote bare "reports");
    [| by vm_compute | by vm_compute].
  change (Path.dirname "reports") with ".".
  rewrite mkdirp_dot_never_settles; [done | by vm_compute | by vm_compute].
Qed.

(** Apart from that, the promise of [mkdirp] is never rejected, it settles
    whenever the store root is in place, and a failure is handed over as
    the value it is fulfilled with. *)
Theorem mkdirp_never_rejects (this : FileServer) (dpath : string) (w : world) :
  (∀ fuel o w', mkdirp fuel this dpath w = Some (o, w') → ∃ v, o = Fulfilled v)
  ∧ (root_ok this w → ∃ fuel v w', mkdirp fuel this dpath w = Some (Fulfilled v, w'))
  ∧ (∀ c, Os.lookup (files w) (site this w dpath) = Ok (File c) →
          ∃ e w', mkdirp 1 this dpath w = Some (Fulfilled (VError e), w')).
Proof.
  split_and!.
  - intros fuel o w' H. by destruct (mkdirp_settled _ _ _ _ _ _ H) as (Hv & _).
  - apply mkdirp_settles.
  - intros c Hl. rewrite mkdirp_unfold, (mkdir_exists _ _ _ _ Hl).
    rewrite (stat_file _ _ _ c) by done.
    destruct (Path.trailingSeparator _); eauto.
Qed.


(** ** Results and the worlds they come with *)

Lemma pair_of_fst {A B} (x : A * B) (a : A) : fst x = a → x = (a, snd x).
Proof. intros <-. by destruct x. Qed.

Lemma settled_with {A B} (x : option (A * B)) (a : A) :
  option_map fst x = Some a → ∃ b, x = Some (a, b).
Proof. destruct x as [[a' b]|]; [|done]. intros [= <-]. by exists b. Qed.

(** ** The entries of a directory *)

Lemma elem_of_children fs (l : loc) (a : string) :
  a ∈ Os.children fs l ↔ entry_of fs l a.
Proof.
  unfold Os.children, entry_of. rewrite list_elem_of_omap. split.
  - intros ([k n] & Hin & Hf). apply elem_of_map_to_list in Hin. simpl in Hf.
    destruct k as [|name parent]; [done|].
    destruct (decide (parent = l)) as [->|]; [|done].
    injection Hf as ->. eauto.
  - intros [n Hn]. exists (a :: l, n). split; [by apply elem_of_map_to_list|].
    simpl. by rewrite decide_True.
Qed.

Lemma NoDup_omap_inj {A B} (g : A → option B) (l : list A) :
  (∀ x y z, g x = Some z → g y = Some z → x = y) →
  NoDup l → NoDup (omap g l).
Proof.
  intros Hinj. induction 1 as [|x l Hx Hl IH]; simpl; [constructor|].
  destruct (g x) as [z|] eqn:Hz; [|done].
  constructor; [|done].
  rewrite list_elem_of_omap. intros (y & Hy & Hgy).
  by rewrite (Hinj _ _ _ Hz Hgy) in Hx.
Qed.

Lemma NoDup_children fs (l : loc) : NoDup (Os.children fs l).
Proof.
  unfold Os.children.
  set (g := λ k : loc, match k with
                       | name :: parent => if decide (parent = l) then Some name else None
                       | [] => None
                       end).
  change (NoDup (omap (λ entry : loc * node, g (fst entry)) (map_to_list fs))).
  assert (omap (λ entry : loc * node, g (fst entry)) (map_to_list fs)
          = omap g ((map_to_list fs).*1)) as ->.
  { induction (map_to_list fs) as [|e es IH]; [done|].
    cbn [omap list_omap fmap list_fmap]. by rewrite <- IH. }
  apply NoDup_omap_inj; [|apply NoDup_fst_map_to_list].
  intros [|x px] [|y py] z; simpl; try done.
  destruct (decide (px = l)) as [->|]; [|done].
  destruct (decide (py = l)) as [->|]; [|done].
  congruence.
Qed.

Lemma children_nil fs (l : loc) :
  Os.children fs l = [] ↔ ∀ a, fs !! (a :: l) = None.
Proof.
  split.
  - intros Hnil a. destruct (fs !! (a :: l)) as [n|] eqn:Hn; [|done].
    assert (a ∈ Os.children fs l) as Hin by (apply elem_of_children; red; eauto).
    rewrite Hnil in Hin. by apply elem_of_nil in Hin.
  - intros Hnone. destruct (Os.children fs l) as [|a rest] eqn:Hc; [done|].
    assert (a ∈ Os.children fs l) as Hin by (rewrite Hc; by left).
    apply elem_of_children in Hin. destruct Hin as [n Hn].
    by rewrite Hnone in Hn.
Qed.

(** ** Names and their endings *)

Lemma endsWith_suffix (s suffix : string) :
  endsWith s suffix = true ↔ ∃ pre, s = pre +:+ suffix.
Proof.
  split.
  - induction s as [|c s IH].
    + destruct suffix; [|done]. by exists "".
    + cbn [endsWith]. destruct (String.eqb_spec (String c s) suffix) as [<-|].
      * by exists "".
      * intros H. destruct (IH H) as [pre ->]. exists (String c pre).
        by rewrite append_cons.
  - intros [pre ->]. induction pre as [|c pre IH].
    + rewrite append_nil. destruct suffix; cbn [endsWith]; by rewrite ?String.eqb_refl.
    + rewrite append_cons. cbn [endsWith]. rewrite IH. by destruct (String.eqb _ _).
Qed.

Lemma endsWith_dot (a ext : string) :
  endsWith a (String "." ext) = true → ¬ dotless a.
Proof.
  intros H Hd. apply endsWith_suffix in H as [pre ->]. apply Hd.
  rewrite chars_app. apply elem_of_app. right. by left.
Qed.

Lemma dotless_forallb (a : string) :
  forallb (λ c, negb (Ascii.eqb c "."%char)) (chars a) = true ↔ dotless a.
Proof.
  unfold dotless. rewrite forallb_forall. split.
  - intros H Hin. apply list_elem_of_In in Hin. specialize (H _ Hin).
    by rewrite Ascii.eqb_refl in H.
  - intros H c Hin. destruct (Ascii.eqb_spec c "."%char) as [->|]; [|done].
    exfalso. apply H. by apply list_elem_of_In.
Qed.

(** ** Removing an entry *)

Lemma lookup_delete_shorter fs (l k : loc) :
  length k < length l → Os.lookup (delete l fs) k = Os.lookup fs k.
Proof.
  induction k as [|c p IH]; intros Hlen; simpl.
  - rewrite lookup_delete_ne; [done|]. intros ->. simpl in Hlen. lia.
  - simpl in Hlen. rewrite IH by lia.
    rewrite lookup_delete_ne; [done|]. intros ->. simpl in Hlen. lia.
Qed.

Lemma lookup_delete_at fs (l : loc) n :
  Os.lookup fs l = Ok n → Os.lookup (delete l fs) l = Err ENOENT.
Proof.
  destruct l as [|c p]; simpl.
  - intros _. by rewrite lookup_delete_eq.
  - destruct (Os.lookup fs p) as [[]|] eqn:Hp; [done | | done]. intros _.
    rewrite lookup_delete_shorter by (simpl; lia).
    by rewrite Hp, lookup_delete_eq.
Qed.

Lemma missing_entry fs (l : loc) :
  Os.lookup fs l = Err ENOENT → Os.lookup fs (tail l) = Ok Dir → fs !! l = None.
Proof.
  destruct l as [|c p]; simpl.
  - intros H1 H2. congruence.
  - intros H1 H2. rewrite H2 in H1. by destruct (fs !! (c :: p)).
Qed.

Lemma target_log a w path : Os.target (log a w) path = Os.target w path.
Proof. done. Qed.

Lemma insert_file_dirs (fs : gmap loc node) (l k : loc) (c : string) :
  fs !! l ≠ Some Dir → (<[l := File c]> fs !! k = Some Dir ↔ fs !! k = Some Dir).
Proof.
  intros Hl. destruct (decide (k = l)) as [->|Hne].
  - rewrite lookup_insert_eq. split; [done | by intros H].
  - by rewrite lookup_insert_ne.
Qed.

Lemma read_error (this : FileServer) w p e :
  Os.lookup (files w) (site this w p) = Err e →
  read this p w = (Rejected e, log (Call SReadFile (full this p)) w).
Proof. unfold read, Os.readFile, site. by intros ->. Qed.

(** ** Testing a tree *)

Lemma tree_okb_sound fs : tree_okb fs = true → tree_ok fs.
Proof.
  unfold tree_okb. rewrite forallb_forall. intros H name parent n Hn.
  specialize (H (name :: parent, n)). simpl in H.
  destruct (fs !! parent) as [[]|]; try done;
    discriminate H; by apply list_elem_of_In, elem_of_map_to_list.
Qed.

Lemma properb_sound seg : properb seg = true → proper seg.
Proof.
  unfold properb, proper. rewrite !andb_true_iff, !negb_true_iff.
  intros [[H1 H2] H3]. split_and!; intros ->; done.
Qed.

Lemma slash_freeb_sound s : slash_freeb s = true → slash_free s.
Proof.
  unfold slash_freeb, slash_free. rewrite forallb_forall, List.Forall_forall.
  intros H c Hc. specialize (H c Hc). by apply negb_true_iff in H.
Qed.


(** ** [rmdir], [del] and [readdir] in terms of the tree *)

Section removal.
Context (this : FileServer).

Lemma rmdir_empty w d :
  Os.lookup (files w) (site this w d) = Ok Dir →
  site this w d ≠ [] →
  (∀ a, files w !! (a :: site this w d) = None) →
  rmdir this d w
  = (Fulfilled tt,
     with_files (delete (site this w d) (files w)) (log (Call SRmdir (full this d)) w)).
Proof.
  intros Hl Hne Hnone. apply children_nil in Hnone.
  unfold rmdir, Os.rmdir.
  change (Os.target w (Path.join (dirpath this) d)) with (site this w d).
  rewrite Hl. destruct (site this w d) as [|c p]; [done|]. by rewrite Hnone.
Qed.




End removal.

(** * Further properties of the file server *)

(** ** [list] and [listdir] *)

(** X1.  On an existing directory [list] answers with the entries whose
    name does not start with a dot and ends in [.json] or [.js], each
    once, whatever kind of entry they are; the only thing it does is the
    one [readdir]. *)
Theorem list_entries (this : FileServer) (dpath : string) (w : world) :
  Os.lookup (files w) (site this w dpath) = Ok Dir →
  ∃ names,
    list_ this dpath w = (Fulfilled names, log (Call SReaddir (full this dpath)) w)
    ∧ NoDup names
    ∧ ∀ a, a ∈ names ↔
           entry_of (files w) (site this w dpath) a
           ∧ String.prefix "." a = false
           ∧ (endsWith a ".json" = true ∨ endsWith a ".js" = true).
Proof.
  intros Hl. unfold list_, Os.readdir. fold (site this w dpath). rewrite Hl.
  eexists. split; [done|]. split.
  - apply NoDup_filter, NoDup_children.
  - intros a. rewrite list_elem_of_filter, elem_of_children.
    rewrite andb_true_iff, negb_true_iff, orb_true_iff. tauto.
Qed.

(** An instance: the directory [users], which holds two documents, a
    script, a hidden file, a text, a file without extension and
    directories. *)
Lemma list_entries_witness :
  ∃ names,
    list_ store "users" stocked
    = (Fulfilled names, log (Call SReaddir (full store "users")) stocked)
    ∧ NoDup names
    ∧ ∀ a, a ∈ names ↔
           entry_of (files stocked) (site store stocked "users") a
           ∧ String.prefix "." a = false
           ∧ (endsWith a ".json" = true ∨ endsWith a ".js" = true).
Proof. apply (list_entries store "users" stocked). vm_compute. reflexivity. Defined.

(** X2.  On an existing directory [listdir] answers with the entries
    whose name has no dot in it, each once: a file without extension is
    among them, a directory with a dot in its name is not. *)
Theorem listdir_entries (this : FileServer) (dpath : string) (w : world) :
  Os.lookup (files w) (site this w dpath) = Ok Dir →
  ∃ names,
    listdir this dpath w = (Fulfilled names, log (Call SReaddir (full this dpath)) w)
    ∧ NoDup names
    ∧ (∀ a, a ∈ names ↔ entry_of (files w) (site this w dpath) a ∧ dotless a)
    ∧ (∀ a c, files w !! (a :: site this w dpath) = Some (File c) → dotless a →
              a ∈ names)
    ∧ (∀ a, files w !! (a :: site this w dpath) = Some Dir → ¬ dotless a →
            a ∉ names).
Proof.
  intros Hl. unfold listdir, Os.readdir. fold (site this w dpath). rewrite Hl.
  eexists. split; [done|]. split; [apply NoDup_filter, NoDup_children|].
  assert (∀ a, a ∈ filter (λ a, forallb (λ c, negb (Ascii.eqb c ".")) (chars a) = true)
                     (Os.children (files w) (site this w dpath))
               ↔ entry_of (files w) (site this w dpath) a ∧ dotless a) as Hiff.
  { intros a. rewrite list_elem_of_filter, elem_of_children, dotless_forallb. tauto. }
  split_and!; [done | |].
  - intros a c Hc Hd. apply Hiff. split; [red; eauto | done].
  - intros a _ Hd Hin. apply Hiff in Hin. tauto.
Qed.

(** An instance: the same directory. *)
Lemma listdir_entries_witness :
  ∃ names,
    listdir store "users" stocked
    = (Fulfilled names, log (Call SReaddir (full store "users")) stocked)
    ∧ NoDup names
    ∧ (∀ a, a ∈ names
            ↔ entry_of (files stocked) (site store stocked "users") a ∧ dotless a)
    ∧ (∀ a c, files stocked !! (a :: site store stocked "users") = Some (File c) →
              dotless a → a ∈ names)
    ∧ (∀ a, files stocked !! (a :: site store stocked "users") = Some Dir →
            ¬ dotless a → a ∉ names).
Proof. apply (listdir_entries store "users" stocked). vm_compute. reflexivity. Defined.

(** X3.  No name is answered by both [list] and [listdir] of a directory,
    and a name with a dot that ends in neither [.json] nor [.js] is
    answered by neither. *)
Theorem list_listdir_apart (this : FileServer) (dpath : string) (w w1 w2 : world)
    (l1 l2 : list string) :
  list_ this dpath w = (Fulfilled l1, w1) →
  listdir this dpath w = (Fulfilled l2, w2) →
  ∀ a, (a ∈ l1 → a ∉ l2)
       ∧ (¬ dotless a → endsWith a ".json" = false → endsWith a ".js" = false →
          (a ∉ l1) ∧ (a ∉ l2)).
Proof.
  unfold list_, listdir.
  destruct (Os.readdir (Path.join (dirpath this) dpath) w) as [[names|e] w'];
    [|done].
  intros [= <- _] [= <- _] a.
  rewrite !list_elem_of_filter, dotless_forallb.
  rewrite andb_true_iff, negb_true_iff, orb_true_iff. split.
  - intros [(_ & [H|H]) _] [Hd _]; by apply endsWith_dot in H.
  - intros Hd -> ->. split; intros [H _]; [|done].
    destruct H as (_ & [|]); done.
Qed.

(** An instance: [ann.json] in [users] is answered by [list], so it is not
    answered by [listdir]. *)
Lemma list_listdir_apart_witness :
  "ann.json" ∈ ["hooks.js"; "ann.json"; "bob.json"]
  ∧ "ann.json" ∉ ["archive"; "README"].
Proof.
  assert ("ann.json" ∈ ["hooks.js"; "ann.json"; "bob.json"]) as Hin
    by (right; left).
  split; [done|].
  assert (list_ store "users" stocked
          = (Fulfilled ["hooks.js"; "ann.json"; "bob.json"],
             snd (list_ store "users" stocked))) as H1
    by (apply pair_of_fst; vm_compute; reflexivity).
  assert (listdir store "users" stocked
          = (Fulfilled ["archive"; "README"],
             snd (listdir store "users" stocked))) as H2
    by (apply pair_of_fst; vm_compute; reflexivity).
  destruct (list_listdir_apart store "users" stocked _ _ _ _ H1 H2 "ann.json")
    as [Hfirst _].
  exact (Hfirst Hin).
Defined.

(** X4.  Where there is no directory to read, [list] and [listdir] are
    rejected alike, with the error of [readdir]: ENOENT when the path does
    not exist, ENOTDIR when it is a file. *)
Theorem listing_rejected (this : FileServer) (dpath : string) (w : world) (e : errno) :
  Os.lookup (files w) (site this w dpath) = Err e
  ∨ e = ENOTDIR ∧ (∃ c, Os.lookup (files w) (site this w dpath) = Ok (File c)) →
  list_ this dpath w = (Rejected e, log (Call SReaddir (full this dpath)) w)
  ∧ listdir this dpath w = (Rejected e, log (Call SReaddir (full this dpath)) w).
Proof.
  unfold list_, listdir, Os.readdir. fold (site this w dpath).
  intros [-> | (-> & c & ->)]; done.
Qed.

(** Instances: a directory that is not there, and a document. *)
Lemma listing_rejected_witness :
  (list_ store "ghosts" stocked
   = (Rejected ENOENT, log (Call SReaddir (full store "ghosts")) stocked)
   ∧ listdir store "ghosts" stocked
     = (Rejected ENOENT, log (Call SReaddir (full store "ghosts")) stocked))
  ∧ (list_ store "users/ann.json" stocked
     = (Rejected ENOTDIR, log (Call SReaddir (full store "users/ann.json")) stocked)
     ∧ listdir store "users/ann.json" stocked
       = (Rejected ENOTDIR, log (Call SReaddir (full store "users/ann.json")) stocked)).
Proof.
  split.
  - apply (listing_rejected store "ghosts" stocked ENOENT). left. vm_compute. reflexivity.
  - apply (listing_rejected store "users/ann.json" stocked ENOTDIR). right.
    split; [reflexivity|]. exists "{}". vm_compute. reflexivity.
Defined.

(** ** [read], [write] and [del] *)

(** X5.  [read] changes nothing in the tree.  When it succeeds it has
    called [readFile] and then emitted the [read] notification with the
    path and the value it answers; when it is rejected it has emitted
    nothing. *)
Theorem read_notifies_on_success (this : FileServer) (fpath : string) (w : world) :
  files (snd (read this fpath w)) = files w
  ∧ match fst (read this fpath w) with
    | Fulfilled v =>
        trace (snd (read this fpath w))
        = trace w ++ [Call SReadFile (full this fpath); Emit "read" fpath (Some v)]
    | Rejected _ =>
        trace (snd (read this fpath w))
        = trace w ++ [Call SReadFile (full this fpath)]
    end.
Proof.
  unfold read, Os.readFile, full.
  destruct (Os.lookup _ _) as [[c|]|e]; simpl; try done.
  destruct (Path.trailingSeparator _); simpl; [done|].
  split; [done|]. by rewrite <- app_assoc.
Qed.

(** X6.  [del] emits the [delete] notification and then calls [unlink],
    whatever comes of it.  It is fulfilled only for a file, which is then
    gone; a rejected [del] leaves the tree as it was, the notification
    emitted all the same. *)
Theorem del_notifies_first (this : FileServer) (fpath : string) (w : world) :
  trace (snd (del this fpath w))
  = trace w ++ [Emit "delete" fpath None; Call SUnlink (full this fpath)]
  ∧ (fst (del this fpath w) = Fulfilled tt →
     (∃ c, Os.lookup (files w) (site this w fpath) = Ok (File c))
     ∧ files (snd (del this fpath w)) = delete (site this w fpath) (files w))
  ∧ (∀ e, fst (del this fpath w) = Rejected e →
          files (snd (del this fpath w)) = files w).
Proof.
  unfold del, Os.unlink, full, emit. rewrite target_log, files_log.
  fold (site this w fpath).
  destruct (Os.lookup _ _) as [[c|]|e]; simpl.
  - destruct (Path.trailingSeparator _); simpl;
      (split_and!; [by rewrite <- app_assoc | try done; eauto | done]).
  - split_and!; [by rewrite <- app_assoc | done | done].
  - split_and!; [by rewrite <- app_assoc | done | done].
Qed.

(** An instance: deleting the directory [users] is refused. *)
Lemma del_notifies_first_witness :
  fst (del store "users" stocked) = Rejected EISDIR
  ∧ files (snd (del store "users" stocked)) = files stocked
  ∧ trace (snd (del store "users" stocked))
    = [Emit "delete" "users" None; Call SUnlink "/data/users"].
Proof.
  split; [by vm_compute|]. split.
  - apply (proj2 (proj2 (del_notifies_first store "users" stocked)) EISDIR).
    by vm_compute.
  - apply (proj1 (del_notifies_first store "users" stocked)).
Defined.

(** X7.  A document that has been written and is then deleted is gone:
    [del] is fulfilled, [read] and [stat] are rejected with ENOENT, and if
    the document was new the tree is the one before the write. *)
Theorem write_del_read (this : FileServer) (fpath : string) (data : json)
    (w w1 : world) :
  write this fpath data w = (Fulfilled tt, w1) →
  ∃ w2,
    del this fpath w1 = (Fulfilled tt, w2)
    ∧ fst (read this fpath w2) = Rejected ENOENT
    ∧ fst (stat this fpath w2) = Rejected ENOENT
    ∧ (Os.lookup (files w) (site this w fpath) = Err ENOENT → files w2 = files w).
Proof.
  intros Hw. pose proof (write_cwd this fpath data w) as Hcwd. rewrite Hw in Hcwd.
  simpl in Hcwd.
  destruct (write_fulfilled _ _ _ _ _ Hw) as (Htr & Hfiles & Hwas).
  set (l := site this w fpath) in *.
  assert (site this w1 fpath = l) as Hsite by (by apply site_cwd).
  assert (Os.lookup (files w1) l = Ok (File (document_text fpath data))) as Hl.
  { rewrite Hfiles. apply lookup_insert_at.
    destruct Hwas as [[_ Hp]|[c Hc]]; [by right|].
    apply lookup_tail in Hc. destruct Hc; auto. }
  unfold del, Os.unlink, emit. rewrite target_log, files_log.
  change (Os.target w1 (Path.join (dirpath this) fpath)) with (site this w1 fpath).
  fold (full this fpath) in *. rewrite Hsite, Hl, Htr.
  eexists. split; [done|]. simpl.
  set (w2 := with_files _ _).
  assert (Os.lookup (files w2) (site this w2 fpath) = Err ENOENT) as Hgone.
  { rewrite (site_cwd this w1 w2) by done. rewrite Hsite. by eapply lookup_delete_at. }
  split_and!.
  - by rewrite (read_error _ _ _ _ Hgone).
  - by rewrite (stat_error _ _ _ _ Hgone).
  - intros Hnew. unfold w2. simpl. rewrite Hfiles. apply delete_insert_id.
    destruct Hwas as [[_ Hp]|[c Hc]]; [|congruence].
    by apply missing_entry.
Qed.

(** An instance: a new document in [users]. *)
Lemma write_del_read_witness :
  ∃ w2,
    del store "users/cy.json" (snd (write store "users/cy.json" JNull stocked))
    = (Fulfilled tt, w2)
    ∧ fst (read store "users/cy.json" w2) = Rejected ENOENT
    ∧ fst (stat store "users/cy.json" w2) = Rejected ENOENT
    ∧ (Os.lookup (files stocked) (site store stocked "users/cy.json") = Err ENOENT →
       files w2 = files stocked).
Proof.
  apply (write_del_read store "users/cy.json" JNull stocked).
  apply pair_of_fst. vm_compute. reflexivity.
Defined.

(** X8.  [write] replaces what a document held: after two writes to a
    [.json] path, the second of a value JSON carries, [read] answers the
    second value. *)
Theorem write_twice_keeps_last (this : FileServer) (fpath : string) (v1 v2 : json)
    (w w1 : world) :
  endsWith fpath ".json" = true → json_wf v2 →
  write this fpath v1 w = (Fulfilled tt, w1) →
  ∃ w2,
    write this fpath v2 w1 = (Fulfilled tt, w2)
    ∧ fst (read this fpath w2) = Fulfilled v2.
Proof.
  intros Hext Hwf Hw. pose proof (write_cwd this fpath v1 w) as Hcwd.
  rewrite Hw in Hcwd. simpl in Hcwd.
  destruct (write_fulfilled _ _ _ _ _ Hw) as (Htr & Hfiles & Hwas).
  set (l := site this w fpath) in *.
  assert (site this w1 fpath = l) as Hsite by (by apply site_cwd).
  assert (Os.lookup (files w1) l = Ok (File (document_text fpath v1))) as Hl.
  { rewrite Hfiles. apply lookup_insert_at.
    destruct Hwas as [[_ Hp]|[c Hc]]; [by right|].
    apply lookup_tail in Hc. destruct Hc; auto. }
  assert (∃ w2, write this fpath v2 w1 = (Fulfilled tt, w2)) as [w2 Hw2].
  { unfold write, Os.writeFile, emit. rewrite target_log, files_log.
    change (Os.target w1 (Path.join (dirpath this) fpath)) with (site this w1 fpath).
    fold (full this fpath) in *. rewrite Hsite, Hl, Htr. eauto. }
  exists w2. split; [done|].
  rewrite (read_after_write _ _ _ _ _ Hw2).
  unfold document_text, decoded. by rewrite Hext, parse_stringify.
Qed.

(** An instance: [ann.json] written twice. *)
Lemma write_twice_keeps_last_witness :
  ∃ w2,
    write store "users/ann.json" (JObj [("age", JNum 31)])
      (snd (write store "users/ann.json" (JObj [("age", JNum 30)]) stocked))
    = (Fulfilled tt, w2)
    ∧ fst (read store "users/ann.json" w2) = Fulfilled (JObj [("age", JNum 31)]).
Proof.
  apply (write_twice_keeps_last store "users/ann.json"
           (JObj [("age", JNum 30)]) (JObj [("age", JNum 31)]) stocked).
  - reflexivity.
  - simpl. split_and!; try done; try lia.
    apply NoDup_cons. split; [apply not_elem_of_nil | apply NoDup_nil_2].
  - apply pair_of_fst. vm_compute. reflexivity.
Defined.

(** X9.  [write] touches nothing but the entry at its path, and that one
    only when it succeeds: a rejected [write] leaves the tree as it was,
    and no directory is ever made or removed by it. *)
Theorem write_touches_one_entry (this : FileServer) (fpath : string) (data : json)
    (w : world) :
  (∀ k, k ≠ site this w fpath →
        files (snd (write this fpath data w)) !! k = files w !! k)
  ∧ (∀ e, fst (write this fpath data w) = Rejected e →
          files (snd (write this fpath data w)) = files w)
  ∧ (∀ k, files (snd (write this fpath data w)) !! k = Some Dir
          ↔ files w !! k = Some Dir).
Proof.
  unfold write, Os.writeFile, emit. rewrite target_log, files_log.
  fold (site this w fpath).
  set (l := site this w fpath).
  destruct (Os.lookup (files w) l) as [[c|]|e] eqn:Hl.
  - apply lookup_entry in Hl.
    destruct (Path.trailingSeparator _); simpl; [done|].
    split_and!; [by intros k Hk; rewrite lookup_insert_ne | done |].
    intros k. apply insert_file_dirs. congruence.
  - done.
  - destruct e; try done.
    destruct (Os.lookup (files w) (tail l)) as [[c|]|e] eqn:Hp; try done.
    apply missing_entry in Hl; [|done].
    destruct (Path.trailingSeparator _); simpl; [done|].
    split_and!; [by intros k Hk; rewrite lookup_insert_ne | done |].
    intros k. apply insert_file_dirs. congruence.
Qed.

(** An instance: a write into a directory that is not there. *)
Lemma write_touches_one_entry_witness :
  fst (write store "ghosts/doc.json" JNull stocked) = Rejected ENOENT
  ∧ files (snd (write store "ghosts/doc.json" JNull stocked)) = files stocked.
Proof.
  split; [by vm_compute|].
  apply (proj1 (proj2 (write_touches_one_entry store "ghosts/doc.json" JNull stocked))
           ENOENT).
  by vm_compute.
Defined.

(** ** [mkdir], [rmdir] and [stat] *)

(** X10.  In a well-formed tree, a directory made by [mkdir] is removed
    again by [rmdir], and the tree is then the one before the [mkdir]. *)
Theorem mkdir_rmdir_restores (this : FileServer) (dpath : string) (w w1 : world) :
  tree_ok (files w) →
  mkdir this dpath w = (Fulfilled tt, w1) →
  ∃ w2, rmdir this dpath w1 = (Fulfilled tt, w2) ∧ files w2 = files w.
Proof.
  intros Hok Hmk.
  destruct (mkdir_cases this w dpath) as
    [(n & _ & H) | [(_ & H) | [(Hl & Hp & H) | (_ & _ & H)]]];
    rewrite H in Hmk; try done.
  injection Hmk as <-.
  set (l := site this w dpath) in *.
  assert (files w !! l = None) as Hnone by (by apply missing_entry).
  assert (l ≠ []) as Hne.
  { intros Heq. rewrite Heq in Hl, Hp. cbn [tail] in Hp. congruence. }
  set (w1 := with_files _ _).
  assert (site this w1 dpath = l) as Hsite by (by apply site_cwd).
  rewrite rmdir_empty; rewrite ?Hsite; unfold w1; simpl.
  - eexists. split; [done|]. simpl. by apply delete_insert_id.
  - apply lookup_insert_at. by right.
  - done.
  - intros a. rewrite lookup_insert_ne.
    + destruct (files w !! (a :: l)) as [n|] eqn:Hn; [|done].
      apply Hok in Hn. congruence.
    + intros Heq. apply (f_equal length) in Heq. simpl in Heq. lia.
Qed.

(** An instance: [users/tmp]. *)
Lemma mkdir_rmdir_restores_witness :
  ∃ w2, rmdir store "users/tmp" (snd (mkdir store "users/tmp" stocked))
        = (Fulfilled tt, w2)
        ∧ files w2 = files stocked.
Proof.
  apply (mkdir_rmdir_restores store "users/tmp" stocked).
  - apply tree_okb_sound. vm_compute. reflexivity.
  - apply pair_of_fst. vm_compute. reflexivity.
Defined.



(** ** What [mkdirp] and [writep] leave behind *)

Section provisions.
Context (this : FileServer).

Lemma mkdirp_adds fuel : ∀ d w o w',
  mkdirp fuel this d w = Some (o, w') →
  (∀ k n, files w' !! k = Some n →
          files w !! k = Some n ∨ files w !! k = None ∧ n = Dir)
  ∧ ∃ t, trace w' = trace w ++ t ∧ Forall provisioning_call t.
Proof.
  assert (∀ p, provisioning_call (Call SMkdir p)) as Hmk by (intros p; exists p; auto).
  assert (∀ p, provisioning_call (Call SStat p)) as Hst by (intros p; exists p; auto).
  induction fuel as [|fuel IH]; intros d w o w'; [done|].
  rewrite mkdirp_unfold.
  destruct (mkdir_cases this w d) as
    [(n & Hl & ->) | [(Hl & ->) | [(Hl & Hp & ->) | (Hl & Hp & ->)]]].
  - destruct (stat_cases this (log (Call SMkdir (full this d)) w) d) as
      [(Hs & ->) | [(c & Hs & _ & ->) | (e & -> & Hs)]];
      intros [= <- <-]; simpl; (split; [by auto|]);
      exists [Call SMkdir (full this d); Call SStat (full this d)];
      (split; [by rewrite <- app_assoc | by repeat constructor]).
  - destruct (stat_cases this (log (Call SMkdir (full this d)) w) d) as
      [(Hs & ->) | [(c & Hs & _ & ->) | (e & -> & Hs)]];
      intros [= <- <-]; simpl; (split; [by auto|]);
      exists [Call SMkdir (full this d); Call SStat (full this d)];
      (split; [by rewrite <- app_assoc | by repeat constructor]).
  - intros [= <- <-]. simpl. split.
    + intros k n. destruct (decide (k = site this w d)) as [->|Hne].
      * rewrite lookup_insert_eq. intros [= <-]. right. split; [|done].
        by apply missing_entry.
      * rewrite lookup_insert_ne by done. auto.
    + exists [Call SMkdir (full this d)]. split; [done | by repeat constructor].
  - destruct (mkdirp fuel this (Path.dirname d) _) as [[o1 w2]|] eqn:H1; [|done].
    destruct (mkdirp_settled _ _ _ _ _ _ H1) as ((v1 & ->) & _).
    destruct (IH _ _ _ _ H1) as (Hadd1 & t1 & Ht1 & Hall1).
    intros H2. destruct (IH _ _ _ _ H2) as (Hadd2 & t2 & Ht2 & Hall2).
    simpl in *. split.
    + intros k n Hk. destruct (Hadd2 _ _ Hk) as [Hk2 | [Hk2 ->]].
      * apply Hadd1 in Hk2. done.
      * destruct (files w !! k) as [m|] eqn:Hm; [|by right].
        left. destruct (files w2 !! k) as [m'|] eqn:Hm'; [done|].
        destruct (mkdirp_settled _ _ _ _ _ _ H1) as (_ & _ & Hsub & _).
        simpl in Hsub. by rewrite (lookup_weaken _ _ _ _ Hm Hsub) in Hm'.
    + exists (Call SMkdir (full this d) :: t1 ++ t2). split.
      * rewrite Ht2, Ht1. by rewrite <- !app_assoc.
      * constructor; [done|]. by apply Forall_app.
Qed.

(** A [writep] that answers [undefined] has written. *)
Lemma writep_wrote fuel fpath data w w1 :
  writep fuel this fpath data w = Some (Fulfilled VUndefined, w1) →
  ∃ wa, write this fpath (default (JObj []) data) wa = (Fulfilled tt, w1).
Proof.
  unfold writep.
  destruct (mkdirp fuel this (Path.dirname fpath) w) as [[o wa]|] eqn:H1; [|done].
  destruct (mkdirp_settled _ _ _ _ _ _ H1) as ((v & ->) & _).
  destruct (stat this fpath wa) as [[st|e] wb].
  - destruct (isFile st); [done|].
    destruct (write this fpath _ wb) as [[[]|e] wc] eqn:Hw; [|done].
    intros [= <-]. eauto.
  - destruct e; try done.
    destruct (write this fpath _ wb) as [[[]|e] wc] eqn:Hw; [|done].
    intros [= <-]. eauto.
Qed.

(** Where something is at the place already, or in the way to it, one
    round settles the call and changes nothing. *)
Lemma mkdirp_present d w :
  Os.lookup (files w) (site this w d) ≠ Err ENOENT →
  ∃ v, mkdirp 1 this d w
       = Some (Fulfilled v,
               log (Call SStat (full this d)) (log (Call SMkdir (full this d)) w)).
Proof.
  intros Hq. rewrite mkdirp_unfold.
  destruct (mkdir_cases this w d) as
    [(n & Hl & ->) | [(Hl & ->) | [(Hl & Hp & ->) | (Hl & Hp & ->)]]];
    try done.
  - destruct (stat_cases this (log (Call SMkdir (full this d)) w) d) as
      [(Hs & ->) | [(c & Hs & _ & ->) | (e & -> & Hs)]]; eauto.
  - destruct (stat_cases this (log (Call SMkdir (full this d)) w) d) as
      [(Hs & ->) | [(c & Hs & _ & ->) | (e & -> & Hs)]]; eauto.
Qed.

Lemma dirname_of_file_present fpath w c :
  Os.lookup (files w) (site this w fpath) = Ok (File c) →
  Os.lookup (files w) (site this w (Path.dirname fpath)) ≠ Err ENOENT.
Proof.
  intros Hl Hq. destruct (site_dirname this w fpath) as (seg & Hsite & _).
  rewrite Hsite in Hl. unfold Os.step in Hl.
  destruct (decide (seg = "" ∨ seg = ".")); [congruence|].
  destruct (decide (seg = "..")).
  - destruct (site this w (Path.dirname fpath)) as [|x p]; simpl in *; [congruence|].
    by rewrite Hl in Hq.
  - apply lookup_parent in Hl. congruence.
Qed.

End provisions.

(** ** [mkdirp] and [writep] *)

(** X12.  However [mkdirp] settles, every entry that was there is still
    there unchanged, what has been added are directories, and nothing has
    happened but calls of [mkdir] and [stat]: no notification is
    emitted. *)
Theorem mkdirp_only_adds_directories (this : FileServer) (fuel : nat) (dpath : string)
    (w w' : world) (o : outcome value) :
  mkdirp fuel this dpath w = Some (o, w') →
  files w ⊆ files w'
  ∧ (∀ k n, files w !! k = None → files w' !! k = Some n → n = Dir)
  ∧ ∃ t, trace w' = trace w ++ t ∧ Forall provisioning_call t.
Proof.
  intros H. destruct (mkdirp_settled _ _ _ _ _ _ H) as (_ & _ & Hsub & _).
  destruct (mkdirp_adds _ _ _ _ _ _ H) as (Hadd & Ht).
  split_and!; [done | | done].
  intros k n Hk Hn. destruct (Hadd _ _ Hn) as [|[_ ->]]; [congruence | done].
Qed.

(** An instance: [users/2024/q1], two levels of which are missing. *)
Lemma mkdirp_only_adds_directories_witness :
  ∃ w',
    mkdirp 3 store "users/2024/q1" stocked = Some (Fulfilled (VNumber 1), w')
    ∧ files stocked ⊆ files w'
    ∧ (∀ k n, files stocked !! k = None → files w' !! k = Some n → n = Dir)
    ∧ ∃ t, trace w' = trace stocked ++ t ∧ Forall provisioning_call t.
Proof.
  destruct (settled_with (mkdirp 3 store "users/2024/q1" stocked)
              (Fulfilled (VNumber 1))) as [w' H]; [vm_compute; reflexivity|].
  exists w'. split; [done|].
  apply (mkdirp_only_adds_directories store 3 "users/2024/q1" stocked w' _ H).
Defined.

(** X13.  With the store root in place, in a well-formed tree, [mkdirp]
    of a path without parent-traversal segments whose place is free or
    holds a directory answers 1; the directory is then there, the tree is
    well formed, and the entries added are the place itself and
    directories above it. *)
Theorem mkdirp_provisions (this : FileServer) (dpath : string) (w : world) :
  no_up dpath → tree_ok (files w) → root_ok this w →
  Os.lookup (files w) (site this w dpath) = Ok Dir
    ∨ Os.lookup (files w) (site this w dpath) = Err ENOENT →
  ∃ fuel w',
    mkdirp fuel this dpath w = Some (Fulfilled (VNumber 1), w')
    ∧ Os.lookup (files w') (site this w dpath) = Ok Dir
    ∧ tree_ok (files w')
    ∧ (∀ k, files w !! k = None → is_Some (files w' !! k) →
            k `suffix_of` site this w dpath).
Proof.
  intros Hup Hok Hroot Hfree.
  destruct (mkdirp_provisions_within this (S (String.length dpath)) dpath w)
    as (fuel & w' & H & Hnew); [lia | done..|].
  destruct (mkdirp_settled _ _ _ _ _ _ H) as (_ & _ & _ & Hok' & _ & Hdir).
  exists fuel, w'. split_and!; auto.
Qed.

(** An instance: [users/2024/q1] again. *)
Lemma mkdirp_provisions_witness :
  ∃ fuel w',
    mkdirp fuel store "users/2024/q1" stocked = Some (Fulfilled (VNumber 1), w')
    ∧ Os.lookup (files w') (site store stocked "users/2024/q1") = Ok Dir
    ∧ tree_ok (files w')
    ∧ (∀ k, files stocked !! k = None → is_Some (files w' !! k) →
            k `suffix_of` site store stocked "users/2024/q1").
Proof.
  apply (mkdirp_provisions store "users/2024/q1" stocked).
  - unfold no_up. vm_compute. intros H. apply list_elem_of_In in H. simpl in H.
    intuition discriminate.
  - apply tree_okb_sound. by vm_compute.
  - by vm_compute.
  - right. by vm_compute.
Defined.

(** X14.  What [writep] wrote is what [read] answers: after a [writep] to
    a [.json] path that answered [undefined], [read] answers the value
    given, and the empty object when none was given. *)
Theorem writep_then_read (this : FileServer) (fuel : nat) (fpath : string)
    (data : option json) (w w1 : world) :
  endsWith fpath ".json" = true → json_wf (default (JObj []) data) →
  writep fuel this fpath data w = Some (Fulfilled VUndefined, w1) →
  fst (read this fpath w1) = Fulfilled (default (JObj []) data).
Proof.
  intros Hext Hwf H. destruct (writep_wrote _ _ _ _ _ _ H) as [wa Hw].
  rewrite (read_after_write _ _ _ _ _ Hw).
  unfold document_text, decoded. by rewrite Hext, parse_stringify.
Qed.

(** An instance: no value given, two directories to be made. *)
Lemma writep_then_read_witness :
  ∃ w1,
    writep 3 store "users/2024/q1/sum.json" None stocked
    = Some (Fulfilled VUndefined, w1)
    ∧ fst (read store "users/2024/q1/sum.json" w1) = Fulfilled (JObj []).
Proof.
  destruct (settled_with (writep 3 store "users/2024/q1/sum.json" None stocked)
              (Fulfilled VUndefined)) as [w1 H]; [vm_compute; reflexivity|].
  exists w1. split; [done|].
  apply (writep_then_read store 3 "users/2024/q1/sum.json" None stocked w1);
    [reflexivity | | done].
  simpl. split; [apply NoDup_nil_2 | done].
Defined.

(** X15.  When the directory of the document is a file, [writep] neither
    writes nor fails: the provisioning is refused, the [stat] of the
    document fails with ENOTDIR, and that error is what the promise is
    fulfilled with.  No notification is emitted and the tree is left as
    it was. *)
Theorem writep_under_file (this : FileServer) (dir name : string)
    (data : option json) (w : world) (c : string) :
  proper name → slash_free name → dir ≠ "" →
  Os.lookup (files w) (site this w dir) = Ok (File c) →
  let fpath := dir +:+ String "/" name in
  writep 1 this fpath data w
  = Some (Fulfilled (VError ENOTDIR),
          World (files w) (cwd w)
            (trace w ++ [Call SMkdir (full this (Path.dirname fpath));
                         Call SStat (full this (Path.dirname fpath));
                         Call SStat (full this fpath)])).
Proof.
  intros Hname Hfree Hdir Hl fpath.
  assert (name ≠ "") as Hne by (by destruct Hname).
  assert (site this w fpath = name :: site this w dir) as Hsite by (by apply site_file).
  assert (site this w (Path.dirname fpath) = site this w dir) as Hd
    by (by apply site_dirname_file).
  unfold writep. rewrite mkdirp_unfold.
  rewrite (mkdir_exists _ _ _ (File c)) by (by rewrite Hd).
  rewrite (stat_file _ _ _ c) by (by rewrite site_log, files_log, Hd).
  assert (∀ w0, cwd w0 = cwd w → files w0 = files w →
            stat this fpath w0
            = (Rejected ENOTDIR, log (Call SStat (full this fpath)) w0)) as Hstat.
  { intros w0 Hcwd Hfiles. apply stat_error.
    rewrite (site_cwd _ _ _ _ Hcwd), Hfiles, Hsite. simpl. by rewrite Hl. }
  destruct (Path.trailingSeparator _); rewrite Hstat by done; simpl;
    unfold log; simpl; by rewrite <- !app_assoc.
Qed.

(** An instance: a document below the document [ann.json]. *)
Lemma writep_under_file_witness :
  writep 1 store "users/ann.json/x.json" None stocked
  = Some (Fulfilled (VError ENOTDIR),
          World (files stocked) (cwd stocked)
            (trace stocked
             ++ [Call SMkdir (full store (Path.dirname "users/ann.json/x.json"));
                 Call SStat (full store (Path.dirname "users/ann.json/x.json"));
                 Call SStat (full store "users/ann.json/x.json")])).
Proof.
  apply (writep_under_file store "users/ann.json" "x.json" None stocked "{}").
  - apply properb_sound. reflexivity.
  - apply slash_freeb_sound. reflexivity.
  - discriminate.
  - by vm_compute.
Defined.

(** ** Normalizing a path without parent-traversal segments *)




Lemma trailing_last (s : string) :
  Path.trailingSeparator s = true → ∃ segs, Path.split s = segs ++ [""].
Proof.
  induction s as [|c s IH]; [done|]. simpl.
  destruct s as [|c' s'].
  - intros Hc. rewrite Hc. by exists [""].
  - intros H. destruct (IH H) as [segs Hsegs]. rewrite Hsegs.
    destruct (is_slash c).
    + by exists ("" :: segs).
    + destruct segs as [|seg segs]; simpl.
      * exfalso. destruct (split_nonempty s') as (seg & segs & Hs).
        simpl in Hsegs. rewrite Hs in Hsegs. by destruct (is_slash c').
      * by exists (String c seg :: segs).
Qed.

(** The segments of a normalized path: the names kept, between segments
    that mean nothing. *)
Lemma split_normalize (x : string) :
  x ≠ "" →
  let st := fold_left (Path.norm_step (negb (Path.isAbsolute x))) (Path.split x) [] in
  ∃ pre post,
    Path.split (Path.normalize x) = pre ++ rev st ++ post
    ∧ Forall (λ s, s = "" ∨ s = ".") pre
    ∧ Forall (λ s, s = "" ∨ s = ".") post
    ∧ (st ≠ [] → Path.trailingSeparator x = false → post = []).
Proof.
  intros Hx st. unfold Path.normalize, Path.normalizeString.
  rewrite decide_False by done. fold st.
  assert (Hshape : shape st) by (by apply norm_fold_shape).
  assert (Hfree : Forall slash_free st).
  { apply norm_fold_slash_free; [apply split_slash_free | done]. }
  apply shape_nonempty in Hshape.
  assert (Forall slash_free (rev st)) as Hfree' by (by apply List.Forall_rev).
  assert (Forall (λ s, s ≠ "") (rev st)) as Hne' by (by apply List.Forall_rev).
  destruct (decide (String.concat "/" (rev st) = "")) as [Hbody|Hbody].
  - assert (st = []) as Hnil.
    { destruct (rev st) as [|s segs] eqn:Hrev.
      - by apply (f_equal (@rev string)) in Hrev; rewrite rev_involutive in Hrev.
      - inversion Hne'; subst. destruct s as [|c s]; [done|].
        destruct (concat_cons_first c s segs) as [rest Hr]. congruence. }
    rewrite Hnil. simpl.
    destruct (Path.isAbsolute x); [|destruct (Path.trailingSeparator x)].
    + exists [""; ""], []. split_and!; [done | | done | done].
      repeat (apply Forall_cons_2; [by auto|]); apply Forall_nil_2.
    + exists ["."; ""], []. split_and!; [done | | done | done].
      repeat (apply Forall_cons_2; [by auto|]); apply Forall_nil_2.
    + exists ["."], []. split_and!; [done | | done | done].
      repeat (apply Forall_cons_2; [by auto|]); apply Forall_nil_2.
  - assert (rev st ≠ []) as Hne by (by intros Hnil; rewrite Hnil in Hbody).
    destruct (Path.isAbsolute x), (Path.trailingSeparator x).
    + exists [""], [""]. rewrite append_cons, append_nil.
      change (String "/" (String.concat "/" (rev st) +:+ "/"))
        with ("" +:+ String "/" (String.concat "/" (rev st) +:+ String "/" "")).
      rewrite !split_app, split_concat by done.
      split_and!; [done | | | done]; repeat (apply Forall_cons_2; [by auto|]); apply Forall_nil_2.
    + exists [""], []. rewrite append_cons, append_nil.
      change (String "/" (String.concat "/" (rev st)))
        with ("" +:+ String "/" (String.concat "/" (rev st))).
      rewrite !split_app, split_concat by done.
      split_and!; [by rewrite app_nil_r | | done | done]; repeat (apply Forall_cons_2; [by auto|]); apply Forall_nil_2.
    + exists [], [""].
      change (String.concat "/" (rev st) +:+ "/")
        with (String.concat "/" (rev st) +:+ String "/" "").
      rewrite !split_app, split_concat by done.
      split_and!; [done | done | | done]; repeat (apply Forall_cons_2; [by auto|]); apply Forall_nil_2.
    + exists [], []. rewrite split_concat by done.
      split_and!; [by rewrite app_nil_r | done | done | done].
Qed.



(** ** Paths that end in a name *)

Lemma ends_in_trailing (n s : string) :
  n ≠ "" → ends_in n s → Path.trailingSeparator s = false.
Proof.
  intros Hn [segs Hs]. destruct (Path.trailingSeparator s) eqn:Htr; [|done].
  destruct (trailing_last s Htr) as [segs' Hs']. rewrite Hs in Hs'.
  apply app_inj_tail in Hs' as [_ ?]. done.
Qed.

Lemma ends_in_nonempty (n s : string) : n ≠ "" → ends_in n s → s ≠ "".
Proof.
  intros Hn [segs Hs] ->. simpl in Hs.
  destruct segs as [|seg [|seg' segs]]; simpl in Hs; congruence.
Qed.

Lemma ends_in_app (a b n : string) : ends_in n b → ends_in n (a +:+ String "/" b).
Proof.
  intros [segs Hs]. exists (Path.split a ++ segs).
  by rewrite split_app, Hs, app_assoc.
Qed.


Lemma ends_in_normalize (n x : string) :
  proper n → ends_in n x → ends_in n (Path.normalize x).
Proof.
  intros Hn Hends. assert (n ≠ "") as Hne by (by destruct Hn).
  pose proof (ends_in_nonempty _ _ Hne Hends) as Hx.
  pose proof (ends_in_trailing _ _ Hne Hends) as Htr.
  destruct Hends as [segs Hs].
  destruct (split_normalize x Hx) as (pre & post & Hsplit & _ & _ & Hpost).
  rewrite Hs, fold_left_app in Hsplit, Hpost. simpl in Hsplit, Hpost.
  rewrite norm_step_proper in Hsplit, Hpost by done.
  rewrite Hpost in Hsplit by done. simpl in Hsplit.
  eexists. rewrite Hsplit, app_nil_r, app_assoc. done.
Qed.





Section children.
Context (this : FileServer).



End children.

(** ** Locations below a location *)






(** ** Well-formed trees *)

Lemma tree_above fs (l : loc) : ∀ pre,
  tree_ok fs → is_Some (fs !! (pre ++ l)) → is_Some (fs !! l).
Proof.
  induction pre as [|a pre IH]; intros Hok Hk; [done|].
  apply IH; [done|]. destruct Hk as [n Hn]. simpl in Hn.
  apply Hok in Hn. eauto.
Qed.




(** ** Taking a subtree away *)

Lemma without_below l fs k : l `suffix_of` k → without l fs !! k = None.
Proof.
  intros Hsuf. unfold without. apply map_lookup_filter_None. right.
  intros x _ Hn. by apply Hn.
Qed.

Lemma without_apart l fs k : ¬ l `suffix_of` k → without l fs !! k = fs !! k.
Proof.
  intros Hsuf. unfold without. destruct (fs !! k) as [x|] eqn:Hx.
  - by apply map_lookup_filter_Some.
  - apply map_lookup_filter_None. by left.
Qed.





(** ** [rmrdir] *)

Section rmrdir.
Context (this : FileServer).



End rmrdir.

(** ** [rmrdir] *)





(** ** [rename] *)

Lemma lookup_delete_dir fs (l k : loc) c :
  fs !! l = Some (File c) → Os.lookup fs k = Ok Dir →
  Os.lookup (delete l fs) k = Ok Dir.
Proof.
  intros Hl. induction k as [|x p IH]; simpl.
  - destruct (fs !! []) as [n|] eqn:Hn; [|done]. intros [= ->].
    rewrite lookup_delete_ne by congruence. by rewrite Hn.
  - destruct (Os.lookup fs p) as [[]|] eqn:Hp; [done | | done].
    destruct (fs !! (x :: p)) as [n|] eqn:Hn; [|done]. intros [= ->].
    rewrite IH by done. rewrite lookup_delete_ne by congruence. by rewrite Hn.
Qed.

Lemma lookup_insert_dir fs (l k : loc) n :
  fs !! l ≠ Some Dir → Os.lookup fs k = Ok Dir →
  Os.lookup (<[l := n]> fs) k = Ok Dir.
Proof.
  intros Hl. induction k as [|x p IH]; simpl.
  - destruct (fs !! []) as [m|] eqn:Hm; [|done]. intros [= ->].
    rewrite lookup_insert_ne by congruence. by rewrite Hm.
  - destruct (Os.lookup fs p) as [[]|] eqn:Hp; [done | | done].
    destruct (fs !! (x :: p)) as [m|] eqn:Hm; [|done]. intros [= ->].
    rewrite IH by done. rewrite lookup_insert_ne by congruence. by rewrite Hm.
Qed.

Lemma suffix_cons_cases (l p : loc) (x : string) :
  l `suffix_of` x :: p → l = x :: p ∨ l `suffix_of` p.
Proof.
  destruct l as [|y l]; [right; apply suffix_nil|]. apply suffix_cons_inv.
Qed.

Lemma lookup_above_dir fs (l k : loc) :
  Os.lookup fs k = Ok Dir → l `suffix_of` k → fs !! l = Some Dir.
Proof.
  induction k as [|x p IH]; intros Hk Hsuf.
  - apply suffix_nil_inv in Hsuf as ->. by apply lookup_entry.
  - apply suffix_cons_cases in Hsuf as [->|Hsuf]; [by apply lookup_entry|].
    apply IH; [|done]. by eapply lookup_parent.
Qed.

Lemma last_norm_ends_in (n s : string) : proper n → ends_in n s → last_norm s = true.
Proof.
  intros (H1 & H2 & H3) [segs Hs]. unfold last_norm.
  rewrite Hs, rev_app_distr. simpl.
  destruct (String.eqb_spec n ""); [done|].
  destruct (String.eqb_spec n "."); [done|].
  by destruct (String.eqb_spec n "..").
Qed.

Section rename.
Context (this : FileServer).

Lemma ends_in_full p n : proper n → ends_in n p → ends_in n (full this p).
Proof.
  intros Hn Hends. assert (n ≠ "") as Hne by (by destruct Hn).
  unfold full. rewrite join_unfold by apply dirpath_given.
  rewrite decide_False by (by eapply ends_in_nonempty).
  by apply ends_in_normalize, ends_in_app.
Qed.

Lemma site_ends_in w p n :
  proper n → ends_in n p → ∃ parent, site this w p = n :: parent.
Proof.
  intros Hn [segs Hs]. rewrite site_step, Hs, fold_left_app. simpl.
  rewrite step_push by done. eauto.
Qed.

End rename.

(** ** Moving a subtree *)

Lemma rebase_app (from to pre : loc) : rebase from to (pre ++ from) = pre ++ to.
Proof.
  unfold rebase. rewrite length_app.
  replace (length pre + length from - length from) with (length pre) by lia.
  by rewrite take_app_length.
Qed.

Lemma moved_tree_keys (from to : loc) (fs : gmap loc node) :
  NoDup (omap (λ entry : loc * node,
                 if decide (from `suffix_of` fst entry)
                 then Some (rebase from to (fst entry), snd entry) else None)
              (map_to_list fs)).*1.
Proof.
  set (g := λ k : loc,
              if decide (from `suffix_of` k) then Some (rebase from to k) else None).
  assert (∀ l : list (loc * node),
            (omap (λ entry : loc * node,
                     if decide (from `suffix_of` fst entry)
                     then Some (rebase from to (fst entry), snd entry) else None)
                  l).*1
            = omap g (l.*1)) as ->.
  { induction l as [|[k v] l IH]; [done|]. cbn [omap list_omap fmap list_fmap fst snd].
    unfold g at 1. destruct (decide (from `suffix_of` k)); cbn; by rewrite IH. }
  apply NoDup_omap_inj; [|apply NoDup_fst_map_to_list].
  intros x y z. unfold g.
  destruct (decide (from `suffix_of` x)) as [[px ->]|]; [|done].
  destruct (decide (from `suffix_of` y)) as [[py ->]|]; [|done].
  rewrite !rebase_app. intros [= <-] [= H]. apply app_inv_tail in H. by subst.
Qed.

Lemma moved_tree_lookup (from to pre : loc) (fs : gmap loc node) :
  moved_tree from to fs !! (pre ++ to) = fs !! (pre ++ from).
Proof.
  unfold moved_tree. destruct (fs !! (pre ++ from)) as [v|] eqn:Hv.
  - apply elem_of_list_to_map_1; [apply moved_tree_keys|].
    apply list_elem_of_omap. exists (pre ++ from, v).
    split; [by apply elem_of_map_to_list|]. simpl.
    rewrite decide_True by (by exists pre). by rewrite rebase_app.
  - apply not_elem_of_list_to_map_1. intros Hin.
    apply list_elem_of_fmap in Hin as ([k v] & Hk & Hin). simpl in Hk. subst k.
    apply list_elem_of_omap in Hin as ([k0 v0] & Hin & Hf). simpl in Hf.
    destruct (decide (from `suffix_of` k0)) as [[p0 ->]|]; [|done].
    rewrite rebase_app in Hf. injection Hf as Hp <-.
    apply app_inv_tail in Hp as ->.
    apply elem_of_map_to_list in Hin. congruence.
Qed.

Lemma moved_tree_apart (from to k : loc) (fs : gmap loc node) :
  ¬ to `suffix_of` k → moved_tree from to fs !! k = None.
Proof.
  intros Hk. unfold moved_tree. apply not_elem_of_list_to_map_1. intros Hin.
  apply list_elem_of_fmap in Hin as ([k' v] & Hk' & Hin). simpl in Hk'. subst k'.
  apply list_elem_of_omap in Hin as ([k0 v0] & Hin & Hf). simpl in Hf.
  destruct (decide (from `suffix_of` k0)) as [[p0 ->]|]; [|done].
  rewrite rebase_app in Hf. injection Hf as <- <-. apply Hk. by exists p0.
Qed.

(** ** [rename] *)

(** X17.  [rename] moves a document: when the old path names a file and
    the new path a free place in an existing directory, or another file,
    the call succeeds; [read] of the new path then answers what the old
    one held, [read] of the old path is rejected with ENOENT, no other
    entry is touched, and nothing is emitted: a document that was at the
    new path is replaced without notice. *)
Theorem rename_moves_document (this : FileServer) (fpath newpath name name' : string)
    (w : world) (c : string) :
  proper name → ends_in name fpath →
  proper name' → ends_in name' newpath →
  Os.lookup (files w) (site this w fpath) = Ok (File c) →
  (Os.lookup (files w) (site this w newpath) = Err ENOENT
   ∧ Os.lookup (files w) (tail (site this w newpath)) = Ok Dir)
  ∨ (∃ c', Os.lookup (files w) (site this w newpath) = Ok (File c')) →
  site this w fpath ≠ site this w newpath →
  ∃ w',
    rename this fpath newpath w = (Moved, w')
    ∧ fst (read this newpath w') = Fulfilled (decoded c)
    ∧ fst (read this fpath w') = Rejected ENOENT
    ∧ (∀ k, k ≠ site this w fpath → k ≠ site this w newpath →
            files w' !! k = files w !! k)
    ∧ trace w' = trace w.
Proof.
  intros Hn Hends Hn' Hends' Hold Hnew Hdiff.
  pose proof (ends_in_full this _ _ Hn Hends) as Hfull.
  pose proof (ends_in_full this _ _ Hn' Hends') as Hfull'.
  assert (name ≠ "" ∧ name' ≠ "") as [Hne Hne'] by (by destruct Hn, Hn').
  destruct (site_ends_in this w _ _ Hn Hends) as [po Hlo].
  destruct (site_ends_in this w _ _ Hn' Hends') as [pn Hln].
  set (lo := site this w fpath) in *. set (ln := site this w newpath) in *.
  assert (Os.lookup (files w) (tail lo) = Ok Dir) as Hpo.
  { rewrite Hlo in Hold |- *. by eapply lookup_parent. }
  assert (Os.lookup (files w) (tail ln) = Ok Dir) as Hpn.
  { destruct Hnew as [[_ H]|[c' H]]; [done|].
    rewrite Hln in H |- *. by eapply lookup_parent. }
  assert (files w !! ln ≠ Some Dir) as Hfree.
  { destruct Hnew as [[H1 H2]|[c' H]].
    - by rewrite (missing_entry _ _ H1 H2).
    - by rewrite (lookup_entry _ _ _ H). }
  unfold rename, pmRename, holder.
  change (Os.target w (Path.join (dirpath this) fpath)) with lo.
  change (Os.target w (Path.join (dirpath this) newpath)) with ln.
  fold (full this fpath) (full this newpath).
  rewrite (last_norm_ends_in _ _ Hn Hfull), (last_norm_ends_in _ _ Hn' Hfull').
  rewrite Hpo, Hpn, (lookup_entry _ _ _ Hold). simpl.
  rewrite (ends_in_trailing _ _ Hne Hfull), (ends_in_trailing _ _ Hne' Hfull').
  simpl. rewrite decide_False by done.
  rewrite decide_False.
  2:{ intros Hsuf. apply Hfree. rewrite Hln in Hpn. simpl in Hpn.
      rewrite Hln in Hsuf. apply suffix_cons_cases in Hsuf as [Heq|Hsuf].
      - by rewrite <- Hln in Heq.
      - pose proof (lookup_above_dir _ _ _ Hpn Hsuf) as Hd.
        by rewrite (lookup_entry _ _ _ Hold) in Hd. }
  rewrite decide_False.
  2:{ intros Hsuf. apply Hfree. rewrite Hlo in Hpo. simpl in Hpo.
      rewrite Hlo in Hsuf. apply suffix_cons_cases in Hsuf as [Heq|Hsuf].
      - by rewrite <- Hlo in Heq.
      - by apply (lookup_above_dir _ _ _ Hpo Hsuf). }
  set (fs' := <[ln := File c]> (delete lo (files w))).
  assert (∃ w', (match files w !! ln with
                 | Some Dir => (Refused EISDIR, w)
                 | _ => (Moved, with_files fs' w)
                 end) = (Moved, w') ∧ files w' = fs' ∧ cwd w' = cwd w
                ∧ trace w' = trace w) as (w' & -> & Hfiles & Hcwd & Htrace).
  { exists (with_files fs' w). by destruct (files w !! ln) as [[]|]. }
  exists w'. split; [done|].
  assert (Os.lookup (delete lo (files w)) (tail ln) = Ok Dir) as Hpn'.
  { eapply lookup_delete_dir; [by eapply lookup_entry | done]. }
  split_and!; [| | | done].
  - rewrite (read_file _ _ _ c); [done | |].
    + rewrite (site_cwd _ _ _ _ Hcwd), Hfiles. fold ln. unfold fs'.
      apply lookup_insert_at. by right.
    + by apply (ends_in_trailing name').
  - rewrite (read_error _ _ _ ENOENT); [done|].
    rewrite (site_cwd _ _ _ _ Hcwd), Hfiles. fold lo. rewrite Hlo. simpl.
    assert (Os.lookup fs' po = Ok Dir) as ->.
    { unfold fs'. apply lookup_insert_dir.
      - destruct (decide (lo = ln)) as [|Hd]; [done|].
        rewrite lookup_delete_ne by done. done.
      - eapply lookup_delete_dir; [by eapply lookup_entry|].
        by rewrite Hlo in Hpo. }
    unfold fs'. rewrite <- Hlo. rewrite lookup_insert_ne by done.
    by rewrite lookup_delete_eq.
  - intros k Hk1 Hk2. rewrite Hfiles. unfold fs'.
    rewrite lookup_insert_ne by done. by rewrite lookup_delete_ne.
Qed.

(** An instance: [ann.json] takes the place of [bob.json]. *)
Lemma rename_moves_document_witness :
  ∃ w',
    rename store "users/ann.json" "users/bob.json" stocked = (Moved, w')
    ∧ fst (read store "users/bob.json" w') = Fulfilled (decoded "{}")
    ∧ fst (read store "users/ann.json" w') = Rejected ENOENT
    ∧ (∀ k, k ≠ site store stocked "users/ann.json" →
            k ≠ site store stocked "users/bob.json" →
            files w' !! k = files stocked !! k)
    ∧ trace w' = trace stocked.
Proof.
  apply (rename_moves_document store "users/ann.json" "users/bob.json"
           "ann.json" "bob.json" stocked "{}").
  - apply properb_sound. reflexivity.
  - by exists ["users"].
  - apply properb_sound. reflexivity.
  - by exists ["users"].
  - by vm_compute.
  - right. exists "[1]". by vm_compute.
  - by vm_compute.
Defined.

(** X23.  [rename] moves a directory with all that is in it: in a
    well-formed tree, when the old path names a directory and the new
    path a free place in an existing directory that is not inside the old
    one, the call succeeds; every entry that was at or below the old
    place is then at the same position below the new place, nothing is
    left at or below the old place, and every other entry is as it
    was. *)
Theorem rename_moves_directory (this : FileServer) (dpath newpath name name' : string)
    (w : world) :
  proper name → ends_in name dpath →
  proper name' → ends_in name' newpath →
  tree_ok (files w) →
  Os.lookup (files w) (site this w dpath) = Ok Dir →
  Os.lookup (files w) (site this w newpath) = Err ENOENT →
  Os.lookup (files w) (tail (site this w newpath)) = Ok Dir →
  ¬ site this w dpath `suffix_of` site this w newpath →
  ∃ w',
    rename this dpath newpath w = (Moved, w')
    ∧ (∀ pre, files w' !! (pre ++ site this w newpath)
              = files w !! (pre ++ site this w dpath))
    ∧ (∀ k, site this w dpath `suffix_of` k → files w' !! k = None)
    ∧ (∀ k, ¬ site this w dpath `suffix_of` k →
            ¬ site this w newpath `suffix_of` k →
            files w' !! k = files w !! k).
Proof.
  intros Hn Hends Hn' Hends' Hok Hold Hnew Hpn Hout.
  pose proof (ends_in_full this _ _ Hn Hends) as Hfull.
  pose proof (ends_in_full this _ _ Hn' Hends') as Hfull'.
  destruct (site_ends_in this w _ _ Hn Hends) as [po Hlo].
  set (lo := site this w dpath) in *. set (ln := site this w newpath) in *.
  assert (Os.lookup (files w) (tail lo) = Ok Dir) as Hpo.
  { rewrite Hlo in Hold |- *. by eapply lookup_parent. }
  assert (files w !! ln = None) as Hfree by (by apply missing_entry).
  assert (files w !! lo = Some Dir) as Hdir by (by apply lookup_entry).
  assert (¬ ln `suffix_of` lo) as Hin.
  { intros Hsuf. pose proof (lookup_above_dir _ _ _ Hold Hsuf). congruence. }
  assert (∀ k, lo `suffix_of` k → ¬ ln `suffix_of` k) as Hapart.
  { intros k H1 H2. destruct (suffix_weak_total _ _ _ H1 H2); done. }
  unfold rename, pmRename, holder.
  change (Os.target w (Path.join (dirpath this) dpath)) with lo.
  change (Os.target w (Path.join (dirpath this) newpath)) with ln.
  fold (full this dpath) (full this newpath).
  rewrite (last_norm_ends_in _ _ Hn Hfull), (last_norm_ends_in _ _ Hn' Hfull').
  rewrite Hpo, Hpn, Hdir, Hfree. simpl.
  rewrite decide_False by congruence.
  rewrite decide_False by done. rewrite decide_False by done.
  eexists. split; [done|]. simpl. split_and!.
  - intros pre. destruct (files w !! (pre ++ lo)) as [v|] eqn:Hv.
    + apply lookup_union_Some_l. by rewrite moved_tree_lookup.
    + apply lookup_union_None_2; [by rewrite moved_tree_lookup|].
      destruct (decide (lo `suffix_of` pre ++ ln)) as [Hs|Hs].
      * by apply without_below.
      * rewrite without_apart by done.
        destruct (files w !! (pre ++ ln)) as [x|] eqn:Hx; [|done].
        assert (is_Some (files w !! ln)) as [y Hy] by (eapply tree_above; eauto).
        congruence.
  - intros k Hk. apply lookup_union_None_2.
    + apply moved_tree_apart. by apply Hapart.
    + by apply without_below.
  - intros k Hk1 Hk2. rewrite lookup_union_r by (by apply moved_tree_apart).
    by apply without_apart.
Qed.

(** An instance: [users/archive] becomes [users/2023]. *)
Lemma rename_moves_directory_witness :
  ∃ w',
    rename store "users/archive" "users/2023" stocked = (Moved, w')
    ∧ (∀ pre, files w' !! (pre ++ site store stocked "users/2023")
              = files stocked !! (pre ++ site store stocked "users/archive"))
    ∧ (∀ k, site store stocked "users/archive" `suffix_of` k → files w' !! k = None)
    ∧ (∀ k, ¬ site store stocked "users/archive" `suffix_of` k →
            ¬ site store stocked "users/2023" `suffix_of` k →
            files w' !! k = files stocked !! k).
Proof.
  apply (rename_moves_directory store "users/archive" "users/2023"
           "archive" "2023" stocked).
  - apply properb_sound. reflexivity.
  - by exists ["users"].
  - apply properb_sound. reflexivity.
  - by exists ["users"].
  - apply tree_okb_sound. by vm_compute.
  - by vm_compute.
  - by vm_compute.
  - by vm_compute.
  - intros [pre H]. vm_compute in H.
    apply (f_equal (@rev string)) in H. rewrite rev_app_distr in H. simpl in H.
    discriminate.
Defined.

(** ** Paths are never empty *)

Lemma normalize_nonempty (x : string) : Path.normalize x ≠ "".
Proof.
  unfold Path.normalize. destruct (decide (x = "")); [done|].
  destruct (decide (Path.normalizeString x _ = "")) as [|Hbody].
  { by destruct (Path.isAbsolute x), (Path.trailingSeparator x). }
  destruct (Path.isAbsolute x); [by rewrite append_cons|].
  destruct (Path.trailingSeparator x); [|done].
  by destruct (Path.normalizeString x _).
Qed.

Lemma join_nonempty (a b : string) : Path.join a b ≠ "".
Proof.
  unfold Path.join. destruct (filter _ _); [done | apply normalize_nonempty].
Qed.

(** ** Splitting at a character *)

Lemma split_on_nonempty sep (s : string) : split_on sep s ≠ [].
Proof.
  destruct s as [|c s]; [done|]. simpl.
  destruct (Ascii.eqb c sep); [done|]. by destruct (split_on sep s).
Qed.

Lemma split_on_app sep (a b : string) :
  split_on sep (a +:+ String sep b) = split_on sep a ++ split_on sep b.
Proof.
  induction a as [|c a IH].
  - rewrite append_nil. simpl. by rewrite Ascii.eqb_refl.
  - rewrite append_cons. simpl. rewrite IH.
    destruct (Ascii.eqb c sep); [done|].
    destruct (split_on sep a) as [|seg segs] eqn:Ha; [|done].
    by apply split_on_nonempty in Ha.
Qed.

Lemma split_on_free sep (s : string) : sep ∉ chars s → split_on sep s = [s].
Proof.
  induction s as [|c s IH]; [done|]. simpl. intros Hs.
  destruct (Ascii.eqb_spec c sep) as [->|]; [by exfalso; apply Hs; left|].
  rewrite IH; [done|]. intros ?. apply Hs. by right.
Qed.

Lemma slash_free_chars (s : string) : slash_free s → "/"%char ∉ chars s.
Proof.
  unfold slash_free. rewrite Forall_forall. intros H Hin.
  by specialize (H _ Hin).
Qed.

Lemma id_of_file (dir base ext : string) :
  dotless base → slash_free base → slash_free ext →
  id_of_path (dir +:+ String "/" (base +:+ String "." ext)) = base.
Proof.
  intros Hdot Hbase Hext. unfold id_of_path.
  rewrite split_on_app, (split_on_free "/" (base +:+ String "." ext)).
  - rewrite last_last, split_on_app, (split_on_free "." base) by done. done.
  - rewrite chars_app. rewrite elem_of_app. intros [H|H].
    + by apply slash_free_chars in H.
    + apply elem_of_cons in H as [|H]; [done|]. by apply slash_free_chars in H.
Qed.

(** ** Members of an object *)

Lemma obj_get_set (members : list (string * json)) (k : string) (v : json) :
  obj_get (JSON.obj_set members k v) k = Some v.
Proof.
  induction members as [|[k' v'] ms IH]; simpl.
  - by rewrite decide_True.
  - destruct (decide (k' = k)); simpl.
    + by rewrite decide_True.
    + by rewrite decide_False.
Qed.

Lemma obj_get_set_ne (members : list (string * json)) (k k0 : string) (v : json) :
  k0 ≠ k → obj_get (JSON.obj_set members k v) k0 = obj_get members k0.
Proof.
  intros Hne. induction members as [|[k' v'] ms IH]; simpl.
  - by rewrite decide_False.
  - destruct (decide (k' = k)) as [->|]; simpl.
    + by rewrite !decide_False.
    + by rewrite IH.
Qed.

Lemma obj_set_keys (members : list (string * json)) (k : string) (v : json) :
  map fst (JSON.obj_set members k v)
  = if decide (k ∈ map fst members) then map fst members else map fst members ++ [k].
Proof.
  induction members as [|[k' v'] ms IH].
  - destruct (decide (k ∈ map fst [])) as [H|]; [by apply elem_of_nil in H | done].
  - cbn [JSON.obj_set]. destruct (decide (k' = k)) as [->|Hne].
    + destruct (decide (k ∈ map fst ((k, v') :: ms))) as [|H]; [done|].
      exfalso. apply H. by left.
    + cbn [map fst]. rewrite IH.
      destruct (decide (k ∈ map fst ms)) as [Hin|Hin].
      * destruct (decide (k ∈ k' :: map fst ms)) as [|H]; [done|].
        exfalso. apply H. by right.
      * destruct (decide (k ∈ k' :: map fst ms)) as [H|]; [|done].
        apply elem_of_cons in H as [|]; congruence.
Qed.

(** ** The constructors, and [setIdToDocument] *)

(** X18.  The constructor of [FileServer] throws exactly for the empty
    string, and the constructor of [Json2Db] never lets that happen: it
    keeps a non-empty string it is given, and puts [json2db] in the
    working directory in place of anything else. *)
Theorem Json2Db_always_constructed (given : option string) (process_cwd : string) :
  (∀ d, new_FileServer d = None ↔ d = "")
  ∧ ∃ db,
      new_Json2Db given process_cwd = Some db
      ∧ (∀ s, given = Some s → s ≠ "" → dirpath (fs db) = s)
      ∧ (given = None ∨ given = Some "" →
         dirpath (fs db) = Path.join process_cwd "json2db").
Proof.
  assert (∀ d, d ≠ "" → ∃ server, new_FileServer d = Some server ∧ dirpath server = d)
    as Hnew.
  { intros d Hd. unfold new_FileServer. destruct (decide (d ≠ "")); [|done]. eauto. }
  split.
  - intros d. unfold new_FileServer. destruct (decide (d ≠ "")) as [Hd|Hd].
    + split; [done|]. by intros ->.
    + split; [|done]. intros _. destruct d; [done|]. by exfalso; apply Hd.
  - unfold new_Json2Db. destruct given as [s|].
    + destruct (decide (s = "")) as [->|Hs].
      * destruct (Hnew _ (join_nonempty process_cwd "json2db")) as (srv & -> & Hd).
        eexists. split; [done|]. simpl. split; [|done]. by intros s [= <-].
      * destruct (Hnew _ Hs) as (srv & -> & Hd).
        eexists. split; [done|]. simpl. split; [by intros ? [= <-]|].
        intros [|[= ->]]; done.
    + destruct (Hnew _ (join_nonempty process_cwd "json2db")) as (srv & -> & Hd).
      eexists. split; [done|]. simpl. split; [done|]. done.
Qed.

(** An instance: no directory given, the process running in [/srv]. *)
Lemma Json2Db_always_constructed_witness :
  ∃ db, new_Json2Db None "/srv" = Some db ∧ dirpath (fs db) = "/srv/json2db".
Proof.
  destruct (proj2 (Json2Db_always_constructed None "/srv")) as (db & H & _ & Hd).
  exists db. split; [done|]. rewrite Hd; [by vm_compute | by left].
Defined.

(** X19.  [setIdToDocument] leaves a document that has a non-empty
    string as [id] as it is.  Any other document comes back with a string
    as [id] and its other members untouched, [id] in its old place or
    else last; for a file [dir/base.ext] whose [base] has no dot, the id
    is [base]. *)
Theorem setIdToDocument_sets_id (found : list string) (dt dt' : list (string * json))
    (ind : nat) :
  setIdToDocument found dt ind = Some dt' →
  (∃ s, obj_get dt' "id" = Some (JStr s))
  ∧ (∀ k, k ≠ "id" → obj_get dt' k = obj_get dt k)
  ∧ (∀ s, obj_get dt "id" = Some (JStr s) → s ≠ "" → dt' = dt)
  ∧ map fst dt'
    = (if decide ("id" ∈ map fst dt) then map fst dt else map fst dt ++ ["id"])
  ∧ (∀ dir base ext,
       dt' ≠ dt →
       found !! ind = Some (dir +:+ String "/" (base +:+ String "." ext)) →
       dotless base → slash_free base → slash_free ext →
       obj_get dt' "id" = Some (JStr base)).
Proof.
  unfold setIdToDocument.
  destruct (obj_get dt "id") as [v|] eqn:Hid.
  - destruct v as [| | | |s| |];
      try (destruct (found !! ind) as [path|]; [|done]; intros [= <-];
           split_and!;
           [ rewrite obj_get_set; eauto
           | by intros k Hk; apply obj_get_set_ne
           | done
           | apply obj_set_keys
           | by intros dir base ext _ [= ->] ???; rewrite obj_get_set, id_of_file ]).
    destruct (String.eqb_spec s "") as [->|Hs]; simpl.
    + destruct (found !! ind) as [path|]; [|done]. intros [= <-].
      split_and!;
        [ rewrite obj_get_set; eauto
        | by intros k Hk; apply obj_get_set_ne
        | by intros s [= <-]
        | apply obj_set_keys
        | by intros dir base ext _ [= ->] ???; rewrite obj_get_set, id_of_file ].
    + intros [= <-]. split_and!; [eauto | done | done | | done].
      rewrite decide_True; [done|]. clear Hs.
      induction dt as [|[k v] ms IH]; [done|]. simpl in Hid.
      destruct (decide (k = "id")) as [->|]; [by left|]. right. by apply IH.
  - destruct (found !! ind) as [path|]; [|done]. intros [= <-].
    split_and!;
      [ rewrite obj_get_set; eauto
      | by intros k Hk; apply obj_get_set_ne
      | done
      | apply obj_set_keys
      | by intros dir base ext _ [= ->] ???; rewrite obj_get_set, id_of_file ].
Qed.

(** An instance: a document without [id], found in [users/ann.json]. *)
Lemma setIdToDocument_sets_id_witness :
  setIdToDocument ["users/ann.json"] [("age", JNum 30)] 0
  = Some [("age", JNum 30); ("id", JStr "ann")]
  ∧ obj_get [("age", JNum 30); ("id", JStr "ann")] "id" = Some (JStr "ann").
Proof.
  split; [reflexivity|].
  apply (proj2 (proj2 (proj2 (proj2
           (setIdToDocument_sets_id ["users/ann.json"] [("age", JNum 30)]
              [("age", JNum 30); ("id", JStr "ann")] 0 eq_refl))))
           "users" "ann" "json").
  - discriminate.
  - reflexivity.
  - unfold dotless. vm_compute. intros H. apply list_elem_of_In in H. simpl in H.
    intuition discriminate.
  - apply slash_freeb_sound. reflexivity.
  - apply slash_freeb_sound. reflexivity.
Defined.

(** ** [mkdir] against [mkdirp], [writep] on a document that is there *)



(** X21.  [writep] on a path where a file is answers 1 at once and
    leaves the file alone, whatever it holds and wherever it came from:
    the tree is unchanged, and all that happened are the [mkdir] and the
    [stat] of the parent and the [stat] of the path; no notification is
    emitted. *)
Theorem writep_keeps_existing (this : FileServer) (fpath : string)
    (data : option json) (w : world) (c : string) :
  Os.lookup (files w) (site this w fpath) = Ok (File c) →
  Path.trailingSeparator (full this fpath) = false →
  writep 1 this fpath data w
  = Some (Fulfilled (VNumber 1),
          World (files w) (cwd w)
            (trace w ++ [Call SMkdir (full this (Path.dirname fpath));
                         Call SStat (full this (Path.dirname fpath));
                         Call SStat (full this fpath)])).
Proof.
  intros Hl Htr.
  destruct (mkdirp_present this (Path.dirname fpath) w) as [v Hv].
  { by eapply dirname_of_file_present. }
  unfold writep. rewrite Hv.
  rewrite (stat_file _ _ _ c) by (by rewrite !site_log, !files_log).
  rewrite Htr. simpl. unfold log. simpl. by rewrite <- !app_assoc.
Qed.

(** An instance: [ann.json], which was there from the start. *)
Lemma writep_keeps_existing_witness :
  writep 1 store "users/ann.json" (Some (JObj [("age", JNum 31)])) stocked
  = Some (Fulfilled (VNumber 1),
          World (files stocked) (cwd stocked)
            (trace stocked
             ++ [Call SMkdir (full store (Path.dirname "users/ann.json"));
                 Call SStat (full store (Path.dirname "users/ann.json"));
                 Call SStat (full store "users/ann.json")])).
Proof.
  apply (writep_keeps_existing store "users/ann.json" _ stocked "{}");
    by vm_compute.
Defined.

(** X24.  With the store root in place, in a well-formed tree, a
    document [dir/name] whose directory is missing cannot be written by
    [write], which is rejected with ENOENT, but is written by [writep],
    which makes the directory first; [read] then answers the value. *)
Theorem writep_makes_the_way (this : FileServer) (dir name : string) (data : json)
    (w : world) :
  proper name → slash_free name → dir ≠ "" → no_up dir →
  tree_ok (files w) → root_ok this w →
  Os.lookup (files w) (site this w dir) = Err ENOENT →
  endsWith name ".json" = true → json_wf data →
  let fpath := dir +:+ String "/" name in
  fst (write this fpath data w) = Rejected ENOENT
  ∧ ∃ fuel w',
      writep fuel this fpath (Some data) w = Some (Fulfilled VUndefined, w')
      ∧ Os.lookup (files w') (site this w dir) = Ok Dir
      ∧ fst (read this fpath w') = Fulfilled data.
Proof.
  intros Hname Hfree Hdir Hup Hok Hroot Hmissing Hext Hwf fpath.
  unfold fpath. clear fpath. set (fpath := dir +:+ String "/" name).
  destruct (writep_provisions_parent this dir name data w)
    as (Hwrite & fuel & w' & Hwp & Hd & _); try done.
  fold fpath in Hwrite, Hwp.
  split; [done|]. exists fuel, w'. split_and!; [done | done |].
  destruct (writep_wrote _ _ _ _ _ _ Hwp) as [wa Hw].
  rewrite (read_after_write _ _ _ _ _ Hw). simpl.
  assert (endsWith fpath ".json" = true) as Hext'.
  { apply endsWith_suffix in Hext as [pre ->]. apply endsWith_suffix.
    exists (dir +:+ String "/" pre). unfold fpath.
    by rewrite string_app_assoc, append_cons. }
  unfold document_text, decoded. by rewrite Hext', parse_stringify.
Qed.

(** An instance: [users/2024/sum.json], the directory [2024] missing. *)
Lemma writep_makes_the_way_witness :
  fst (write store ("users/2024" +:+ String "/" "sum.json") (JNum 7) stocked)
  = Rejected ENOENT
  ∧ ∃ fuel w',
      writep fuel store ("users/2024" +:+ String "/" "sum.json") (Some (JNum 7)) stocked
      = Some (Fulfilled VUndefined, w')
      ∧ Os.lookup (files w') (site store stocked "users/2024") = Ok Dir
      ∧ fst (read store ("users/2024" +:+ String "/" "sum.json") w')
        = Fulfilled (JNum 7).
Proof.
  apply (writep_makes_the_way store "users/2024" "sum.json" (JNum 7) stocked).
  - apply properb_sound. reflexivity.
  - apply slash_freeb_sound. reflexivity.
  - discriminate.
  - unfold no_up. vm_compute. intros H. apply list_elem_of_In in H. simpl in H.
    intuition discriminate.
  - apply tree_okb_sound. by vm_compute.
  - by vm_compute.
  - by vm_compute.
  - reflexivity.
  - simpl. lia.
Defined.


